(** * remirror: the configuration generator and the publish workflow

    A shallow embedding of

    - the build script that generates the [exports] maps, the size-limit
      configuration and the per-package [tsconfig.json] files
      (the [@script] part of [markdown-editor.tsx]), and
    - the [publish] workflow ([.github/workflows/publish.yml]),

    together with the properties the specification states about them.

    JavaScript objects are insertion-ordered association lists, the files on
    disk a finite map from paths to contents, and the script's effects
    (logging, writing files, throwing, [process.exit]) a state monad with
    completions. *)

From Stdlib Require Import ZArith Lia Permutation Ascii.
From stdpp Require Import base strings list sorting gmap.

Local Open Scope Z_scope.
Set Warnings "-register-all".

(** ** JavaScript values *)

(** JSON data as the script reads and writes it: the values found in
    [package.json] and [tsconfig.json] files. *)
Inductive Json : Type :=
  | JNull
  | JBool (b : bool)
  | JStr (s : string)
  | JArr (xs : list Json)
  | JObj (fields : list (string * Json)).

(** A JavaScript object with string keys: the properties in insertion
    order. *)
Module Obj.

Fixpoint get {V} (k : string) (o : list (string * V)) : option V :=
  match o with
  | [] => None
  | (k', v) :: o' => if decide (k = k') then Some v else get k o'
  end.

(** [o[k] = v]: an existing property keeps its place, a new one goes last. *)
Fixpoint set {V} (k : string) (v : V) (o : list (string * V))
  : list (string * V) :=
  match o with
  | [] => [(k, v)]
  | (k', v') :: o' =>
      if decide (k = k') then (k, v) :: o' else (k', v') :: set k v o'
  end.

Definition keys {V} (o : list (string * V)) : list string := o.*1.

End Obj.

(** [value ? value : undefined] on an optional string: the empty string is
    falsy. *)
Definition truthy (o : option string) : option string :=
  match o with
  | Some s => if decide (s = "") then None else Some s
  | None => None
  end.

(** ** Node's [path] module (posix) *)

Module path.

Definition sep : ascii := "/"%char.

(** The pieces of a path between separators, empty pieces included. *)
Fixpoint split_go (cur : string) (s : string) : list string :=
  match s with
  | EmptyString => [String.rev cur]
  | String c s' =>
      if decide (c = sep) then String.rev cur :: split_go "" s'
      else split_go (String c cur) s'
  end.
Definition split (s : string) : list string := split_go "" s.

(** [normalizeString]: the stack of segments kept so far is [acc],
    innermost first. Empty segments and ["."] are dropped; [".."] removes
    the segment before it, or is kept when there is none to remove and
    the path may climb above its root. *)
Fixpoint normalize_go (allowAboveRoot : bool) (acc : list string)
    (segs : list string) : list string :=
  match segs with
  | [] => reverse acc
  | seg :: segs' =>
      if decide (seg = "") then normalize_go allowAboveRoot acc segs'
      else if decide (seg = ".") then normalize_go allowAboveRoot acc segs'
      else if decide (seg = "..") then
        match acc with
        | top :: acc' =>
            if decide (top = "..")
            then normalize_go allowAboveRoot
                   (if allowAboveRoot then ".." :: acc else acc) segs'
            else normalize_go allowAboveRoot acc' segs'
        | [] =>
            normalize_go allowAboveRoot
              (if allowAboveRoot then [".."] else []) segs'
        end
      else normalize_go allowAboveRoot (seg :: acc) segs'
  end.

Definition isAbsolute (p : string) : bool := String.prefix "/" p.

Definition endsWithSep (p : string) : bool :=
  match String.rev p with
  | String c _ => bool_decide (c = sep)
  | EmptyString => false
  end.

Definition normalize (p : string) : string :=
  if decide (p = "") then "."
  else
    let body :=
      String.concat "/" (normalize_go (negb (isAbsolute p)) [] (split p)) in
    if decide (body = "") then
      if isAbsolute p then "/" else if endsWithSep p then "./" else "."
    else
      let body := if endsWithSep p then body +:+ "/" else body in
      if isAbsolute p then "/" +:+ body else body.

(** [path.join(...args)]: the arguments that are not empty, joined with
    the separator and normalized. *)
Definition join (args : list string) : string :=
  match filter (λ a, a ≠ "") args with
  | [] => "."
  | parts => normalize (String.concat "/" parts)
  end.

(** The segments of [path.resolve(p)] for the working directory [cwd]. *)
Definition resolve_segments (cwd p : string) : list string :=
  if isAbsolute p then normalize_go false [] (split p)
  else normalize_go false [] (split cwd ++ split p).

Fixpoint strip_common (xs ys : list string) : list string * list string :=
  match xs, ys with
  | x :: xs', y :: ys' =>
      if decide (x = y) then strip_common xs' ys' else (xs, ys)
  | _, _ => (xs, ys)
  end.

(** [path.relative(from, to)]: climb out of what is left of [from] after
    the common prefix, then descend into what is left of [to]. *)
Definition relative (cwd from to : string) : string :=
  let '(up, down) :=
    strip_common (resolve_segments cwd from) (resolve_segments cwd to) in
  String.concat "/" (replicate (length up) ".." ++ down).

(** [path.dirname(p)]: the path up to the last separator that is followed
    by a segment. *)
Fixpoint drop_seps (r : string) : string :=
  match r with
  | String c r' => if decide (c = sep) then drop_seps r' else r
  | EmptyString => EmptyString
  end.
Fixpoint drop_segment (r : string) : option string :=
  match r with
  | String c r' => if decide (c = sep) then Some r else drop_segment r'
  | EmptyString => None
  end.
Definition dirname (p : string) : string :=
  match p with
  | EmptyString => "."
  | String c0 rest =>
      match drop_segment (drop_seps (String.rev rest)) with
      | Some (String _ r) =>
          (* a separator at index >= 1 ends the directory part *)
          if decide (c0 = sep ∧ r = "") then "//"
          else String c0 (String.rev r)
      | _ => if decide (c0 = sep) then "/" else "."
      end
  end.

End path.

(** ** [JSON.stringify(value, null, 2)] *)

Module JSON.

Definition dquote : string := String (ascii_of_nat 34) "".
Definition newline : string := String (ascii_of_nat 10) "".

Definition hex_digit (n : nat) : string :=
  match n with
  | 0%nat => "0" | 1%nat => "1" | 2%nat => "2" | 3%nat => "3"
  | 4%nat => "4" | 5%nat => "5" | 6%nat => "6" | 7%nat => "7"
  | 8%nat => "8" | 9%nat => "9" | 10%nat => "a" | 11%nat => "b"
  | 12%nat => "c" | 13%nat => "d" | 14%nat => "e" | _ => "f"
  end.

(** The escape of one character inside a JSON string. *)
Definition escape (c : ascii) : string :=
  let n := nat_of_ascii c in
  if decide (n = 34%nat) then "\" +:+ dquote
  else if decide (n = 92%nat) then "\\"
  else if decide (n = 8%nat) then "\b"
  else if decide (n = 12%nat) then "\f"
  else if decide (n = 10%nat) then "\n"
  else if decide (n = 13%nat) then "\r"
  else if decide (n = 9%nat) then "\t"
  else if decide (n < 32)%nat then
    "\u00" +:+ hex_digit (n / 16) +:+ hex_digit (n mod 16)
  else String c "".

Fixpoint escape_all (s : string) : string :=
  match s with
  | EmptyString => ""
  | String c s' => escape c +:+ escape_all s'
  end.

Definition quote (s : string) : string := dquote +:+ escape_all s +:+ dquote.

(** A value printed at the indentation [indent], two more spaces for each
    level of nesting. *)
Fixpoint print (indent : string) (v : Json) : string :=
  let inner := indent +:+ "  " in
  match v with
  | JNull => "null"
  | JBool true => "true"
  | JBool false => "false"
  | JStr s => quote s
  | JArr [] => "[]"
  | JArr xs =>
      "[" +:+ newline
      +:+ String.concat ("," +:+ newline)
            (map (λ x, inner +:+ print inner x) xs)
      +:+ newline +:+ indent +:+ "]"
  | JObj [] => "{}"
  | JObj fields =>
      "{" +:+ newline
      +:+ String.concat ("," +:+ newline)
            (map (λ kv, inner +:+ quote kv.1 +:+ ": " +:+ print inner kv.2)
               fields)
      +:+ newline +:+ indent +:+ "}"
  end.

(** [JSON.stringify(undefined, null, 2)] is [undefined]. *)
Definition stringify (v : option Json) : option string := print "" <$> v.

End JSON.

(** ** Package metadata *)

(** The [browser] field of a [package.json]: one path, or a map from paths
    to their replacements. *)
Inductive Browser : Type :=
  | BrowserPath (p : string)
  | BrowserMap (m : list (string * Json)).

(** The [@remirror] field of a workspace package. *)
Record RemirrorPackageMeta : Type := {
  sizeLimit : option string;
  tsconfigs : option Json;
}.

Record PackageJson : Type := {
  name : option string;
  main : option string;
  module : option string;
  browser : option Browser;
  types : option string;
  exports : option Json;
  dependencies : option (list (string * string));
  peerDependencies : option (list (string * string));
  remirror : option RemirrorPackageMeta;
}.

(** A workspace package: its [package.json] and the absolute path of its
    directory. *)
Record Package : Type := {
  location : string;
  packageJson :> PackageJson;
}.

(** [Object.keys(pkg.dependencies ?? {})]. *)
Definition dependencyNames (pkg : PackageJson) : list string :=
  Obj.keys (default [] (dependencies pkg)).

(** [packageJson.exports = value]. *)
Definition set_exports (value : option Json) (p : PackageJson) : PackageJson :=
  {| name := name p; main := main p; module := module p;
     browser := browser p; types := types p; exports := value;
     dependencies := dependencies p; peerDependencies := peerDependencies p;
     remirror := remirror p |}.

(** A property key made from a value that may be [undefined]. *)
Definition propertyKey (o : option string) : string := default "undefined" o.

(** ** Helpers imported from ['remirror'] *)

(** Modelled from the spec: [isString] is imported from ['remirror'] and is
    not among the sources; it tells whether a value is a string. *)
Definition isString (v : option Json) : bool :=
  match v with Some (JStr _) => true | _ => false end.

(** Modelled from the spec: [isPlainObject] is imported from ['remirror']
    and is not among the sources; it tells whether a value is an object that
    is neither an array nor [null]. *)
Definition isPlainObject (v : option Json) : bool :=
  match v with Some (JObj _) => true | _ => false end.

(** Modelled from the spec: [omitUndefined] is imported from ['remirror']
    and is not among the sources; it keeps the properties whose value is not
    [undefined], in their order. *)
Definition omitUndefined (o : list (string * option string))
  : list (string * Json) :=
  omap (λ kv, (λ v, (kv.1, JStr v)) <$> kv.2) o.

(** ** The [exports] field *)

(** Add a [./] prefix to a path that needs to be seen as relative. An
    [undefined] argument is returned as it is: the callers below apply the
    function under [<$>]. *)
Definition prefixRelativePath (path : string) : string :=
  if decide (path = "") then path
  else if String.prefix "." path then path else "./" +:+ path.

(** The relative path of the browser module if there is one, the module
    path otherwise. *)
Definition getBrowserPath (pkg : PackageJson) : option string :=
  let browserPath : option Json :=
    match browser pkg with
    | Some (BrowserPath p) => Some (JStr p)
    | Some (BrowserMap m) => Obj.get ("./" +:+ propertyKey (module pkg)) m
    | None => None
    end in
  match browserPath with
  | Some (JStr p) => Some p
  | _ => module pkg
  end.

(** Add the path with its conditions to the [exports] of [packageJson]. The
    object held in [packageJson.exports] is updated in place; the final test
    of the source on [packageJson.exports] can never succeed, since the
    field holds an object by then. *)
Definition augmentExportsObject (packageJson : PackageJson)
    (filepath : string) (json : PackageJson) : PackageJson :=
  let filepath := if decide (filepath = "") then "." else filepath in
  let browserPath := getBrowserPath packageJson in
  let joined (source : option string) : option string :=
    prefixRelativePath <$> ((λ p, path.join [filepath; p]) <$> truthy source) in
  let field : list (string * option string) :=
    [ ("import", joined (module json));
      ("require", joined (main json));
      ("browser", joined browserPath);
      ("types", joined (types json)) ] in
  let field := Obj.set "default" (mjoin (Obj.get "import" field)) field in
  let exportsObject : list (string * Json) :=
    match exports packageJson with
    | Some (JObj o) => o
    | _ => []
    end in
  let exportsObject :=
    Obj.set filepath (JObj (omitUndefined field)) exportsObject in
  let exportsObject :=
    if decide (filepath = ".") then
      Obj.set "./types/*" (JStr "./dist/declarations/src/*.d.ts")
        (Obj.set "./package.json" (JStr "./package.json") exportsObject)
    else exportsObject in
  set_exports (Some (JObj exportsObject)) packageJson.

(** [sortKeys(object)] of the [sort-keys] package: the same properties, in
    the order of their keys. *)
Definition key_le {V} (a b : string * V) : Prop := String.le a.1 b.1.

#[global] Instance key_le_dec {V} : RelDecision (@key_le V).
Proof. intros a b. unfold key_le. apply _. Defined.

Definition sortKeys {V} (o : list (string * V)) : list (string * V) :=
  merge_sort key_le o.

(** ** The script's effects *)

(** A thrown value: the message of the error. *)
Definition Error : Type := string.

(** The outcome of a call that reads the outside world. *)
Inductive Result (A : Type) : Type :=
  | Ok (a : A)
  | Err (e : Error).
Arguments Ok {A} a.
Arguments Err {A} e.

#[global] Instance Result_ret : MRet Result := @Ok.
#[global] Instance Result_bind : MBind Result :=
  λ A B f r, match r with Ok a => f a | Err e => Err e end.

(** An entry of the size-limit configuration (the fields the script
    sets). *)
Module SizeLimitConfig.
Record t : Type := {
  name : option string;
  limit : string;
  path : string;
  ignore : list string;
  running : bool;
  gzip : bool;
}.
End SizeLimitConfig.

(** What [writeJSON] puts in a file. *)
Inductive FileContent : Type :=
  | PackageJsonFile (p : PackageJson)
  | SizeLimitFile (sizes : list SizeLimitConfig.t)
  | JsonFile (v : Json).

Inductive LogEntry : Type :=
  | Info (msg : string)
  | Debug (msg : string)
  | LoggedError (msg : string)
  | Fatal (msg : string).

(** The mutable state of a run: the files written so far, oldest first, the
    module-level list [filesToPrettify], the log, and the arguments of the
    calls of [formatFiles]. *)
Record State : Type := {
  written : list (string * FileContent);
  filesToPrettify : list string;
  logs : list LogEntry;
  formatted : list string;
}.

(** How a computation ends: with a value, with a thrown error, or with
    [process.exit(code)]. *)
Inductive Completion (A : Type) : Type :=
  | Normal (a : A)
  | Throw (e : Error)
  | Exit (code : Z).
Arguments Normal {A} a.
Arguments Throw {A} e.
Arguments Exit {A} code.

Definition M (A : Type) : Type := State → Completion A * State.

#[global] Instance M_ret : MRet M := λ A a s, (Normal a, s).
#[global] Instance M_bind : MBind M :=
  λ A B f m s,
    match m s with
    | (Normal a, s') => f a s'
    | (Throw e, s') => (Throw e, s')
    | (Exit code, s') => (Exit code, s')
    end.

Definition throw {A} (e : Error) : M A := λ s, (Throw e, s).
Definition process_exit {A} (code : Z) : M A := λ s, (Exit code, s).

(** [try { body } catch (e) { handler(e) }]; [process.exit] is not caught. *)
Definition try_catch {A} (body : M A) (handler : Error → M A) : M A :=
  λ s,
    match body s with
    | (Throw e, s') => handler e s'
    | done => done
    end.

(** A call that reads the outside world and may throw. *)
Definition await {A} (r : Result A) : M A :=
  match r with
  | Ok a => mret a
  | Err e => throw e
  end.

(** [await Promise.all(tasks)] for tasks that have all been started: every
    task runs, also after another one has failed; the first error is the one
    thrown. [process.exit] in a task ends everything. *)
Fixpoint promise_all (tasks : list (M unit)) : M unit :=
  match tasks with
  | [] => mret ()
  | task :: rest =>
      λ s,
        match task s with
        | (Normal _, s') => promise_all rest s'
        | (Throw e, s') =>
            match promise_all rest s' with
            | (Exit code, s'') => (Exit code, s'')
            | (_, s'') => (Throw e, s'')
            end
        | (Exit code, s') => (Exit code, s')
        end
  end.

Definition get_state : M State := λ s, (Normal s, s).


(** Modelled from the spec: [log] is imported from [./helpers] and is not
    among the sources; its methods surface a message, which is recorded
    here with its level. *)
Definition log (entry : LogEntry) : M unit :=
  λ s, (Normal (),
        {| written := written s; filesToPrettify := filesToPrettify s;
           logs := logs s ++ [entry]; formatted := formatted s |}).

(** [filesToPrettify.push(file)]. *)
Definition prettify_later (file : string) : M unit :=
  λ s, (Normal (),
        {| written := written s;
           filesToPrettify := filesToPrettify s ++ [file];
           logs := logs s; formatted := formatted s |}).

Definition record_write (file : string) (content : FileContent) : M unit :=
  λ s, (Normal (),
        {| written := written s ++ [(file, content)];
           filesToPrettify := filesToPrettify s;
           logs := logs s; formatted := formatted s |}).

Definition record_format (files : string) : M unit :=
  λ s, (Normal (),
        {| written := written s; filesToPrettify := filesToPrettify s;
           logs := logs s; formatted := formatted s ++ [files] |}).

(** The files on disk after the writes of a run. *)
Definition disk_after (init : gmap string FileContent)
    (writes : list (string * FileContent)) : gmap string FileContent :=
  foldl (λ d w, <[w.1 := w.2]> d) init writes.

(** The command line flags. *)
Module Cli.
Record Args : Type := {
  size : bool;
  tsExperimentalReferences : bool;
  tsPackages : bool;
  exports : bool;
  check : bool;
  force : bool;
}.
End Cli.

(** What the event loop delivers while the package tasks of
    [generatePackageTsConfigs] are in flight; [i] is the position of a task
    among the running ones, [j] the position of a file among those the
    task is still writing. *)
Inductive Event : Type :=
  | Resolved (i : nat)
  | FileWritten (i j : nat)
  | TaskDone (i : nat).

(** The world a run of the script sees, and the imports of the script that
    are not among the sources ([./helpers], ['remirror'], [os], [globby]).
    Calls that touch the file system may fail. *)
Record Env : Type := {
  cliArgs : Cli.Args;
  (** [process.cwd()] *)
  cwd : string;
  (** [baseDir()], the root of the repository *)
  root : string;
  (** [getAllDependencies({ excludeSupport })] *)
  getAllDependencies : bool → Result (list Package);
  (** [getTypedPackagesWithPath()] *)
  getTypedPackagesWithPath : Result (list (string * string));
  (** [getRelativePathFromJson(pkg)] *)
  getRelativePathFromJson : Package → string;
  (** [globby('**/package.json', { cwd: location, ... })] *)
  globby : string → Result (list string);
  (** [require(file)] *)
  require : string → Result PackageJson;
  (** [readdir(directory)]; the listing of a directory is the same
      throughout a run: the script only adds [tsconfig.json] files and
      [src] folders, which are not among the folders it looks for *)
  readdir : string → Result (list string);
  (** [os.cpus().length] *)
  cpus : nat;
  (** [deepMerge(...objects)], when the call does not throw *)
  deepMerge : list Json → Json;
  (** the error, if any, that [deepMerge(...objects)] throws *)
  deepMerge_error : list Json → option Error;
  (** the error, if any, with which [writeJSON] fails for a file *)
  writeJSON_error : string → option Error;
  (** the error, if any, with which [formatFiles] fails *)
  formatFiles_error : string → option Error;
  (** [a.localeCompare(b)] *)
  localeCompare : string → string → Z;
  (** the order in which the event loop completes the package tasks *)
  timing : list Event;
}.

(** Modelled from the spec: [baseDir] is imported from [./helpers] and is
    not among the sources; [baseDir(...parts)] is the path made of the parts
    below the root of the repository. *)
Definition baseDir (env : Env) (parts : list string) : string :=
  path.join (root env :: parts).

(** [writeJSON(file, content)] of the [write-json-file] package: the file
    is written, or the call fails. *)
Definition writeJSON (env : Env) (file : string) (content : FileContent)
  : M unit :=
  match writeJSON_error env file with
  | Some e => throw e
  | None => record_write file content
  end.

(** Modelled from the spec: [formatFiles] is imported from [./helpers] and
    is not among the sources; it formats the files it is given, or
    fails. *)
Definition formatFiles (env : Env) (files : string) : M unit :=
  match formatFiles_error env files with
  | Some e => throw e
  | None => record_format files
  end.

(** The absolute paths the generated files are written to. *)
Module paths.
Definition sizeLimit (env : Env) : string :=
  baseDir env ["support"; "root"; ".size-limit.json"].
Definition mainTsconfig (env : Env) : string :=
  baseDir env ["tsconfig.json"].
Definition baseTsconfig (env : Env) : string :=
  baseDir env ["support"; "tsconfig.base.json"].
Definition rootTsconfig (env : Env) : string :=
  baseDir env ["support"; "root"; "tsconfig.json"].
End paths.

(** ** [generateExports] *)

(** The loop over the sub-packages of one package: each [package.json]
    found below [location] adds its entry to the exports of
    [packageJson]. *)
Fixpoint augmentSubPackages (env : Env) (location : string)
    (subPackages : list string) (packageJson : PackageJson)
  : Result PackageJson :=
  match subPackages with
  | [] => mret packageJson
  | subPackage :: rest =>
      subPackageJson ← require env subPackage;
      let relativePath :=
        prefixRelativePath
          (path.relative (cwd env) location (path.dirname subPackage)) in
      augmentSubPackages env location rest
        (augmentExportsObject packageJson relativePath subPackageJson)
  end.

(** The object held in [packageJson.exports]. *)
Definition exportsObjectOf (packageJson : PackageJson)
  : list (string * Json) :=
  match exports packageJson with
  | Some (JObj o) => o
  | _ => []
  end.

(** The [package.json] generated for one package: its exports reset,
    augmented by every sub-package, and sorted by key. *)
Definition generatePackageExports (env : Env) (pkg : Package)
  : Result PackageJson :=
  let packageJson := set_exports (Some (JObj [])) pkg in
  subPackages ← globby env (location pkg);
  packageJson ← augmentSubPackages env (location pkg) subPackages packageJson;
  mret (set_exports (Some (JObj (sortKeys (exportsObjectOf packageJson))))
          packageJson).

(** The packages the generator of exports handles: those with a [main]
    field. *)
Definition exportable (packages : list Package) : list Package :=
  filter (λ pkg : Package, is_Some (truthy (main pkg))) packages.

(** What the loop over the packages accumulates: the stored and the
    generated exports of each package, pretty-printed, and the files to
    update. *)
Record Collected : Type := {
  actual : list (string * option string);
  expected : list (string * option string);
  files : list (string * PackageJson);
}.

Fixpoint collectExports (env : Env) (packages : list Package)
    (acc : Collected) : Result Collected :=
  match packages with
  | [] => mret acc
  | pkg :: rest =>
      match truthy (main pkg) with
      | None => collectExports env rest acc
      | Some _ =>
          let name := propertyKey (name pkg) in
          let actual :=
            Obj.set name (Some (default "" (JSON.stringify (exports pkg))))
              (actual acc) in
          packageJson ← generatePackageExports env pkg;
          collectExports env rest
            {| actual := actual;
               expected :=
                 Obj.set name (JSON.stringify (exports packageJson))
                   (expected acc);
               files :=
                 files acc
                 ++ [(path.join [location pkg; "package.json"], packageJson)]
            |}
      end
  end.

(** Modelled from the spec: [compareOutput] is imported from [./helpers] and
    is not among the sources. The generated output is valid when it is equal
    to the stored one, property by property; otherwise an error is thrown. *)
Definition sameOutput (actual expected : list (string * option string))
  : Prop :=
  Forall (λ k, Obj.get k actual = Obj.get k expected)
    (Obj.keys actual ++ Obj.keys expected).

#[global] Instance sameOutput_dec actual expected :
  Decision (sameOutput actual expected).
Proof. unfold sameOutput. apply _. Defined.

Definition compareOutput (actual expected : list (string * option string))
  : M unit :=
  if decide (sameOutput actual expected) then mret ()
  else throw "The generated output does not match the stored output".

(** How the [try] block of [generateExports] is left: by its [return], or by
    falling through with the error caught, if any. *)
Inductive Flow : Type :=
  | Return
  | Continue (error : option Error).

Definition generateExports (env : Env) : M unit :=
  log (Info "Running script for package.json exports field");;
  packages ← await (getAllDependencies env true);
  collected ← await (collectExports env packages
                       {| actual := []; expected := []; files := [] |});
  flow ← try_catch
    (log (Info "Checking the generated exports");;
     compareOutput (actual collected) (expected collected);;
     log (Info "The generated exports are valid for all packages.");;
     if Cli.force (cliArgs env) then
       log (Info "Forcing update: `--force` flag applied.");;
       mret (Continue None)
     else mret Return)
    (λ error_, log (LoggedError error_);; mret (Continue (Some error_)));
  match flow with
  | Return => mret ()
  | Continue error =>
      if Cli.check (cliArgs env) && bool_decide (is_Some error)
      then process_exit 1
      else if Cli.check (cliArgs env) then mret ()
      else
        log (Info "Writing updates to file system.");;
        promise_all
          (map (λ file,
                  prettify_later (path.relative (cwd env) (cwd env) file.1);;
                  writeJSON env file.1 (PackageJsonFile file.2))
               (files collected))
  end.

(** ** [generateSizeLimitConfig] *)

(** The names to leave out of the size of a package: its peer dependencies
    and its internal dependencies. *)
Definition ignoredNames (pkg : PackageJson) : list string :=
  Obj.keys (default [] (peerDependencies pkg))
  ++ filter (λ name, String.prefix "@remirror/" name = true)
       (dependencyNames pkg).

(** The entry of one package, if it sets a limit and has an entry file. *)
Definition sizeLimitOf (env : Env) (pkg : Package)
  : option SizeLimitConfig.t :=
  limit ← truthy (remirror pkg ≫= sizeLimit);
  pathToEntryFile ← truthy (getBrowserPath pkg);
  let pathToPackage := getRelativePathFromJson env pkg in
  Some {| SizeLimitConfig.name := name pkg;
          SizeLimitConfig.limit := limit;
          SizeLimitConfig.path := path.join [pathToPackage; pathToEntryFile];
          SizeLimitConfig.ignore := ignoredNames pkg;
          SizeLimitConfig.running := false;
          SizeLimitConfig.gzip := true |}.

Fixpoint collectSizes (env : Env) (packages : list Package)
    (sizes : list SizeLimitConfig.t) : list SizeLimitConfig.t :=
  match packages with
  | [] => sizes
  | pkg :: rest =>
      match sizeLimitOf env pkg with
      | None => collectSizes env rest sizes
      | Some entry => collectSizes env rest (sizes ++ [entry])
      end
  end.

Definition generateSizeLimitConfig (env : Env) : M unit :=
  log (Info "Generating size-limit.json config file");;
  packages ← await (getAllDependencies env false);
  writeJSON env (paths.sizeLimit env)
    (SizeLimitFile (collectSizes env packages []));;
  prettify_later (paths.sizeLimit env).

(** ** [generateMainTsConfig] *)

(** [{ path }], an entry of a [references] list. *)
Definition reference (p : string) : Json := JObj [("path", JStr p)].

(** Store the name used for all tsconfig files. *)
Definition tsconfigFileName : string := "tsconfig.json".

(** Packages which are not referenced in the main tsconfig. *)
Definition excludedPackageNames : list string := ["@remirror/support"].

Definition baseMainTsconfig_references : list Json :=
  [ reference "test/tsconfig.json";
    reference "support/storybook/tsconfig.json";
    reference "examples/with-next/tsconfig.json";
    reference "support/tsconfig.all.json" ].

Fixpoint mainReferences (env : Env) (packages : list Package)
    (references : list Json) : list Json :=
  match packages with
  | [] => references
  | pkg :: rest =>
      if decide (name pkg ∈ (Some <$> excludedPackageNames))
      then mainReferences env rest references
      else
        mainReferences env rest
          (references
           ++ [reference
                 (path.join [getRelativePathFromJson env pkg;
                             tsconfigFileName])])
  end.

Definition generateMainTsConfig (env : Env) : M unit :=
  log (Info "Generating tsconfig.json reference file for the project root");;
  packages ← await (getAllDependencies env false);
  writeJSON env (paths.mainTsconfig env)
    (JsonFile
       (JObj
          [ ("__AUTO_GENERATED__",
             JStr "To update run: `pnpm generate:ts:experimental`");
            ("files", JArr []);
            ("references",
             JArr (mainReferences env packages baseMainTsconfig_references))
          ]));;
  prettify_later (paths.mainTsconfig env).

(** ** [resolveTsConfigMeta] *)

Definition bools (fields : list (string * bool)) : list (string * Json) :=
  prod_map id JBool <$> fields.

Definition strings (xs : list string) : Json := JArr (JStr <$> xs).

Definition DEFAULT_TSCONFIG_META : Json :=
  JObj
    [ ("src",
       JObj
         [ ("compilerOptions",
            JObj (("types", JArr [])
                  :: bools [("declaration", true); ("noEmit", true)]));
           ("include", strings ["./"]) ]);
      ("__e2e__",
       JObj
         [ ("compilerOptions",
            JObj
              (("types",
                strings
                  [ "expect-playwright/global"; "jest-playwright-preset";
                    "jest"; "jest-extended"; "snapshot-diff"; "playwright";
                    "node" ])
               :: bools [("declaration", false); ("noEmit", true);
                         ("skipLibCheck", true)]
               ++ [("importsNotUsedAsValues", JStr "remove")]));
           ("include", strings ["./"]) ]);
      ("__tests__",
       JObj
         [ ("compilerOptions",
            JObj
              (("types",
                strings
                  [ "jest"; "jest-extended"; "jest-axe";
                    "@testing-library/jest-dom"; "snapshot-diff"; "node" ])
               :: bools [("declaration", false); ("noEmit", true);
                         ("skipLibCheck", true)]
               ++ [("importsNotUsedAsValues", JStr "remove")]));
           ("include", strings ["./"]) ]);
      ("__dts__",
       JObj
         [ ("compilerOptions",
            JObj
              (bools [("declarationMap", false); ("declaration", false);
                      ("noEmit", true); ("skipLibCheck", true);
                      ("noUnusedLocals", false);
                      ("noUnusedParameters", false);
                      ("allowUnreachableCode", true);
                      ("noImplicitReturns", false)]
               ++ [("importsNotUsedAsValues", JStr "remove")]));
           ("include", strings ["./"]) ]);
      ("./",
       JObj
         [ ("compilerOptions",
            JObj (bools [("declaration", false); ("noEmit", true);
                         ("skipLibCheck", true)]));
           ("include", strings ["src"]) ]) ].

Record TsConfigFile : Type := {
  filepath : string;
  json : Json;
  shouldReference : bool;
}.

(** Add flag to indicate that this file is auto generated. *)
Definition createAutoGeneratedFlag (folderName : string)
  : list (string * Json) :=
  [ ("__AUTO_GENERATED__",
     strings
       [ "To update the configuration edit the following field.";
         "`package.json > @remirror > tsconfigs > '" +:+ folderName +:+ "'`";
         "";
         "Then run: `pnpm -w generate:ts`" ]) ].

Definition makeRelative (filepath : string) : string :=
  if String.prefix "." filepath then filepath else "./" +:+ filepath.

(** The own properties of a value that is an object; none otherwise. *)
Definition fieldsOf (v : option Json) : list (string * Json) :=
  match v with
  | Some (JObj fields) => fields
  | _ => []
  end.

(** [value ?? {}]. *)
Definition orEmptyObject (v : option Json) : Json :=
  match v with
  | None | Some JNull => JObj []
  | Some value => value
  end.

(** [{ ...target, ...source }]: each property of [source] is set on
    [target]. *)
Definition spread (target source : list (string * Json))
  : list (string * Json) :=
  foldl (λ o kv, Obj.set kv.1 kv.2 o) target source.

(** [const { [key]: _, ...rest } = object]. *)
Definition without (key : string) (o : list (string * Json))
  : list (string * Json) :=
  filter (λ kv, kv.1 ≠ key) o.

(** [folder.replace(/^\.\//, '')]. *)
Definition stripDotSlash (folder : string) : string :=
  match folder with
  | String "." (String "/" rest) => rest
  | _ => folder
  end.

Definition isFalse (v : option Json) : bool :=
  match v with Some (JBool false) => true | _ => false end.

(** The compiler options a folder inherits from [src]:
    [src !== false ? src?.compilerOptions ?? {} : {}]. *)
Definition srcCompilerOptions (src : option Json) : Json :=
  if isFalse src then JObj []
  else orEmptyObject (Obj.get "compilerOptions" (fieldsOf src)).

(** The references to the internal dependencies of a package, relative to
    the directory of the tsconfig file at [filepath]. *)
Fixpoint dependencyReferences (env : Env) (filepath : string)
    (dependencies : list (string * string)) (names : list string)
  : list Json :=
  match names with
  | [] => []
  | dependency :: rest =>
      match truthy (Obj.get dependency dependencies) with
      | None => dependencyReferences env filepath dependencies rest
      | Some dependencyPath =>
          reference
            (path.join
               [path.relative (cwd env) (path.dirname filepath)
                  (path.join [dependencyPath; "src"])])
          :: dependencyReferences env filepath dependencies rest
      end
  end.

(** Whether the [src] folder of a package is a composite project: the
    package has types, or is one of the typed packages, or has tests. *)
Definition isComposite (pkg : Package) (dependencies : list (string * string))
    (foldersInDirectory : list string) : bool :=
  bool_decide (is_Some (truthy (types pkg)))
  || bool_decide (name pkg ∈ (Some <$> Obj.keys dependencies))
  || existsb (λ folder, bool_decide (folder ∈ foldersInDirectory))
       ["__tests__"; "__dts__"].

(** The objects merged into the compiler options of the [src] folder:
    [deepMerge({}, original ?? {}, isComposite ? ... : ...)]. *)
Definition srcMerge (pkg : Package) (dependencies : list (string * string))
    (foldersInDirectory : list string) (src : option Json) : list Json :=
  let original := Obj.get "compilerOptions" (fieldsOf src) in
  [ JObj [];
    orEmptyObject original;
    if isComposite pkg dependencies foldersInDirectory
    then JObj [ ("composite", JBool true); ("noEmit", JBool false);
                ("emitDeclarationOnly", JBool true);
                ("outDir", JStr "../dist-types") ]
    else JObj (bools [("declaration", false); ("noEmit", true)]) ].

(** The objects merged into the compiler options of another folder, whose
    configuration is [config]: the options inherited from [src], then its
    own, [{}] when it has none. Own options that are [null] stay [null]:
    the default of the destructuring is for [undefined] only. *)
Definition inheritedMerge (src config : option Json) : list Json :=
  let original :=
    default (JObj []) (Obj.get "compilerOptions" (fieldsOf config)) in
  [srcCompilerOptions src; original].

(** The tsconfig file of the [src] folder of a package. *)
Definition srcTsConfig (env : Env) (pkg : Package)
    (dependencies : list (string * string))
    (foldersInDirectory : list string) (src : option Json)
    (references : list Json) : TsConfigFile :=
  let filepath := path.join [location pkg; "src"; tsconfigFileName] in
  let other := without "compilerOptions" (fieldsOf src) in
  let compilerOptions :=
    deepMerge env (srcMerge pkg dependencies foldersInDirectory src) in
  {| shouldReference := true;
     filepath := filepath;
     json :=
       JObj
         (Obj.set "references"
            (JArr
               (if decide (name pkg = Some "@remirror/support")
                then [ reference
                         (path.relative (cwd env) (path.dirname filepath)
                            (default "" (Obj.get "remirror" dependencies))) ]
                else references))
            (spread
               (createAutoGeneratedFlag "src"
                ++ [ ("extends",
                      JStr (path.relative (cwd env) (path.dirname filepath)
                              (paths.baseTsconfig env)));
                     ("compilerOptions", compilerOptions) ])
               other)) |}.

(** The tsconfig file at the root of a package. *)
Definition mainTsConfig (env : Env) (pkg : Package) (src main : option Json)
  : TsConfigFile :=
  let filepath := path.join [location pkg; tsconfigFileName] in
  let other := without "compilerOptions" (fieldsOf main) in
  let compilerOptions := deepMerge env (inheritedMerge src main) in
  {| shouldReference := false;
     filepath := filepath;
     json :=
       JObj
         (spread
            (createAutoGeneratedFlag "src"
             ++ [ ("extends",
                   JStr (makeRelative
                           (path.relative (cwd env) (path.dirname filepath)
                              (paths.baseTsconfig env))));
                  ("compilerOptions", compilerOptions) ])
            other) |}.

(** Whether the loop over the other folders passes an entry over: the
    folder is not in the directory of the package, or is switched off. *)
Definition skipped (foldersInDirectory : list string)
    (entry : string * Json) : bool :=
  negb (bool_decide (stripDotSlash entry.1 ∈ foldersInDirectory))
  || isFalse (Some entry.2).

(** The tsconfig file of another folder of a package, if the folder exists
    and is not switched off. *)
Definition folderTsConfig (env : Env) (pkg : Package)
    (dependencies : list (string * string))
    (foldersInDirectory : list string) (src : option Json)
    (references : list Json) (entry : string * Json)
  : option TsConfigFile :=
  let '(folder, config) := entry in
  if skipped foldersInDirectory (folder, config)
  then None
  else
    let filepath := path.join [location pkg; folder; tsconfigFileName] in
    let other := without "compilerOptions" (fieldsOf (Some config)) in
    let compilerOptions := deepMerge env (inheritedMerge src (Some config)) in
    let relativeSrc (name : string) : string :=
      path.relative (cwd env) (path.dirname filepath)
        (path.join [default "" (Obj.get name dependencies); "src"]) in
    let extraReferences :=
      (if decide (folder ∈ ["__tests__"; "__dts__"])
       then [reference "../src"] else [])
      ++ (if String.prefix "__" folder
          then [reference (relativeSrc "testing");
                reference (relativeSrc "remirror")]
          else []) in
    Some
      {| shouldReference := true;
         filepath := filepath;
         json :=
           JObj
             (Obj.set "references" (JArr (extraReferences ++ references))
                (spread
                   (createAutoGeneratedFlag folder
                    ++ [ ("extends",
                          JStr (path.relative (cwd env)
                                  (path.dirname filepath)
                                  (paths.baseTsconfig env)));
                         ("compilerOptions", compilerOptions) ])
                   other)) |}.

(** The configuration files of a package, from the listing of its
    directory: the part of [resolveTsConfigMeta] after [readdir]. *)
Definition tsConfigFiles (env : Env) (pkg : Package)
    (dependencies : list (string * string))
    (foldersInDirectory : list string) : list TsConfigFile :=
  let meta := remirror pkg ≫= tsconfigs in
  let mergedMeta :=
    fieldsOf
      (Some (deepMerge env [DEFAULT_TSCONFIG_META; orEmptyObject meta])) in
  let main := Obj.get "./" mergedMeta in
  let src := Obj.get "src" mergedMeta in
  let rest := without "src" (without "./" mergedMeta) in
  let references :=
    if isFalse src then []
    else
      dependencyReferences env
        (path.join [location pkg; "src"; tsconfigFileName]) dependencies
        (dependencyNames pkg) in
  (if isFalse src then []
   else [srcTsConfig env pkg dependencies foldersInDirectory src references])
  ++ (if isFalse main then [] else [mainTsConfig env pkg src main])
  ++ omap (folderTsConfig env pkg dependencies foldersInDirectory src
             references) rest.

(** The merges that follow the merge of the defaults with the
    configuration of the package, in the order in which
    [resolveTsConfigMeta] makes them: for [src], for the root of the
    package, and for each of the other folders that is not passed over. *)
Definition merges (env : Env) (pkg : Package)
    (dependencies : list (string * string))
    (foldersInDirectory : list string) : list (list Json) :=
  let meta := remirror pkg ≫= tsconfigs in
  let mergedMeta :=
    fieldsOf
      (Some (deepMerge env [DEFAULT_TSCONFIG_META; orEmptyObject meta])) in
  let main := Obj.get "./" mergedMeta in
  let src := Obj.get "src" mergedMeta in
  let rest := without "src" (without "./" mergedMeta) in
  (if isFalse src then []
   else [srcMerge pkg dependencies foldersInDirectory src])
  ++ (if isFalse main then [] else [inheritedMerge src main])
  ++ ((λ entry : string * Json, inheritedMerge src (Some entry.2))
      <$> filter (λ entry, skipped foldersInDirectory entry = false) rest).

(** The error of the first merge that throws, if any. *)
Definition mergeError (env : Env) (calls : list (list Json))
  : option Error :=
  head (omap (deepMerge_error env) calls).

(** Resolve the metadata from the tsconfig file. The directory is read
    first; then the merges are made, and the first one that throws ends the
    resolution. *)
Definition resolveTsConfigMeta (env : Env) (pkg : Package)
    (dependencies : list (string * string)) : Result (list TsConfigFile) :=
  if isFalse (remirror pkg ≫= tsconfigs) then mret []
  else
    foldersInDirectory ← readdir env (location pkg);
    match
      mergeError env
        ([DEFAULT_TSCONFIG_META; orEmptyObject (remirror pkg ≫= tsconfigs)]
         :: merges env pkg dependencies foldersInDirectory)
    with
    | Some e => Err e
    | None => mret (tsConfigFiles env pkg dependencies foldersInDirectory)
    end.

(** ** [generatePackageTsConfigs] *)

(** Where a started package task stands: waiting for
    [resolveTsConfigMeta], or waiting for the files in [pending] to be
    written, [files] being all the files of the package. *)
Inductive Phase : Type :=
  | Resolving
  | Writing (pending files : list TsConfigFile).

(** The tasks in flight. [queue] and [activeCount] are the state of the
    limiter made by [pLimit]; [references] is the array the tasks push to;
    [rejected] is the error of the first task that failed, which rejects
    [Promise.all(promises)]. *)
Record Pool : Type := {
  queue : list Package;
  activeCount : nat;
  running : list (Package * Phase);
  references : list string;
  state : State;
  rejected : option Error;
}.

Definition set_state (f : State → State) (p : Pool) : Pool :=
  {| queue := queue p; activeCount := activeCount p; running := running p;
     references := references p; state := f (state p);
     rejected := rejected p |}.

Definition set_running (r : list (Package * Phase)) (p : Pool) : Pool :=
  {| queue := queue p; activeCount := activeCount p; running := r;
     references := references p; state := state p; rejected := rejected p |}.

Definition push_references (refs : list string) (p : Pool) : Pool :=
  {| queue := queue p; activeCount := activeCount p; running := running p;
     references := references p ++ refs; state := state p;
     rejected := rejected p |}.

Definition reject (e : Error) (p : Pool) : Pool :=
  {| queue := queue p; activeCount := activeCount p; running := running p;
     references := references p; state := state p;
     rejected := Some (default e (rejected p)) |}.

(** The limiter takes the next task from its queue and runs it. *)
Definition run_next (p : Pool) : Pool :=
  match queue p with
  | [] => p
  | pkg :: rest =>
      {| queue := rest; activeCount := S (activeCount p);
         running := running p ++ [(pkg, Resolving)];
         references := references p; state := state p;
         rejected := rejected p |}
  end.

(** The check the limiter makes after a task has been enqueued. *)
Definition enqueued (concurrency : nat) (p : Pool) : Pool :=
  if decide (activeCount p < concurrency)%nat then run_next p else p.

(** [next()] of the limiter, called when the task at position [i] has
    settled. *)
Definition settle (i : nat) (p : Pool) : Pool :=
  run_next
    {| queue := queue p; activeCount := pred (activeCount p);
       running := delete i (running p);
       references := references p; state := state p;
       rejected := rejected p |}.

(** The references a package task pushes: the directories of its files
    that are to be referenced, relative to the root of the repository. *)
Definition taskReferences (env : Env) (tsconfigFiles : list TsConfigFile)
  : list string :=
  (λ tsconfig,
     path.relative (cwd env) (baseDir env []) (path.dirname (filepath tsconfig)))
  <$> filter (λ tsconfig, shouldReference tsconfig = true) tsconfigFiles.

(** One event delivered to the tasks. An event that names no task or file
    in the right phase changes nothing, and nothing happens any more once a
    task has failed: the script is on its way out. *)
Definition deliver (env : Env) (dependencies : list (string * string))
    (event : Event) (p : Pool) : Pool :=
  if decide (is_Some (rejected p)) then p
  else
    match event with
    | Resolved i =>
        match running p !! i with
        | Some (pkg, Resolving) =>
            match resolveTsConfigMeta env pkg dependencies with
            | Ok tsconfigFiles =>
                push_references (taskReferences env tsconfigFiles)
                  (set_running
                     (<[i := (pkg, Writing tsconfigFiles tsconfigFiles)]>
                        (running p)) p)
            | Err e => settle i (reject e p)
            end
        | _ => p
        end
    | FileWritten i j =>
        match running p !! i with
        | Some (pkg, Writing pending tsconfigFiles) =>
            match pending !! j with
            | Some tsconfig =>
                match writeJSON_error env (filepath tsconfig) with
                | None =>
                    set_state
                      (λ s, (record_write (filepath tsconfig)
                               (JsonFile (json tsconfig)) s).2)
                      (set_running
                         (<[i := (pkg, Writing (delete j pending)
                                         tsconfigFiles)]> (running p)) p)
                | Some e => settle i (reject e p)
                end
            | None => p
            end
        | _ => p
        end
    | TaskDone i =>
        match running p !! i with
        | Some (pkg, Writing [] tsconfigFiles) =>
            settle i
              (set_state
                 (λ s, (prettify_later
                          (String.concat " " (filepath <$> tsconfigFiles))
                          s).2) p)
        | _ => p
        end
    end.

(** The event that lets the first running task take its next step. *)
Definition nextEvent (p : Pool) : option Event :=
  match running p with
  | (_, Resolving) :: _ => Some (Resolved 0)
  | (_, Writing [] _) :: _ => Some (TaskDone 0)
  | (_, Writing (_ :: _) _) :: _ => Some (FileWritten 0 0)
  | [] => None
  end.

(** Let the tasks run to their end, for at most [fuel] events. *)
Fixpoint drain (env : Env) (dependencies : list (string * string))
    (fuel : nat) (p : Pool) : Pool :=
  match fuel with
  | O => p
  | S fuel' =>
      match nextEvent p with
      | Some event =>
          drain env dependencies fuel' (deliver env dependencies event p)
      | None => p
      end
  end.

(** The events a pool can still take before all its tasks have settled:
    for a task, one to resolve, one for each file, and one to finish. *)
Definition workOfPackage (env : Env) (dependencies : list (string * string))
    (pkg : Package) : nat :=
  match resolveTsConfigMeta env pkg dependencies with
  | Ok tsconfigFiles => 2 + length tsconfigFiles
  | Err _ => 1
  end.

Definition workOfTask (env : Env) (dependencies : list (string * string))
    (task : Package * Phase) : nat :=
  match task.2 with
  | Resolving => workOfPackage env dependencies task.1
  | Writing pending _ => 1 + length pending
  end.

Definition work (env : Env) (dependencies : list (string * string))
    (p : Pool) : nat :=
  sum_list (workOfTask env dependencies <$> running p)
  + sum_list (workOfPackage env dependencies <$> queue p).

(** The pool after the loop that hands every package to the limiter, and
    after the check the limiter makes for each of them. *)
Definition startPool (concurrency : nat) (packages : list Package)
    (s : State) : Pool :=
  Nat.iter (length packages) (enqueued concurrency)
    {| queue := packages; activeCount := 0; running := []; references := [];
       state := s; rejected := None |}.

(** The pool once the events of [events] have been delivered. *)
Definition runPool (env : Env) (dependencies : list (string * string))
    (events : list Event) (p : Pool) : Pool :=
  foldl (λ p event, deliver env dependencies event p) p events.

(** [references.sort((a, b) => a.path.localeCompare(b.path))]: a stable
    sort. *)
Fixpoint insertSorted (compare : string → string → Z) (x : string)
    (sorted : list string) : list string :=
  match sorted with
  | [] => [x]
  | y :: rest =>
      if decide (compare x y ≤ 0) then x :: sorted
      else y :: insertSorted compare x rest
  end.

Definition sortReferences (compare : string → string → Z)
    (references : list string) : list string :=
  foldr (insertSorted compare) [] references.

(** The content of the root tsconfig file. *)
Definition rootTsconfigJson (references : list string) : Json :=
  JObj [ ("include", JArr []); ("files", JArr []);
         ("references", JArr (reference <$> references)) ].

(** The pool at the end of [await Promise.all(promises)] when the event
    loop delivers [events] first. *)
Definition finalPool (env : Env) (dependencies : list (string * string))
    (packages : list Package) (events : list Event) (s : State) : Pool :=
  let p := runPool env dependencies events
             (startPool (cpus env) packages s) in
  drain env dependencies (work env dependencies p) p.

(** [generatePackageTsConfigs] when the event loop delivers [events]. *)
Definition generatePackageTsConfigsAt (env : Env) (events : list Event)
  : M unit :=
  log (Info "Generating tsconfig.json files for all packages");;
  packages ← await (getAllDependencies env false);
  dependencies ← await (getTypedPackagesWithPath env);
  if decide (cpus env = 0%nat)
  then throw "Expected `concurrency` to be a number from 1 and up"
  else
    λ s,
      let p := finalPool env dependencies packages events s in
      match rejected p with
      | Some e => (Throw e, state p)
      | None =>
          (writeJSON env (paths.rootTsconfig env)
             (JsonFile
                (rootTsconfigJson
                   (sortReferences (localeCompare env) (references p))));;
           prettify_later (paths.rootTsconfig env)) (state p)
      end.

(** Generate a tsconfig for every package. *)
Definition generatePackageTsConfigs (env : Env) : M unit :=
  generatePackageTsConfigsAt env (timing env).

(** *** What the package tasks have left to do *)

(** The files of a package. *)
Definition filesOfPackage (env : Env) (dependencies : list (string * string))
    (pkg : Package) : list TsConfigFile :=
  match resolveTsConfigMeta env pkg dependencies with
  | Ok tsconfigFiles => tsconfigFiles
  | Err _ => []
  end.

(** The files of all the packages. *)
Definition allTsConfigFiles (env : Env)
    (dependencies : list (string * string)) (packages : list Package)
  : list TsConfigFile :=
  packages ≫= filesOfPackage env dependencies.

(** The write of a file. *)
Definition writeOf (tsconfig : TsConfigFile) : string * FileContent :=
  (filepath tsconfig, JsonFile (json tsconfig)).

(** The files a started task has still to write. *)
Definition pendingFiles (env : Env) (dependencies : list (string * string))
    (task : Package * Phase) : list TsConfigFile :=
  match task.2 with
  | Resolving => filesOfPackage env dependencies task.1
  | Writing pending _ => pending
  end.

(** The references a started task has still to push. *)
Definition pendingReferences (env : Env)
    (dependencies : list (string * string)) (task : Package * Phase)
  : list string :=
  match task.2 with
  | Resolving => taskReferences env (filesOfPackage env dependencies task.1)
  | Writing _ _ => []
  end.

(** The limiter keeps its count: as many tasks run as it has counted, and
    no more than its concurrency. *)
Definition bounded (concurrency : nat) (p : Pool) : Prop :=
  activeCount p = length (running p)
  ∧ (length (running p) ≤ concurrency)%nat.

(** The order in which [sortReferences] puts two paths. *)
Definition compare_le (compare : string → string → Z) : relation string :=
  λ a b, compare a b ≤ 0.

(** A package for which nothing fails: its configuration resolves and its
    files can be written. *)
Definition succeeds (env : Env) (dependencies : list (string * string))
    (pkg : Package) : Prop :=
  ∃ tsconfigFiles,
    resolveTsConfigMeta env pkg dependencies = Ok tsconfigFiles
    ∧ Forall (λ tsconfig, writeJSON_error env (filepath tsconfig) = None)
        tsconfigFiles.

(** A started task for which nothing fails. *)
Definition taskSucceeds (env : Env) (dependencies : list (string * string))
    (task : Package * Phase) : Prop :=
  succeeds env dependencies task.1
  ∧ Forall (λ tsconfig, writeJSON_error env (filepath tsconfig) = None)
      match task.2 with
      | Resolving => []
      | Writing pending _ => pending
      end.

(** No task of the pool has failed or will fail. *)
Definition sound (env : Env) (dependencies : list (string * string))
    (p : Pool) : Prop :=
  rejected p = None
  ∧ Forall (succeeds env dependencies) (queue p)
  ∧ Forall (taskSucceeds env dependencies) (running p).

(** The limiter keeps the pool busy: a task waits in the queue only while
    as many tasks run as the concurrency allows. *)
Definition busy (concurrency : nat) (p : Pool) : Prop :=
  queue p = [] ∨ length (running p) = concurrency.

(** The references of the files of a package. *)
Definition referencesOfPackage (env : Env)
    (dependencies : list (string * string)) (pkg : Package) : list string :=
  taskReferences env (filesOfPackage env dependencies pkg).

(** Every file and every reference of the packages [all] is accounted for:
    written or pushed since the state [s0], or still to come. *)
Definition accounted (env : Env) (dependencies : list (string * string))
    (s0 : State) (all : list Package) (p : Pool) : Prop :=
  (∃ done,
     written (state p) = written s0 ++ (writeOf <$> done)
     ∧ done ++ (running p ≫= pendingFiles env dependencies)
            ++ (queue p ≫= filesOfPackage env dependencies)
       ≡ₚ allTsConfigFiles env dependencies all)
  ∧ references p
    ++ (running p ≫= pendingReferences env dependencies)
    ++ (queue p ≫= referencesOfPackage env dependencies)
    ≡ₚ all ≫= referencesOfPackage env dependencies.

(** ** [main] *)

Module Script.

(** The runner that runs when this is actioned. Every mode but
    [--ts-experimental-references] starts one generator. In that mode the
    script starts two, which the event loop interleaves, and the process
    ends at the first rejection; here the two run one after the other, each
    to its end, which is one of the orders only and keeps what the second
    generator does after the first has failed. *)
Definition main (env : Env) : M unit :=
(if Cli.size (cliArgs env) then
   promise_all [generateSizeLimitConfig env]
 else if Cli.tsExperimentalReferences (cliArgs env) then
   promise_all [generatePackageTsConfigs env; generateMainTsConfig env]
 else if Cli.tsPackages (cliArgs env) then
   promise_all [generatePackageTsConfigs env]
 else if Cli.exports (cliArgs env) then
   promise_all [generateExports env]
 else
   promise_all [generateSizeLimitConfig env]);;
s ← get_state;
if decide (filesToPrettify s = []) then mret ()
else
  log (Debug "Prettifying the updated and created files");;
  formatFiles env (String.concat " " (filesToPrettify s)).

(** Run the script and listen for any errors. *)
Definition script (env : Env) : M unit :=
try_catch (main env)
  (λ error,
     log (LoggedError
            "Something went wrong while running the playground:imports script.");;
     log (Fatal error);;
     process_exit 1).

End Script.

(** The exit code of the process: [0] when the script runs to its end, the
    argument of [process.exit] otherwise. An error that nothing catches ends
    the process with code [1]. *)
Definition exitCode {A} (c : Completion A) : Z :=
  match c with
  | Normal _ => 0
  | Throw _ => 1
  | Exit code => code
  end.

Definition initialState : State :=
  {| written := []; filesToPrettify := []; logs := []; formatted := [] |}.

(** ** The [publish] workflow *)

Module Workflow.

(** The expressions the workflow interpolates. *)
Inductive Expr : Type :=
  | EnvVar (name : string)
  | Secret (name : string)
  | RunnerOs
  | HashFiles (pattern : string)
  (** [fromJSON(steps.<id>.outputs.parsed).versions[0].version] *)
  | NewestVersion (id : string)
  (** [fromJSON(steps.<id>.outputs.parsed).versions[0].body] *)
  | NewestBody (id : string).

Inductive Piece : Type :=
  | Lit (text : string)
  | Interpolate (e : Expr).

Record Step : Type := {
  name : string;
  id : option string;
  uses : option string;
  run : option (list Piece);
  with_ : list (string * list Piece);
  env : list (string * list Piece);
  continue_on_error : bool;
}.

(** The conclusion of a workflow run. *)
Inductive Conclusion : Type :=
  | success | failure | neutral | cancelled | skipped | timed_out
  | action_required | stale.

#[global] Instance Conclusion_eq_dec : EqDecision Conclusion.
Proof. solve_decision. Defined.

(** The activity type of a [workflow_run] event. *)
Inductive Activity : Type := completed | requested | in_progress.

#[global] Instance Activity_eq_dec : EqDecision Activity.
Proof. solve_decision. Defined.

(** A [workflow_run] event: a run of [workflow] on [branch]. *)
Record WorkflowRun : Type := {
  workflow : string;
  branch : string;
  activity : Activity;
  conclusion : Conclusion;
}.

Record Trigger : Type := {
  workflows : list string;
  branches : list string;
  types : list Activity;
}.

Record Job : Type := {
  (** [if: github.event.workflow_run.conclusion == '...'] *)
  if_conclusion : Conclusion;
  timeout_minutes : nat;
  runs_on : string;
  steps : list Step;
}.

Record t : Type := {
  workflow_name : string;
  on_workflow_run : Trigger;
  global_env : list (string * string);
  npm : Job;
}.

Definition step (name : string) : Step :=
  {| name := name; id := None; uses := None; run := None; with_ := [];
     env := []; continue_on_error := false |}.

Definition parseChangelog (package id filePath : string) : Step :=
  {| name := "parse changelog for " +:+ package;
     id := Some id;
     uses := Some "ocavue/changelog-parser-action@v1";
     run := None;
     with_ := [("filePath", [Lit filePath])];
     env := [];
     continue_on_error := false |}.

Definition createRelease (package id : string) : Step :=
  {| name := "create release for " +:+ package;
     id := None;
     uses := Some "ncipollo/release-action@v1";
     run := None;
     with_ :=
       [ ("commit", [Lit "main"]);
         ("tag", [Lit (package +:+ "@"); Interpolate (NewestVersion id)]);
         ("body", [Interpolate (NewestBody id)]);
         ("token", [Interpolate (Secret "GITHUB_TOKEN")]) ];
     env := [];
     continue_on_error := true |}.

(** [.github/workflows/publish.yml]. *)
Definition publish : t :=
  {| workflow_name := "publish";
     on_workflow_run :=
       {| workflows := ["ci"]; branches := ["main"]; types := [completed] |};
     global_env := [("PNPM_CACHE_FOLDER", ".pnpm-store")];
     npm :=
       {| if_conclusion := success;
          timeout_minutes := 10;
          runs_on := "ubuntu-latest";
          steps :=
            [ {| name := "checkout code repository"; id := None;
                 uses := Some "actions/checkout@v3"; run := None;
                 with_ := [("fetch-depth", [Lit "0"])]; env := [];
                 continue_on_error := false |};
              {| name := "setup caching"; id := None;
                 uses := Some "actions/cache@v3"; run := None;
                 with_ :=
                   [ ("path", [Interpolate (EnvVar "PNPM_CACHE_FOLDER")]);
                     ("key",
                      [ Interpolate RunnerOs; Lit "-pnpm-";
                        Interpolate (HashFiles "**/pnpm-lock.yaml") ]) ];
                 env := []; continue_on_error := false |};
              {| name := "setup node.js"; id := None;
                 uses := Some "actions/setup-node@v3"; run := None;
                 with_ := [("node-version", [Lit "14"])]; env := [];
                 continue_on_error := false |};
              {| name := "install and audit"; id := None;
                 uses := Some "./support/actions/pnpm"; run := None;
                 with_ :=
                   [("cache", [Interpolate (EnvVar "PNPM_CACHE_FOLDER")])];
                 env := []; continue_on_error := false |};
              {| name := "build project"; id := None; uses := None;
                 run := Some [Lit "pnpm build"]; with_ := []; env := [];
                 continue_on_error := false |};
              {| name := "publish npm release"; id := None; uses := None;
                 run :=
                   Some
                     [ Lit ("echo " +:+ JSON.dquote
                            +:+ "//registry.npmjs.org/:_authToken=$NPM_TOKEN"
                            +:+ JSON.dquote +:+ " > $HOME/.npmrc");
                       Lit "pnpm release";
                       Lit "rm $HOME/.npmrc" ];
                 with_ := [];
                 env := [("NPM_TOKEN", [Interpolate (Secret "NPM_TOKEN")])];
                 continue_on_error := false |};
              parseChangelog "@remirror/react" "changelog_remirror_react"
                "packages/remirror__react/CHANGELOG.md";
              createRelease "@remirror/react" "changelog_remirror_react";
              parseChangelog "@remirror/pm" "changelog_remirror_pm"
                "packages/remirror__pm/CHANGELOG.md";
              createRelease "@remirror/pm" "changelog_remirror_pm";
              parseChangelog "remirror" "changelog_remirror"
                "packages/remirror/CHANGELOG.md";
              createRelease "remirror" "changelog_remirror" ] |} |}.

(** *** Running the workflow *)

(** A version section of a changelog. *)
Record Version : Type := { version : string; body : string }.

Record Release : Type := { tag : string; notes : string; commit : string }.

(** What a run of the job meets: the values of the contexts, the parsed
    changelogs (none when a changelog cannot be parsed), whether a
    release with a given tag can be created, and whether any other step
    succeeds. *)
Record World : Type := {
  secrets : string → string;
  runner_os : string;
  hashFiles : string → string;
  changelogs : string → option (list Version);
  release_succeeds : string → bool;
  step_succeeds : string → bool;
}.

(** The state of a job run: the outputs of the parse steps, the releases
    created, the names of the steps that ran, and whether a step has
    failed the job. *)
Record Progress : Type := {
  outputs : list (string * list Version);
  releases : list Release;
  ran : list string;
  failed : bool;
}.

Definition newest (id : string) (outputs : list (string * list Version))
  : option Version :=
  Obj.get id outputs ≫= head.

Definition eval (wf : t) (w : World)
    (outputs : list (string * list Version)) (e : Expr) : string :=
  match e with
  | EnvVar name => default "" (Obj.get name (global_env wf))
  | Secret name => secrets w name
  | RunnerOs => runner_os w
  | HashFiles pattern => hashFiles w pattern
  | NewestVersion id => default "" (version <$> newest id outputs)
  | NewestBody id => default "" (body <$> newest id outputs)
  end.

Definition render (wf : t) (w : World)
    (outputs : list (string * list Version)) (pieces : list Piece)
  : string :=
  String.concat ""
    ((λ piece,
        match piece with
        | Lit text => text
        | Interpolate e => eval wf w outputs e
        end) <$> pieces).

Definition input (wf : t) (w : World)
    (outputs : list (string * list Version)) (s : Step) (key : string)
  : string :=
  render wf w outputs (default [] (Obj.get key (with_ s))).

(** What a step does when it runs: [None] when it fails. *)
Definition perform (wf : t) (w : World) (s : Step) (p : Progress)
  : option Progress :=
  let ran' := ran p ++ [name s] in
  if decide (uses s = Some "ocavue/changelog-parser-action@v1") then
    parsed ← changelogs w (input wf w (outputs p) s "filePath");
    Some {| outputs :=
              match id s with
              | Some i => Obj.set i parsed (outputs p)
              | None => outputs p
              end;
            releases := releases p; ran := ran'; failed := failed p |}
  else if decide (uses s = Some "ncipollo/release-action@v1") then
    let tag := input wf w (outputs p) s "tag" in
    if release_succeeds w tag then
      Some {| outputs := outputs p;
              releases :=
                releases p
                ++ [ {| tag := tag;
                        notes := input wf w (outputs p) s "body";
                        commit := input wf w (outputs p) s "commit" |} ];
              ran := ran'; failed := failed p |}
    else None
  else if step_succeeds w (name s) then
    Some {| outputs := outputs p; releases := releases p; ran := ran';
            failed := failed p |}
  else None.

(** A step runs when no earlier step has failed the job; a step that
    fails fails the job unless it is marked [continue-on-error]. *)
Definition runStep (wf : t) (w : World) (p : Progress) (s : Step)
  : Progress :=
  if failed p then p
  else
    match perform wf w s p with
    | Some p' => p'
    | None =>
        {| outputs := outputs p; releases := releases p;
           ran := ran p ++ [name s];
           failed := negb (continue_on_error s) |}
    end.

Definition start : Progress :=
  {| outputs := []; releases := []; ran := []; failed := false |}.

Definition runSteps (wf : t) (w : World) (steps : list Step) (p : Progress)
  : Progress :=
  foldl (runStep wf w) p steps.

(** The same world with other outcomes of the release steps. *)
Definition with_release_outcomes (outcome : string → bool) (w : World)
  : World :=
  {| secrets := secrets w; runner_os := runner_os w;
     hashFiles := hashFiles w; changelogs := changelogs w;
     release_succeeds := outcome; step_succeeds := step_succeeds w |}.

(** The release made from the newest version of a parsed changelog. *)
Definition releaseOf (package : string) (parsed : list Version) : Release :=
  {| tag := (package +:+ "@") +:+ default "" (version <$> head parsed);
     notes := default "" (body <$> head parsed);
     commit := "main" |}.

(** The release a release step adds: none when the step fails. *)
Definition created (w : World) (r : Release) : list Release :=
  if release_succeeds w (tag r) then [r] else [].

(** The steps up to the publication on npm. *)
Definition publishingSteps : list string :=
  [ "checkout code repository"; "setup caching"; "setup node.js";
    "install and audit"; "build project"; "publish npm release" ].

(** The event starts the workflow. *)
Definition triggers (wf : t) (event : WorkflowRun) : Prop :=
  workflow event ∈ workflows (on_workflow_run wf)
  ∧ branch event ∈ branches (on_workflow_run wf)
  ∧ activity event ∈ types (on_workflow_run wf).

#[global] Instance triggers_dec wf event : Decision (triggers wf event).
Proof. unfold triggers. apply _. Defined.

(** The [npm] job of a workflow started by [event]: [None] when the
    workflow is not started or the job is skipped. *)
Definition runJob (wf : t) (w : World) (event : WorkflowRun)
  : option Progress :=
  if decide (triggers wf event ∧ conclusion event = if_conclusion (npm wf))
  then Some (runSteps wf w (steps (npm wf)) start)
  else None.

(** The conclusion of a job run. *)
Definition jobConclusion (p : Progress) : Conclusion :=
  if failed p then failure else success.

(** Two runs that have gone through the same steps, with the same outputs
    and the same outcome for the job. *)
Definition agree (p p' : Progress) : Prop :=
  outputs p = outputs p' ∧ ran p = ran p' ∧ failed p = failed p'.

End Workflow.

(** ** What the specification says of an export entry *)

(** The entry the specification describes for the sub-package at
    [filepath]: each condition is the path-joined field of the
    [package.json] of the sub-package itself, and [default] repeats
    [import]. *)
Definition specifiedExportField (filepath : string) (json : PackageJson)
  : list (string * Json) :=
  let joined (source : option string) : option string :=
    prefixRelativePath <$> ((λ p, path.join [filepath; p]) <$> truthy source) in
  omitUndefined
    [ ("import", joined (module json));
      ("require", joined (main json));
      ("browser", joined (getBrowserPath json));
      ("types", joined (types json));
      ("default", joined (module json)) ].

(** ** A small workspace *)

Module Example.

Definition emptyJson : PackageJson :=
  {| name := None; main := None; module := None; browser := None;
     types := None; exports := None; dependencies := None;
     peerDependencies := None; remirror := None |}.

(** The package [remirror], whose stored exports are out of date. *)
Definition remirrorJson : PackageJson :=
  {| name := Some "remirror";
     main := Some "dist/remirror.cjs.js";
     module := Some "dist/remirror.esm.js";
     browser :=
       Some (BrowserMap [ ("./dist/remirror.esm.js",
                           JStr "./dist/remirror.browser.esm.js") ]);
     types := Some "dist/remirror.cjs.d.ts";
     exports := Some (JObj [(".", JStr "./dist/remirror.esm.js")]);
     dependencies := Some [("@remirror/pm", "workspace:*");
                           ("lodash", "^4.0.0")];
     peerDependencies := Some [("react", "^18.0.0")];
     remirror :=
       Some {| sizeLimit := Some "300 KB"; tsconfigs := None |} |}.

(** Its entry point [remirror/core]. *)
Definition coreJson : PackageJson :=
  {| name := None;
     main := Some "dist/remirror-core.cjs.js";
     module := Some "dist/remirror-core.esm.js";
     browser :=
       Some (BrowserMap [ ("./dist/remirror-core.esm.js",
                           JStr "./dist/remirror-core.browser.esm.js") ]);
     types := None; exports := None; dependencies := None;
     peerDependencies := None; remirror := None |}.

(** An entry point with a [main] file only. *)
Definition domJson : PackageJson :=
  {| name := None; main := Some "dist/remirror-dom.cjs.js";
     module := None; browser := None; types := None; exports := None;
     dependencies := None; peerDependencies := None; remirror := None |}.

(** A package without a [main] field. *)
Definition supportJson : PackageJson :=
  {| name := Some "@remirror/support"; main := None; module := None;
     browser := None; types := None; exports := None;
     dependencies := None; peerDependencies := None;
     remirror := Some {| sizeLimit := None; tsconfigs := Some (JBool false) |}
  |}.

Definition pmJson : PackageJson :=
  {| name := Some "@remirror/pm"; main := Some "dist/remirror-pm.cjs.js";
     module := Some "dist/remirror-pm.esm.js"; browser := None;
     types := None; exports := None; dependencies := None;
     peerDependencies := None;
     remirror := Some {| sizeLimit := None; tsconfigs := None |} |}.

Definition remirrorPkg : Package :=
  {| location := "/repo/packages/remirror"; packageJson := remirrorJson |}.
Definition pmPkg : Package :=
  {| location := "/repo/packages/remirror__pm"; packageJson := pmJson |}.
Definition supportPkg : Package :=
  {| location := "/repo/support"; packageJson := supportJson |}.

(** [deepMerge] for the examples: the properties of the later objects
    are set on the earlier ones, objects inside objects being merged in
    the same way. *)
Fixpoint merge (target source : Json) {struct source} : Json :=
  match source with
  | JObj sourceFields =>
      JObj
        ((fix go (fields dest : list (string * Json)) {struct fields} :=
            match fields with
            | [] => dest
            | (k, v) :: rest =>
                go rest
                  (Obj.set k
                     match v, Obj.get k (fieldsOf (Some target)) with
                     | JObj _, Some targetValue => merge targetValue v
                     | _, _ => v
                     end dest)
            end) sourceFields (fieldsOf (Some target)))
  | _ => source
  end.

(** [localeCompare] for the examples, on strings of printable ASCII
    characters: the strings are compared character by character in the
    order of the root collation, in which the space and the punctuation
    come before the digits and the digits before the letters, without
    regard to case; strings that differ in case only are then compared
    by case, lower case first. So [_] comes before [/], and
    [remirror__pm] before [remirror/src]. *)
Definition collation : string :=
  " _-,;:!?.'"
  +:+ String (ascii_of_nat 34)
        "()[]{}@*/\&#%`^+<=>|~$0123456789abcdefghijklmnopqrstuvwxyz".

Definition isUpperCase (c : ascii) : bool :=
  (65 <=? nat_of_ascii c)%nat && (nat_of_ascii c <=? 90)%nat.

Fixpoint indexOf (c : ascii) (s : string) : option nat :=
  match s with
  | "" => None
  | String c' rest =>
      if decide (c = c') then Some 0%nat else S <$> indexOf c rest
  end.

(** The place of a character in the collation, whatever its case;
    the characters that [collation] does not list come last. *)
Definition primaryWeight (c : ascii) : nat :=
  let lower :=
    if isUpperCase c then ascii_of_nat (nat_of_ascii c + 32) else c in
  default (String.length collation + nat_of_ascii c)%nat
    (indexOf lower collation).

Definition caseWeight (c : ascii) : nat := if isUpperCase c then 1 else 0.

Fixpoint compareWeights (weight : ascii → nat) (a b : string) : comparison :=
  match a, b with
  | "", "" => Eq
  | "", String _ _ => Lt
  | String _ _, "" => Gt
  | String x a', String y b' =>
      match Nat.compare (weight x) (weight y) with
      | Eq => compareWeights weight a' b'
      | c => c
      end
  end.

Definition compareStrings (a b : string) : Z :=
  match
    match compareWeights primaryWeight a b with
    | Eq => compareWeights caseWeight a b
    | c => c
    end
  with
  | Lt => (-1)
  | Eq => 0
  | Gt => 1
  end.

Definition flags (exports check force : bool) : Cli.Args :=
  {| Cli.size := false; Cli.tsExperimentalReferences := false;
     Cli.tsPackages := false; Cli.exports := exports; Cli.check := check;
     Cli.force := force |}.

Definition env (args : Cli.Args) : Env :=
  {| cliArgs := args;
     cwd := "/repo";
     root := "/repo";
     getAllDependencies :=
       λ excludeSupport,
         Ok (if excludeSupport then [remirrorPkg; pmPkg]
             else [remirrorPkg; pmPkg; supportPkg]);
     getTypedPackagesWithPath :=
       Ok [("remirror", "/repo/packages/remirror")];
     getRelativePathFromJson :=
       λ pkg, path.relative "/repo" "/repo" (location pkg);
     globby :=
       λ location,
         if decide (location = "/repo/packages/remirror") then
           Ok [ "/repo/packages/remirror/core/package.json";
                "/repo/packages/remirror/dom/package.json";
                "/repo/packages/remirror/package.json" ]
         else Ok [location +:+ "/package.json"];
     require :=
       λ file,
         if decide (file = "/repo/packages/remirror/package.json")
         then Ok remirrorJson
         else if decide (file = "/repo/packages/remirror/core/package.json")
         then Ok coreJson
         else if decide (file = "/repo/packages/remirror/dom/package.json")
         then Ok domJson
         else if decide (file = "/repo/packages/remirror__pm/package.json")
         then Ok pmJson
         else Err "Cannot find module";
     readdir := λ _, Ok ["src"; "__tests__"; "package.json"];
     cpus := 2;
     deepMerge := foldl merge (JObj []);
     deepMerge_error :=
       λ objects,
         if existsb (λ object, match object with JNull => true | _ => false end)
              objects
         then Some "Cannot convert undefined or null to object"
         else None;
     writeJSON_error := λ _, None;
     formatFiles_error := λ _, None;
     localeCompare := compareStrings;
     timing := [] |}.

(** What the loop of [generateExports] collects in this workspace. *)
Definition start : Collected :=
  {| actual := []; expected := []; files := [] |}.

Definition collected : Collected :=
  match collectExports (env (flags true true false)) [remirrorPkg; pmPkg]
          start with
  | Ok c => c
  | Err _ => start
  end.

(** A run of the publish workflow in which every step succeeds, except
    that the releases whose tag [refused] accepts cannot be created. *)
Definition world (refused : string → bool) : Workflow.World :=
  {| Workflow.secrets := λ _, "secret";
     Workflow.runner_os := "Linux";
     Workflow.hashFiles := λ _, "0123";
     Workflow.changelogs :=
       λ file,
         if decide (file = "packages/remirror__react/CHANGELOG.md") then
           Some [ {| Workflow.version := "2.0.1";
                     Workflow.body := "Fix the toolbar." |};
                  {| Workflow.version := "2.0.0";
                     Workflow.body := "Major release." |} ]
         else if decide (file = "packages/remirror__pm/CHANGELOG.md") then
           Some [ {| Workflow.version := "2.0.0";
                     Workflow.body := "Major release." |} ]
         else if decide (file = "packages/remirror/CHANGELOG.md") then
           Some [ {| Workflow.version := "2.0.3";
                     Workflow.body := "Update dependencies." |} ]
         else None;
     Workflow.release_succeeds := λ tag, negb (refused tag);
     Workflow.step_succeeds := λ _, true |}.

Definition ciSucceeded : Workflow.WorkflowRun :=
  {| Workflow.workflow := "ci"; Workflow.branch := "main";
     Workflow.activity := Workflow.completed;
     Workflow.conclusion := Workflow.success |}.

End Example.

(** ** Other workspaces *)

Module Workspace.

(** The same world with other packages in the workspace. *)
Definition withPackages (packages : list Package) (env : Env) : Env :=
  {| cliArgs := cliArgs env;
     cwd := cwd env;
     root := root env;
     getAllDependencies := λ _, Ok packages;
     getTypedPackagesWithPath := getTypedPackagesWithPath env;
     getRelativePathFromJson := getRelativePathFromJson env;
     globby := globby env;
     require := require env;
     readdir := readdir env;
     cpus := cpus env;
     deepMerge := deepMerge env;
     deepMerge_error := deepMerge_error env;
     writeJSON_error := writeJSON_error env;
     formatFiles_error := formatFiles_error env;
     localeCompare := localeCompare env;
     timing := timing env |}.

(** A package as it is stored once its exports have been generated. *)
Definition upToDate (env : Env) (pkg : Package) : Package :=
  match generatePackageExports env pkg with
  | Ok packageJson =>
      {| location := location pkg; packageJson := packageJson |}
  | Err _ => pkg
  end.

(** A workspace whose only package, [@remirror/pm], has its exports up to
    date. *)
Definition current (args : Cli.Args) : Env :=
  withPackages [upToDate (Example.env args) Example.pmPkg] (Example.env args).

(** A package whose directory holds no [package.json]. *)
Definition missingPkg : Package :=
  {| location := "/repo/packages/missing"; packageJson := Example.pmJson |}.

(** A workspace in which the [package.json] of the second package cannot
    be loaded. *)
Definition broken (args : Cli.Args) : Env :=
  withPackages [Example.remirrorPkg; missingPkg] (Example.env args).

(** The same world in which the files that [fails] accepts cannot be
    written. *)
Definition withWriteErrors (fails : string → bool) (env : Env) : Env :=
  {| cliArgs := cliArgs env;
     cwd := cwd env;
     root := root env;
     getAllDependencies := getAllDependencies env;
     getTypedPackagesWithPath := getTypedPackagesWithPath env;
     getRelativePathFromJson := getRelativePathFromJson env;
     globby := globby env;
     require := require env;
     readdir := readdir env;
     cpus := cpus env;
     deepMerge := deepMerge env;
     deepMerge_error := deepMerge_error env;
     writeJSON_error :=
       λ file, if fails file then Some "EACCES: permission denied" else None;
     formatFiles_error := formatFiles_error env;
     localeCompare := localeCompare env;
     timing := timing env |}.

(** The package [remirror] with an empty [browser] field. *)
Definition emptyBrowserPkg : Package :=
  {| location := location Example.remirrorPkg;
     packageJson :=
       {| name := name Example.remirrorJson;
          main := main Example.remirrorJson;
          module := module Example.remirrorJson;
          browser := Some (BrowserPath "");
          types := types Example.remirrorJson;
          exports := exports Example.remirrorJson;
          dependencies := dependencies Example.remirrorJson;
          peerDependencies := peerDependencies Example.remirrorJson;
          remirror := remirror Example.remirrorJson |} |}.

(** The package [@remirror/pm] with a configuration for the root of the
    package whose [compilerOptions] are [null]. *)
Definition nullOptionsPkg : Package :=
  {| location := location Example.pmPkg;
     packageJson :=
       {| name := name Example.pmJson;
          main := main Example.pmJson;
          module := module Example.pmJson;
          browser := browser Example.pmJson;
          types := types Example.pmJson;
          exports := exports Example.pmJson;
          dependencies := dependencies Example.pmJson;
          peerDependencies := peerDependencies Example.pmJson;
          remirror :=
            Some
              {| sizeLimit := None;
                 tsconfigs :=
                   Some (JObj [("./", JObj [("compilerOptions", JNull)])]) |}
       |} |}.

End Workspace.

(** ** What a generator leaves to [main] *)

(** A task that does not format files, and that ends the process, if it
    does, with code 1. *)
Definition silent (task : M unit) : Prop :=
  ∀ s, formatted (task s).2 = formatted s
       ∧ ∀ code, (task s).1 = Exit code → code = 1.

(** ** Other runs of the workflow *)

(** A run of the publish workflow in which the changelogs are those of the
    example, every release can be created, and the steps whose name
    [fails] accepts fail. *)
Definition worldWhere (fails : string → bool) : Workflow.World :=
  {| Workflow.secrets := Workflow.secrets (Example.world (λ _, false));
     Workflow.runner_os := Workflow.runner_os (Example.world (λ _, false));
     Workflow.hashFiles := Workflow.hashFiles (Example.world (λ _, false));
     Workflow.changelogs := Workflow.changelogs (Example.world (λ _, false));
     Workflow.release_succeeds := λ _, true;
     Workflow.step_succeeds := λ name, negb (fails name) |}.

(** A step that only succeeds or fails, and that fails the job when it
    fails. *)
Definition plainStep (s : Workflow.Step) : Prop :=
  Workflow.uses s ≠ Some "ocavue/changelog-parser-action@v1"
  ∧ Workflow.uses s ≠ Some "ncipollo/release-action@v1"
  ∧ Workflow.continue_on_error s = false.

(** ** What the package tasks have done *)

(** The entry a package task adds to [filesToPrettify]: the paths of the
    files of the package, joined by spaces. *)
Definition listedFiles (env : Env) (dependencies : list (string * string))
    (pkg : Package) : string :=
  String.concat " " (filepath <$> filesOfPackage env dependencies pkg).

(** While no task has failed, the packages whose task has settled are
    packages for which nothing fails, their files have been listed for
    formatting since the state [s0], in the order in which the tasks have
    settled, and the files a running task has written could be written. *)
Definition progressing (env : Env) (dependencies : list (string * string))
    (s0 : State) (all : list Package) (p : Pool) : Prop :=
  rejected p = None →
  ∃ finished,
    Forall (succeeds env dependencies) finished
    ∧ filesToPrettify (state p)
      = filesToPrettify s0 ++ (listedFiles env dependencies <$> finished)
    ∧ finished ++ (running p).*1 ++ queue p ≡ₚ all
    ∧ Forall
        (λ task : Package * Phase,
           match task.2 with
           | Resolving => True
           | Writing pending tsconfigFiles =>
               resolveTsConfigMeta env task.1 dependencies = Ok tsconfigFiles
               ∧ (Forall (λ tsconfig,
                            writeJSON_error env (filepath tsconfig) = None)
                    pending →
                  Forall (λ tsconfig,
                            writeJSON_error env (filepath tsconfig) = None)
                    tsconfigFiles)
           end) (running p).

(** The files written since the state [s0] are tsconfig files of the
    packages [all], and so are the files the running tasks have still to
    write. *)
Definition confined (env : Env) (dependencies : list (string * string))
    (s0 : State) (all : list Package) (p : Pool) : Prop :=
  (∃ done,
     written (state p) = written s0 ++ (writeOf <$> done)
     ∧ done ⊆ allTsConfigFiles env dependencies all)
  ∧ Forall
      (λ task : Package * Phase,
         task.1 ∈ all
         ∧ match task.2 with
           | Resolving => True
           | Writing pending tsconfigFiles =>
               resolveTsConfigMeta env task.1 dependencies = Ok tsconfigFiles
               ∧ pending ⊆ tsconfigFiles
           end) (running p)
  ∧ queue p ⊆ all.

(** * Properties *)

(** ** Objects *)

Section obj.
Context {V : Type}.
Implicit Types (o : list (string * V)) (k : string) (v : V).

Lemma get_set_eq k v o : Obj.get k (Obj.set k v o) = Some v.
Proof.
  induction o as [|[k' v'] o IH]; simpl.
  - by rewrite decide_True.
  - destruct (decide (k = k')) as [->|Hne]; simpl.
    + by rewrite decide_True.
    + by rewrite decide_False.
Qed.

Lemma get_set_ne k k' v o :
  k ≠ k' → Obj.get k' (Obj.set k v o) = Obj.get k' o.
Proof.
  intros Hne. induction o as [|[k0 v0] o IH]; simpl.
  - by rewrite decide_False.
  - destruct (decide (k = k0)) as [->|Hk]; simpl.
    + by rewrite !decide_False.
    + destruct (decide (k' = k0)); [done | apply IH].
Qed.

Lemma get_None_keys k o : Obj.get k o = None ↔ k ∉ Obj.keys o.
Proof.
  unfold Obj.keys. induction o as [|[k' v'] o IH].
  - split; [intros _; apply not_elem_of_nil | done].
  - rewrite fmap_cons, not_elem_of_cons. cbn [Obj.get fst].
    destruct (decide (k = k')) as [->|Hne].
    + split; [done | by intros [? _]].
    + rewrite IH. tauto.
Qed.

Lemma keys_set k v o :
  Obj.keys (Obj.set k v o)
  = if decide (k ∈ Obj.keys o) then Obj.keys o else Obj.keys o ++ [k].
Proof.
  unfold Obj.keys. induction o as [|[k' v'] o IH].
  - destruct (decide (k ∈ _)) as [H|H]; [by apply elem_of_nil in H | done].
  - cbn [Obj.set]. destruct (decide (k = k')) as [->|Hne].
    + clear IH. destruct (decide (k' ∈ _)) as [H|H]; [reflexivity |].
      exfalso. apply H. rewrite fmap_cons. left.
    + rewrite !fmap_cons, IH. cbn [fst].
      destruct (decide (k ∈ o.*1)) as [Hin|Hout],
        (decide (k ∈ k' :: o.*1)) as [Hin'|Hout']; try done.
      * exfalso. apply Hout'. by right.
      * apply elem_of_cons in Hin' as [?|?]; done.
Qed.

Lemma NoDup_keys_set k v o :
  NoDup (Obj.keys o) → NoDup (Obj.keys (Obj.set k v o)).
Proof.
  intros Hnd. rewrite keys_set. case_decide; [done |].
  apply NoDup_app. split_and!; [done | | apply NoDup_singleton].
  intros x Hx ->%list_elem_of_singleton. done.
Qed.

(** The properties of an object do not depend on the order in which its
    distinct keys are listed. *)
Lemma get_Permutation k o o' :
  NoDup (Obj.keys o) → o ≡ₚ o' → Obj.get k o = Obj.get k o'.
Proof.
  unfold Obj.keys. intros Hnd Hperm.
  induction Hperm as [|[k0 v0] o o' Hperm IH
    |[k0 v0] [k1 v1] o|o o' o'' H1 IH1 H2 IH2]; simpl in *.
  - done.
  - apply NoDup_cons in Hnd as [_ Hnd]. destruct (decide (k = k0)); auto.
  - apply NoDup_cons in Hnd as [Hout _]. rewrite not_elem_of_cons in Hout.
    destruct (decide (k = k1)) as [E1|], (decide (k = k0)) as [E0|];
      try done. destruct Hout as [Hne _]. congruence.
  - rewrite IH1 by done. apply IH2. by rewrite <- H1.
Qed.

End obj.

(** ** The exports of a package *)

#[global] Instance key_le_trans {V} : Transitive (@key_le V).
Proof. intros a b c. unfold key_le. apply transitivity. Qed.

#[global] Instance key_le_total {V} : Total (@key_le V).
Proof. intros a b. unfold key_le. apply total, _. Qed.

(** [sortKeys] keeps the properties of an object. *)
Lemma sortKeys_Permutation {V} (o : list (string * V)) : sortKeys o ≡ₚ o.
Proof. apply merge_sort_Permutation. Qed.

(** The keys of a sorted object are in order. *)
Lemma sortKeys_sorted {V} (o : list (string * V)) :
  StronglySorted String.le (Obj.keys (sortKeys o)).
Proof.
  unfold Obj.keys, sortKeys.
  apply (StronglySorted_fmap fst key_le String.le); [by intros ?? |].
  apply StronglySorted_merge_sort; apply _.
Qed.

Lemma get_sortKeys {V} k (o : list (string * V)) :
  NoDup (Obj.keys o) → Obj.get k (sortKeys o) = Obj.get k o.
Proof.
  intros Hnd. symmetry. apply get_Permutation; [done |].
  symmetry. apply sortKeys_Permutation.
Qed.

Lemma exportsObjectOf_set_exports o p :
  exportsObjectOf (set_exports (Some (JObj o)) p) = o.
Proof. done. Qed.

(** The entry [augmentExportsObject] stores for a path: [import],
    [require] and [types] come from the [package.json] of the sub-package,
    [browser] from the browser path of the package itself, and [default]
    repeats [import]; a condition without a value is left out. *)
Lemma augmentExportsObject_entry packageJson filepath json :
  let key := if decide (filepath = "") then "." else filepath in
  let joined (source : option string) : option string :=
    prefixRelativePath <$> ((λ p, path.join [key; p]) <$> truthy source) in
  Obj.get key (exportsObjectOf (augmentExportsObject packageJson filepath json))
  = Some (JObj (omitUndefined
                  [ ("import", joined (module json));
                    ("require", joined (main json));
                    ("browser", joined (getBrowserPath packageJson));
                    ("types", joined (types json));
                    ("default", joined (module json)) ])).
Proof.
  intros key joined. unfold augmentExportsObject.
  rewrite exportsObjectOf_set_exports. fold key. fold joined.
  change (Obj.set "default" _ _) with
    [ ("import", joined (module json)); ("require", joined (main json));
      ("browser", joined (getBrowserPath packageJson));
      ("types", joined (types json)); ("default", joined (module json)) ].
  destruct (decide (key = ".")) as [Hkey|Hkey].
  - rewrite !get_set_ne by (rewrite Hkey; done). apply get_set_eq.
  - apply get_set_eq.
Qed.

(** In every entry, [default] is present exactly when [import] is, with the
    same value. *)
Lemma exports_entry_default_is_import packageJson filepath json :
  let key := if decide (filepath = "") then "." else filepath in
  ∃ entry,
    Obj.get key
      (exportsObjectOf (augmentExportsObject packageJson filepath json))
    = Some (JObj entry)
    ∧ Obj.get "default" entry = Obj.get "import" entry.
Proof.
  intros key.
  pose proof (augmentExportsObject_entry packageJson filepath json) as H.
  cbv zeta in H. fold key in H.
  match type of H with _ = Some (JObj ?e) => exists e end.
  split; [exact H |].
  destruct (truthy (module json)), (truthy (main json)),
    (truthy (getBrowserPath packageJson)), (truthy (types json));
    reflexivity.
Qed.

(** The conditions [import], [require] and [types] are left out of an entry
    when the [package.json] of the sub-package has no [module], [main] or
    [types] field, and [browser] is left out when the package itself has no
    browser path. *)
Lemma exports_entry_omits_absent_fields packageJson filepath json :
  let key := if decide (filepath = "") then "." else filepath in
  ∃ entry,
    Obj.get key
      (exportsObjectOf (augmentExportsObject packageJson filepath json))
    = Some (JObj entry)
    ∧ (module json = None → Obj.get "import" entry = None)
    ∧ (main json = None → Obj.get "require" entry = None)
    ∧ (types json = None → Obj.get "types" entry = None)
    ∧ (getBrowserPath packageJson = None → Obj.get "browser" entry = None).
Proof.
  intros key.
  pose proof (augmentExportsObject_entry packageJson filepath json) as H.
  cbv zeta in H. fold key in H.
  match type of H with _ = Some (JObj ?e) => exists e end.
  split; [exact H |].
  split_and!; intros ->; simpl;
    repeat match goal with
           | |- context [truthy ?x] => destruct (truthy x)
           end; reflexivity.
Qed.

(** The entries of the root path come with the two fixed mappings. *)
Lemma exports_root_mappings packageJson filepath json :
  filepath = "" ∨ filepath = "." →
  let o := exportsObjectOf (augmentExportsObject packageJson filepath json) in
  Obj.get "./package.json" o = Some (JStr "./package.json")
  ∧ Obj.get "./types/*" o = Some (JStr "./dist/declarations/src/*.d.ts").
Proof.
  intros Hroot o. subst o. unfold augmentExportsObject.
  rewrite exportsObjectOf_set_exports.
  assert ((if decide (filepath = "") then "." else filepath) = ".") as ->
    by (destruct Hroot as [-> | ->]; reflexivity).
  rewrite decide_True by done. split.
  - rewrite get_set_ne by done. apply get_set_eq.
  - apply get_set_eq.
Qed.

(** The exports object only grows by assignments, so its keys stay
    distinct. *)
Lemma augmentExportsObject_NoDup packageJson filepath json :
  NoDup (Obj.keys (exportsObjectOf packageJson)) →
  NoDup (Obj.keys
           (exportsObjectOf (augmentExportsObject packageJson filepath json))).
Proof.
  intros Hnd. unfold augmentExportsObject.
  rewrite exportsObjectOf_set_exports.
  fold (exportsObjectOf packageJson).
  case_decide; repeat apply NoDup_keys_set; done.
Qed.

Lemma augmentSubPackages_NoDup env location subPackages packageJson result :
  NoDup (Obj.keys (exportsObjectOf packageJson)) →
  augmentSubPackages env location subPackages packageJson = Ok result →
  NoDup (Obj.keys (exportsObjectOf result)).
Proof.
  revert packageJson.
  induction subPackages as [|subPackage rest IH]; intros packageJson Hnd.
  - intros [= <-]. done.
  - simpl. destruct (require env subPackage) as [subPackageJson|e]; [|done].
    simpl. apply IH. by apply augmentExportsObject_NoDup.
Qed.

(** The exports generated for a package have distinct keys, in order. *)
Lemma generatePackageExports_sorted env pkg packageJson :
  generatePackageExports env pkg = Ok packageJson →
  StronglySorted String.le (Obj.keys (exportsObjectOf packageJson))
  ∧ NoDup (Obj.keys (exportsObjectOf packageJson)).
Proof.
  unfold generatePackageExports.
  destruct (globby env (location pkg)) as [subPackages|e]; [simpl | done].
  destruct (augmentSubPackages _ _ _ _) as [augmented|e] eqn:Haug;
    [simpl | done].
  intros [= <-]. rewrite exportsObjectOf_set_exports. split.
  - apply sortKeys_sorted.
  - unfold Obj.keys. rewrite sortKeys_Permutation.
    eapply augmentSubPackages_NoDup; [|done]. apply NoDup_nil_2.
Qed.

(** A package without a [main] field is passed over: nothing is compared
    and no file is scheduled for it. *)
Lemma collectExports_skips_without_main env (pkg : Package) rest acc :
  truthy (main pkg) = None →
  collectExports env (pkg :: rest) acc = collectExports env rest acc.
Proof. intros H. simpl. by rewrite H. Qed.

(** C1, at the failing input: for the entry point [core] of the package
    [remirror], the generator takes the [browser] condition from the browser
    path of [remirror] itself, joined to the directory of [core]; the
    specification describes the browser path of [core]. *)
Theorem C1_browser_condition_of_parent :
  ∃ packageJson entry,
    generatePackageExports (Example.env (Example.flags true false false))
      Example.remirrorPkg = Ok packageJson
    ∧ Obj.get "./core" (exportsObjectOf packageJson) = Some (JObj entry)
    ∧ Obj.get "browser" entry
      = Some (JStr "./core/dist/remirror.browser.esm.js")
    ∧ Obj.get "browser" (specifiedExportField "./core" Example.coreJson)
      = Some (JStr "./core/dist/remirror-core.browser.esm.js").
Proof.
  eexists _, _. split_and!; [vm_compute; reflexivity ..].
Qed.

(** C10, at the failing input: the [package.json] of the entry point [dom]
    has neither a [browser] nor a [module] field, yet its entry has a
    [browser] condition, made from the browser path of the package
    [remirror]. *)
Theorem C10_browser_condition_without_source :
  getBrowserPath Example.domJson = None
  ∧ ∃ entry,
      Obj.get "./dom"
        (exportsObjectOf
           (augmentExportsObject
              (set_exports (Some (JObj [])) Example.remirrorJson)
              "./dom" Example.domJson))
      = Some (JObj entry)
      ∧ Obj.get "browser" entry
        = Some (JStr "./dom/dist/remirror.browser.esm.js")
      ∧ Obj.get "browser" (specifiedExportField "./dom" Example.domJson)
        = None.
Proof.
  split; [reflexivity |]. eexists. split_and!; vm_compute; reflexivity.
Qed.

(** ** The check of the generated exports *)

(** Run the steps of a script that do not depend on the world. *)
Tactic Notation "run_script" "in" hyp(H) :=
  repeat (progress
            (unfold mbind, mret, M_bind, M_ret, log, await, throw, try_catch,
               process_exit, compareOutput, get_state in H;
             cbn in H)).
Tactic Notation "run_script" :=
  repeat (progress
            (unfold mbind, mret, M_bind, M_ret, log, await, throw, try_catch,
               process_exit, compareOutput, get_state;
             cbn)).

(** What the loop of [generateExports] collects: for the packages with a
    [main] field, in order, the stored exports, the generated exports and
    the file to rewrite. *)
Lemma collectExports_spec env packages acc collected :
  collectExports env packages acc = Ok collected →
  ∃ generated,
    Forall2 (λ pkg packageJson, generatePackageExports env pkg = Ok packageJson)
      (exportable packages) generated
    ∧ actual collected
      = foldl (λ o (pkg : Package),
                 Obj.set (propertyKey (name pkg))
                   (Some (default "" (JSON.stringify (exports pkg)))) o)
          (actual acc) (exportable packages)
    ∧ expected collected
      = foldl (λ o (entry : Package * PackageJson),
                 Obj.set (propertyKey (name entry.1))
                   (JSON.stringify (exports entry.2)) o)
          (expected acc) (zip (exportable packages) generated)
    ∧ files collected
      = files acc
        ++ ((λ entry : Package * PackageJson,
               (path.join [location entry.1; "package.json"], entry.2))
            <$> zip (exportable packages) generated).
Proof.
  revert acc. unfold exportable.
  induction packages as [|pkg rest IH]; intros acc.
  - intros [= <-]. exists []. split_and!; [constructor | done | done |].
    simpl. by rewrite app_nil_r.
  - simpl. destruct (truthy (main pkg)) as [m|] eqn:Hmain.
    + rewrite filter_cons_True by (rewrite Hmain; eauto).
      destruct (generatePackageExports env pkg) as [packageJson|e] eqn:Hgen;
        [simpl | done].
      intros (generated & Hall & Ha & He & Hf)%IH.
      exists (packageJson :: generated).
      split_and!; [by constructor | done | done |].
      rewrite Hf. simpl. by rewrite <- app_assoc.
    + rewrite filter_cons_False by (rewrite Hmain; by intros [? ?]).
      apply IH.
Qed.

(** Assigning properties with fresh, distinct keys lists them in order. *)
Lemma foldl_set_fresh {A V} (key : A → string) (value : A → V)
    (o : list (string * V)) (l : list A) :
  NoDup (key <$> l) →
  (∀ x, x ∈ l → key x ∉ Obj.keys o) →
  foldl (λ o x, Obj.set (key x) (value x) o) o l
  = o ++ ((λ x, (key x, value x)) <$> l).
Proof.
  revert o. induction l as [|x l IH]; intros o Hnd Hfresh; simpl.
  - by rewrite app_nil_r.
  - apply NoDup_cons in Hnd as [Hx Hnd].
    assert (Obj.set (key x) (value x) o = o ++ [(key x, value x)]) as ->.
    { specialize (Hfresh x (list_elem_of_here _ _)). clear -Hfresh.
      unfold Obj.keys in Hfresh.
      induction o as [|[k v] o IHo]; simpl; [done |].
      rewrite fmap_cons, not_elem_of_cons in Hfresh.
      destruct Hfresh as [Hne Hout]. rewrite decide_False by done.
      by rewrite IHo. }
    rewrite IH, <- app_assoc; [done | done |].
    intros y Hy. unfold Obj.keys. rewrite fmap_app, elem_of_app.
    intros [Hin | Hin%list_elem_of_singleton].
    + by apply (Hfresh y); [right |].
    + apply Hx. simpl in Hin. rewrite <- Hin. by apply list_elem_of_fmap_2.
Qed.

(** Two records with the same distinct keys, in the same order, are the
    same output exactly when they are equal. *)
Lemma sameOutput_same_keys (la lb : list (string * option string)) :
  la.*1 = lb.*1 → NoDup la.*1 → sameOutput la lb ↔ la = lb.
Proof.
  unfold sameOutput, Obj.keys. intros Hkeys Hnd. split.
  - rewrite <- Hkeys. revert lb Hkeys.
    induction la as [|[k va] la IH]; intros [|[k' vb] lb] Hkeys Hall;
      try done.
    rewrite !fmap_cons in Hkeys. cbn [fst] in Hkeys.
    injection Hkeys as <- Hkeys.
    rewrite fmap_cons in Hnd. apply NoDup_cons in Hnd as [Hk Hnd].
    rewrite Forall_forall in Hall.
    assert (va = vb) as <-.
    { specialize (Hall k). cbn [Obj.get] in Hall.
      rewrite !decide_True in Hall by done.
      assert (Some va = Some vb) as [= ->]; [|done].
      apply Hall. rewrite fmap_cons. apply elem_of_app. left. left. }
    f_equal. apply IH; [done | done |].
    rewrite Forall_forall. intros k' Hk'.
    assert (k' ∈ la.*1) as Hin.
    { apply elem_of_app in Hk' as [?|?]; done. }
    specialize (Hall k'). cbn [Obj.get] in Hall.
    rewrite !decide_False in Hall by (intros ->; done).
    apply Hall. rewrite fmap_cons. apply elem_of_app. left. by right.
  - intros ->. by apply Forall_forall.
Qed.

Lemma records_equal_pointwise {A B} (key : A → string)
    (stored : A → option string) (generated : B → option string)
    (xs : list A) (ys : list B) :
  length xs = length ys →
  (λ x, (key x, stored x)) <$> xs
  = ((λ e : A * B, (key e.1, generated e.2)) <$> zip xs ys)
  ↔ Forall2 (λ x y, stored x = generated y) xs ys.
Proof.
  revert ys. induction xs as [|x xs IH]; intros [|y ys] Hlen; try done.
  simpl in Hlen. injection Hlen as Hlen. specialize (IH ys Hlen).
  rewrite Forall2_cons, <- IH. csimpl. split.
  - intros [= H1 H2]. done.
  - intros [H1 H2]. by rewrite H1, H2.
Qed.

(** C2: in check mode, exports that differ from the stored ones end the
    script with exit code 1 and nothing is written; equal exports without
    [--force] write nothing either; nothing is ever written in check mode;
    and the comparison is the equality, package by package, of the
    pretty-printed stored exports with the pretty-printed generated ones. *)
Theorem generateExports_check_mode env s packages collected :
  getAllDependencies env true = Ok packages →
  collectExports env packages {| actual := []; expected := []; files := [] |}
  = Ok collected →
  let result := generateExports env s in
  (Cli.check (cliArgs env) = true →
   ¬ sameOutput (actual collected) (expected collected) →
   result.1 = Exit 1 ∧ written result.2 = written s)
  ∧ (sameOutput (actual collected) (expected collected) →
     Cli.force (cliArgs env) = false →
     result.1 = Normal () ∧ written result.2 = written s)
  ∧ (Cli.check (cliArgs env) = true → written result.2 = written s)
  ∧ ∃ generated,
      Forall2
        (λ pkg packageJson, generatePackageExports env pkg = Ok packageJson)
        (exportable packages) generated
      ∧ (NoDup ((λ pkg : Package, propertyKey (name pkg))
                <$> exportable packages) →
         sameOutput (actual collected) (expected collected)
         ↔ Forall2
             (λ (pkg : Package) (packageJson : PackageJson),
                Some (default "" (JSON.stringify (exports pkg)))
                = JSON.stringify (exports packageJson))
             (exportable packages) generated).
Proof.
  intros Hdeps Hcollect result.
  assert (∀ r : Completion unit * State,
            generateExports env s = r → result = r) as Hresult by done.
  unfold generateExports in Hresult. run_script in Hresult.
  rewrite Hdeps in Hresult. run_script in Hresult.
  rewrite Hcollect in Hresult. run_script in Hresult.
  split_and!.
  - intros Hcheck Hdiff. rewrite decide_False in Hresult by done.
    run_script in Hresult. rewrite Hcheck in Hresult. run_script in Hresult.
    by rewrite (Hresult _ eq_refl).
  - intros Hsame Hforce. rewrite decide_True in Hresult by done.
    run_script in Hresult. rewrite Hforce in Hresult. run_script in Hresult.
    by rewrite (Hresult _ eq_refl).
  - intros Hcheck.
    destruct (decide (sameOutput (actual collected) (expected collected)));
      run_script in Hresult.
    + destruct (Cli.force (cliArgs env)); run_script in Hresult;
        rewrite ?Hcheck in Hresult; run_script in Hresult;
        by rewrite (Hresult _ eq_refl).
    + rewrite Hcheck in Hresult. run_script in Hresult.
      by rewrite (Hresult _ eq_refl).
  - clear Hresult.
    apply collectExports_spec in Hcollect
      as (generated & Hall & Hactual & Hexpected & _).
    exists generated. split; [done |]. intros Hnd.
    simpl in Hactual, Hexpected.
    rewrite (foldl_set_fresh (λ pkg : Package, propertyKey (name pkg))
               (λ pkg : Package,
                  Some (default "" (JSON.stringify (exports pkg)))))
      in Hactual; [| done | intros; apply not_elem_of_nil].
    assert (length (exportable packages) = length generated) as Hlen
      by by eapply Forall2_length.
    rewrite (foldl_set_fresh
               (λ entry : Package * PackageJson, propertyKey (name entry.1))
               (λ entry : Package * PackageJson,
                  JSON.stringify (exports entry.2)))
      in Hexpected; [| | intros; apply not_elem_of_nil].
    2:{ replace ((λ entry : Package * PackageJson,
                    propertyKey (name entry.1))
                 <$> zip (exportable packages) generated)
          with ((λ pkg : Package, propertyKey (name pkg))
                <$> exportable packages); [done |].
        rewrite <- (fst_zip (exportable packages) generated) at 1 by lia.
        by rewrite <- list_fmap_compose. }
    simpl in Hactual, Hexpected. rewrite Hactual, Hexpected.
    rewrite sameOutput_same_keys.
    + by apply (records_equal_pointwise
                  (λ pkg : Package, propertyKey (name pkg))
                  (λ pkg : Package,
                     Some (default "" (JSON.stringify (exports pkg))))
                  (λ packageJson : PackageJson,
                     JSON.stringify (exports packageJson))).
    + rewrite <- !list_fmap_compose.
      rewrite <- (fst_zip (exportable packages) generated) at 1 by lia.
      by rewrite <- list_fmap_compose.
    + by rewrite <- list_fmap_compose.
Qed.

(** The witness of C2: in check mode, the out-of-date exports of the example
    workspace end the script with exit code 1 and no file is written. *)
Lemma generateExports_check_mode_witness :
  let result :=
    generateExports (Example.env (Example.flags true true false))
      initialState in
  result.1 = Exit 1 ∧ written result.2 = [].
Proof.
  destruct (generateExports_check_mode
              (Example.env (Example.flags true true false)) initialState
              [Example.remirrorPkg; Example.pmPkg] Example.collected
              eq_refl eq_refl) as [Hcheck _].
  apply Hcheck; [reflexivity |].
  refine (proj1 (bool_decide_eq_false _) _). vm_compute. reflexivity.
Defined.

(** When only [--exports] selects a generator, the script ends as
    [generateExports] does when that calls [process.exit]: the exit code of
    the check is the exit code of the process, and nothing more is
    written. *)
Lemma script_exits_with_generateExports env s code s' :
  Cli.size (cliArgs env) = false →
  Cli.tsExperimentalReferences (cliArgs env) = false →
  Cli.tsPackages (cliArgs env) = false →
  Cli.exports (cliArgs env) = true →
  generateExports env s = (Exit code, s') →
  Script.script env s = (Exit code, s')
  ∧ exitCode (Script.script env s).1 = code.
Proof.
  intros Hsize Hts Hpackages Hexports Hexit.
  assert (Script.script env s = (Exit code, s')) as ->; [|done].
  unfold Script.script, Script.main, try_catch.
  rewrite Hsize, Hts, Hpackages, Hexports.
  unfold mbind, M_bind. cbn [promise_all]. by rewrite Hexit.
Qed.

(** ** Errors *)

(** When no write fails, the files collected by [generateExports] are all
    written, in order. *)
Lemma write_files_ok env (files : list (string * PackageJson)) s :
  (∀ file, file ∈ files → writeJSON_error env file.1 = None) →
  promise_all
    (map (λ file : string * PackageJson,
            prettify_later (path.relative (cwd env) (cwd env) file.1);;
            writeJSON env file.1 (PackageJsonFile file.2)) files) s
  = (Normal (),
     {| written :=
          written s
          ++ ((λ file : string * PackageJson,
                 (file.1, PackageJsonFile file.2)) <$> files);
        filesToPrettify :=
          filesToPrettify s
          ++ ((λ file : string * PackageJson,
                 path.relative (cwd env) (cwd env) file.1) <$> files);
        logs := logs s; formatted := formatted s |}).
Proof.
  revert s. induction files as [|file files IH]; intros s Hok.
  - destruct s. simpl. by rewrite !app_nil_r.
  - cbn [map promise_all]. unfold writeJSON at 1.
    rewrite (Hok file) by left. run_script.
    unfold prettify_later, record_write. cbn.
    rewrite IH by (intros; apply Hok; by right). cbn.
    by rewrite <- !app_assoc.
Qed.







(** ** The size-limit configuration *)

Lemma collectSizes_omap env packages sizes :
  collectSizes env packages sizes = sizes ++ omap (sizeLimitOf env) packages.
Proof.
  revert sizes. induction packages as [|pkg rest IH]; intros sizes; simpl.
  - by rewrite app_nil_r.
  - destruct (sizeLimitOf env pkg); rewrite IH; [|done].
    by rewrite <- app_assoc.
Qed.

(** C8: the size-limit file holds, in the order of the packages, one entry
    for each package that sets [@remirror.sizeLimit] and has a browser or
    module entry file, and none for any other package; the entry has the
    limit of the package, its relative path joined with its entry file, the
    names of its peer dependencies followed by those of its dependencies
    that start with [@remirror/], [running] off and [gzip] on. *)
Theorem generateSizeLimitConfig_entries env s packages :
  getAllDependencies env false = Ok packages →
  writeJSON_error env (paths.sizeLimit env) = None →
  written (generateSizeLimitConfig env s).2
  = written s
    ++ [(paths.sizeLimit env,
         SizeLimitFile (omap (sizeLimitOf env) packages))]
  ∧ ∀ pkg : Package,
      match truthy (remirror pkg ≫= sizeLimit), truthy (getBrowserPath pkg) with
      | Some limit, Some pathToEntryFile =>
          sizeLimitOf env pkg
          = Some
              {| SizeLimitConfig.name := name pkg;
                 SizeLimitConfig.limit := limit;
                 SizeLimitConfig.path :=
                   path.join [getRelativePathFromJson env pkg;
                              pathToEntryFile];
                 SizeLimitConfig.ignore :=
                   Obj.keys (default [] (peerDependencies pkg))
                   ++ filter (λ name, String.prefix "@remirror/" name = true)
                        (Obj.keys (default [] (dependencies pkg)));
                 SizeLimitConfig.running := false;
                 SizeLimitConfig.gzip := true |}
      | _, _ => sizeLimitOf env pkg = None
      end.
Proof.
  intros Hdeps Hwrite. split.
  - unfold generateSizeLimitConfig, writeJSON. run_script.
    rewrite Hdeps, Hwrite. run_script.
    by rewrite collectSizes_omap.
  - intros pkg. unfold sizeLimitOf.
    destruct (truthy (remirror pkg ≫= sizeLimit)) as [limit|]; [|done].
    by destruct (truthy (getBrowserPath pkg)).
Qed.

(** The witness of C8: the only entry of the example workspace is the one
    of the package [remirror]. *)
Lemma generateSizeLimitConfig_entries_witness :
  written
    (generateSizeLimitConfig (Example.env (Example.flags false false false))
       initialState).2
  = [ ("/repo/support/root/.size-limit.json",
       SizeLimitFile
         [ {| SizeLimitConfig.name := Some "remirror";
              SizeLimitConfig.limit := "300 KB";
              SizeLimitConfig.path :=
                "packages/remirror/dist/remirror.browser.esm.js";
              SizeLimitConfig.ignore := ["react"; "@remirror/pm"];
              SizeLimitConfig.running := false;
              SizeLimitConfig.gzip := true |} ]) ].
Proof.
  destruct (generateSizeLimitConfig_entries
              (Example.env (Example.flags false false false)) initialState
              [Example.remirrorPkg; Example.pmPkg; Example.supportPkg]
              eq_refl eq_refl) as [-> _].
  reflexivity.
Defined.

(** ** The publish workflow *)

Section workflow.
Import Workflow.

(** C9: the [npm] job runs exactly for a completed run of the workflow [ci]
    on the branch [main] whose conclusion is [success]; after a failed or
    cancelled run nothing is published. *)
Theorem publish_only_after_successful_ci w event :
  is_Some (runJob publish w event)
  ↔ workflow event = "ci" ∧ branch event = "main"
    ∧ activity event = completed ∧ conclusion event = success.
Proof.
  split.
  - intros [p Hp]. unfold runJob in Hp. case_decide as H; [|done].
    destruct H as [(H1 & H2 & H3) H4]. cbn in *.
    apply list_elem_of_singleton in H1, H2, H3. done.
  - intros (H1 & H2 & H3 & H4). unfold runJob.
    rewrite decide_True; [eauto |]. split; [|done].
    unfold triggers. cbn. rewrite H1, H2, H3.
    split_and!; apply list_elem_of_here.
Qed.

Lemma runStep_agree wf w outcome s p p' :
  (uses s = Some "ncipollo/release-action@v1" → continue_on_error s = true) →
  agree p p' →
  agree (runStep wf w p s) (runStep wf (with_release_outcomes outcome w) p' s).
Proof.
  intros Hcontinue (Houtputs & Hran & Hfailed).
  unfold runStep. rewrite <- Hfailed.
  destruct (failed p) eqn:Hp; [unfold agree; rewrite Hp; auto |].
  unfold perform. rewrite <- Houtputs, <- Hran.
  destruct (decide (uses s = Some "ocavue/changelog-parser-action@v1")).
  { unfold input. cbn.
    destruct (changelogs w _); cbn; unfold agree; cbn; split_and!;
      congruence. }
  destruct (decide (uses s = Some "ncipollo/release-action@v1")).
  { rewrite Hcontinue by done.
    destruct (release_succeeds w _), (release_succeeds _ _);
      unfold agree; cbn; split_and!; congruence. }
  cbn. destruct (step_succeeds w (name s)); unfold agree; cbn; split_and!;
    congruence.
Qed.

Lemma runSteps_agree wf w outcome steps p p' :
  Forall (λ s, uses s = Some "ncipollo/release-action@v1" →
               continue_on_error s = true) steps →
  agree p p' →
  agree (runSteps wf w steps p)
    (runSteps wf (with_release_outcomes outcome w) steps p').
Proof.
  intros Hall. revert p p'.
  induction Hall as [|s steps Hs _ IH]; intros p p' Hagree; [done |].
  apply IH. by apply runStep_agree.
Qed.

(** C5: the three release steps carry [continue-on-error], and whatever
    their outcomes are, the job runs the same steps and has the same
    conclusion: a failed release step fails neither the steps after it nor
    the job. *)
Theorem release_failures_do_not_fail_job w outcome :
  let p := runSteps publish w (steps (npm publish)) start in
  let p' :=
    runSteps publish (with_release_outcomes outcome w) (steps (npm publish))
      start in
  filter (λ s, uses s = Some "ncipollo/release-action@v1")
    (steps (npm publish))
  = [ createRelease "@remirror/react" "changelog_remirror_react";
      createRelease "@remirror/pm" "changelog_remirror_pm";
      createRelease "remirror" "changelog_remirror" ]
  ∧ Forall (λ s, continue_on_error s = true)
      [ createRelease "@remirror/react" "changelog_remirror_react";
        createRelease "@remirror/pm" "changelog_remirror_pm";
        createRelease "remirror" "changelog_remirror" ]
  ∧ ran p' = ran p
  ∧ jobConclusion p' = jobConclusion p.
Proof.
  intros p p'.
  assert (agree p p') as (_ & Hran & Hfailed).
  { apply runSteps_agree; [|done].
    apply Forall_forall. intros s Hs Huses.
    repeat (apply elem_of_cons in Hs as [-> | Hs];
            [by (done || discriminate) |]).
    by apply elem_of_nil in Hs. }
  clearbody p p'. split_and!.
  - vm_compute. reflexivity.
  - repeat constructor.
  - symmetry. exact Hran.
  - unfold jobConclusion. rewrite Hfailed. reflexivity.
Qed.

Lemma runSteps_failed wf w steps p :
  failed p = true → runSteps wf w steps p = p.
Proof.
  intros Hfailed. induction steps as [|s steps IH]; [done |].
  cbn [runSteps foldl]. unfold runStep at 2. rewrite Hfailed. apply IH.
Qed.

(** A step that is neither a parse step nor a release step, when it
    succeeds. *)
Lemma runStep_plain wf w p s :
  failed p = false →
  uses s ≠ Some "ocavue/changelog-parser-action@v1" →
  uses s ≠ Some "ncipollo/release-action@v1" →
  step_succeeds w (name s) = true →
  runStep wf w p s
  = {| outputs := outputs p; releases := releases p;
       ran := ran p ++ [name s]; failed := false |}.
Proof.
  intros Hfailed Hparse Hrelease Hok. unfold runStep, perform.
  rewrite Hfailed, !decide_False, Hok by assumption. reflexivity.
Qed.

(** A parse step records the parsed changelog, or fails the job. *)
Lemma runStep_parse wf w p package i file :
  failed p = false →
  runStep wf w p (parseChangelog package i file)
  = match changelogs w file with
    | Some parsed =>
        {| outputs := Obj.set i parsed (outputs p); releases := releases p;
           ran := ran p ++ ["parse changelog for " +:+ package];
           failed := false |}
    | None =>
        {| outputs := outputs p; releases := releases p;
           ran := ran p ++ ["parse changelog for " +:+ package];
           failed := true |}
    end.
Proof.
  intros Hfailed. unfold runStep, perform. rewrite Hfailed.
  rewrite decide_True by reflexivity.
  change (input wf w (outputs p) (parseChangelog package i file) "filePath")
    with file.
  destruct (changelogs w file); reflexivity.
Qed.

(** A release step adds the release of the newest version, or nothing; the
    job goes on in both cases. *)
Lemma runStep_release wf w p package i parsed :
  failed p = false →
  Obj.get i (outputs p) = Some parsed →
  runStep wf w p (createRelease package i)
  = {| outputs := outputs p;
       releases := releases p ++ created w (releaseOf package parsed);
       ran := ran p ++ ["create release for " +:+ package];
       failed := false |}.
Proof.
  intros Hfailed Hparsed. unfold runStep, perform. rewrite Hfailed.
  rewrite decide_False by discriminate.
  rewrite decide_True by reflexivity.
  assert (input wf w (outputs p) (createRelease package i) "tag"
          = tag (releaseOf package parsed)) as ->.
  { unfold input, render, eval, newest.
    cbn [createRelease with_ Obj.get]. rewrite !decide_False by discriminate.
    rewrite decide_True by reflexivity.
    simpl. rewrite Hparsed. reflexivity. }
  assert (input wf w (outputs p) (createRelease package i) "body"
          = notes (releaseOf package parsed)) as ->.
  { unfold input, render, eval, newest.
    cbn [createRelease with_ Obj.get]. rewrite !decide_False by discriminate.
    rewrite decide_True by reflexivity.
    simpl. rewrite Hparsed. reflexivity. }
  assert (input wf w (outputs p) (createRelease package i) "commit" = "main")
    as -> by reflexivity.
  unfold created.
  destruct (release_succeeds w (tag (releaseOf package parsed))).
  - reflexivity.
  - cbn [negb continue_on_error createRelease]. by rewrite app_nil_r.
Qed.

Lemma runSteps_cons wf w s steps p :
  runSteps wf w (s :: steps) p = runSteps wf w steps (runStep wf w p s).
Proof. reflexivity. Qed.

Lemma runSteps_nil wf w p : runSteps wf w [] p = p.
Proof. reflexivity. Qed.

(** C4, as amended: after a successful publication on npm the job tries to
    create a release for [@remirror/react], then for [@remirror/pm], then
    for [remirror]. Each release is tagged with the name of the package,
    [@], and the newest version of its changelog, and carries the section of
    that version. A release step that fails creates nothing and the job
    goes on; a changelog that cannot be parsed ends the job. When the three
    changelogs are parsed and the three releases can be created, these are
    the releases created, the one of [remirror] last. *)
Theorem releases_after_publish w :
  Forall (λ name, step_succeeds w name = true) publishingSteps →
  let p := runSteps publish w (steps (npm publish)) start in
  releases p
  = match changelogs w "packages/remirror__react/CHANGELOG.md" with
    | None => []
    | Some react =>
        created w (releaseOf "@remirror/react" react)
        ++ match changelogs w "packages/remirror__pm/CHANGELOG.md" with
           | None => []
           | Some pm =>
               created w (releaseOf "@remirror/pm" pm)
               ++ match changelogs w "packages/remirror/CHANGELOG.md" with
                  | None => []
                  | Some remirror => created w (releaseOf "remirror" remirror)
                  end
           end
    end
  ∧ ∀ react pm remirror,
      changelogs w "packages/remirror__react/CHANGELOG.md" = Some react →
      changelogs w "packages/remirror__pm/CHANGELOG.md" = Some pm →
      changelogs w "packages/remirror/CHANGELOG.md" = Some remirror →
      release_succeeds w (tag (releaseOf "@remirror/react" react)) = true →
      release_succeeds w (tag (releaseOf "@remirror/pm" pm)) = true →
      release_succeeds w (tag (releaseOf "remirror" remirror)) = true →
      releases p
      = [ releaseOf "@remirror/react" react; releaseOf "@remirror/pm" pm;
          releaseOf "remirror" remirror ].
Proof.
  intros Hall p.
  assert (∀ P : list Release → Prop,
            P (releases p) → P (releases p)) as _ by done.
  unfold publishingSteps in Hall.
  repeat (apply Forall_cons in Hall as [? Hall]).
  match goal with |- ?first ∧ _ => assert first as Hreleases end.
  { subst p. set (wf := publish) at 1.
    cbv [publish npm steps]. clearbody wf.
    do 6 (rewrite runSteps_cons;
          rewrite runStep_plain
            by (reflexivity || discriminate || assumption)).
    cbn [outputs releases ran failed start Workflow.name app].
    rewrite runSteps_cons, runStep_parse by reflexivity.
    destruct (changelogs w "packages/remirror__react/CHANGELOG.md")
      as [react|]; [|by rewrite (runSteps_failed wf w)].
    rewrite runSteps_cons.
    rewrite (runStep_release wf w _ _ _ react)
      by (reflexivity || apply get_set_eq).
    rewrite runSteps_cons, runStep_parse by reflexivity.
    destruct (changelogs w "packages/remirror__pm/CHANGELOG.md")
      as [pm|];
      [|rewrite (runSteps_failed wf w) by reflexivity; cbn [releases];
        by rewrite app_nil_r].
    rewrite runSteps_cons.
    rewrite (runStep_release wf w _ _ _ pm)
      by (reflexivity || apply get_set_eq).
    rewrite runSteps_cons, runStep_parse by reflexivity.
    destruct (changelogs w "packages/remirror/CHANGELOG.md")
      as [remirror|];
      [|rewrite (runSteps_failed wf w) by reflexivity; cbn [releases];
        by rewrite app_nil_r].
    rewrite runSteps_cons.
    rewrite (runStep_release wf w _ _ _ remirror)
      by (reflexivity || apply get_set_eq).
    rewrite runSteps_nil. cbn [releases app]. by rewrite <- app_assoc. }
  split; [exact Hreleases |].
  intros react pm remirror Hreact Hpm Hremirror Hr1 Hr2 Hr3.
  rewrite Hreleases, Hreact, Hpm, Hremirror. unfold created.
  rewrite Hr1, Hr2, Hr3. reflexivity.
Qed.

(** The witness of C4: when every step succeeds, the three releases are
    created in order, the one of [remirror] last. *)
Lemma releases_after_publish_witness :
  tag <$> releases
            (runSteps publish (Example.world (λ _, false))
               (steps (npm publish)) start)
  = ["@remirror/react@2.0.1"; "@remirror/pm@2.0.0"; "remirror@2.0.3"].
Proof.
  destruct (releases_after_publish (Example.world (λ _, false)))
    as [_ Hall].
  { repeat constructor. }
  rewrite (Hall _ _ _ eq_refl eq_refl eq_refl eq_refl eq_refl eq_refl).
  reflexivity.
Defined.

(** C4, as stated, fails: in a run started by a successful run of [ci], in
    which the publication on npm succeeds and the release for
    [@remirror/react] cannot be created, the job ends with success and has
    created two releases, not three. *)
Lemma failed_release_step_creates_no_release :
  let w := Example.world (λ tag, bool_decide (tag = "@remirror/react@2.0.1")) in
  ∃ p,
    runJob publish w Example.ciSucceeded = Some p
    ∧ Forall (λ name, step_succeeds w name = true) publishingSteps
    ∧ "publish npm release" ∈ ran p
    ∧ jobConclusion p = success
    ∧ tag <$> releases p = ["@remirror/pm@2.0.0"; "remirror@2.0.3"].
Proof.
  eexists. split; [vm_compute; reflexivity |].
  split_and!.
  - repeat constructor.
  - apply list_elem_of_In. vm_compute. tauto.
  - reflexivity.
  - reflexivity.
Qed.

End workflow.

(** ** The package tasks *)

Lemma run_next_bounded concurrency p :
  activeCount p = length (running p) →
  (length (running p) < concurrency)%nat →
  bounded concurrency (run_next p).
Proof.
  intros Hcount Hlt. unfold bounded, run_next.
  destruct (queue p) as [|pkg rest]; cbn; [lia |].
  rewrite length_app. cbn. lia.
Qed.

Lemma enqueued_bounded concurrency p :
  bounded concurrency p → bounded concurrency (enqueued concurrency p).
Proof.
  intros [Hcount Hle]. unfold enqueued. case_decide; [|done].
  apply run_next_bounded; lia.
Qed.

Lemma settle_bounded concurrency i p :
  bounded concurrency p →
  is_Some (running p !! i) →
  bounded concurrency (settle i p).
Proof.
  intros [Hcount Hle] Hi.
  pose proof (proj1 (lookup_lt_is_Some _ _) Hi) as Hlt.
  unfold settle.
  apply run_next_bounded; cbn; rewrite length_delete by done; lia.
Qed.

Lemma reject_bounded concurrency e p :
  bounded concurrency p → bounded concurrency (reject e p).
Proof. done. Qed.

Lemma deliver_bounded env dependencies concurrency event p :
  bounded concurrency p →
  bounded concurrency (deliver env dependencies event p).
Proof.
  intros Hp. unfold deliver. case_decide; [done |].
  destruct event as [i|i j|i].
  - destruct (running p !! i) as [[pkg [|pending files]]|] eqn:Hi; [|done..].
    destruct (resolveTsConfigMeta env pkg dependencies).
    + destruct Hp as [Hcount Hle]. unfold bounded. cbn.
      rewrite length_insert. done.
    + apply settle_bounded; [done |]. cbn. eauto.
  - destruct (running p !! i) as [[pkg [|pending files]]|] eqn:Hi; [done| |done].
    destruct (pending !! j) as [tsconfig|]; [|done].
    destruct (writeJSON_error env (filepath tsconfig)).
    + apply settle_bounded; [done |]. cbn. eauto.
    + destruct Hp as [Hcount Hle]. unfold bounded. cbn.
      rewrite length_insert. done.
  - destruct (running p !! i) as [[pkg [|[|tsconfig pending] files]]|] eqn:Hi;
      [done| |done..].
    apply settle_bounded; [done |]. cbn. eauto.
Qed.

Lemma startPool_bounded concurrency packages s :
  bounded concurrency (startPool concurrency packages s).
Proof.
  unfold startPool. generalize (length packages) as n.
  induction n as [|n IH]; cbn.
  - split; cbn; lia.
  - by apply enqueued_bounded.
Qed.

Lemma runPool_bounded env dependencies concurrency events p :
  bounded concurrency p →
  bounded concurrency (runPool env dependencies events p).
Proof.
  revert p. induction events as [|event events IH]; intros p Hp; [done |].
  apply IH. by apply deliver_bounded.
Qed.

Lemma drain_bounded env dependencies concurrency fuel p :
  bounded concurrency p →
  bounded concurrency (drain env dependencies fuel p).
Proof.
  revert p. induction fuel as [|fuel IH]; intros p Hp; [done |].
  cbn. destruct (nextEvent p); [|done].
  apply IH. by apply deliver_bounded.
Qed.

(** C7: whatever the event loop delivers and in whatever order, the tasks
    started and not yet settled are never more than [os.cpus().length],
    and they are as many as the limiter has counted; the same holds while
    the remaining tasks run to their end. *)
Theorem package_tasks_bounded_by_cpus env dependencies packages events s :
  let p := runPool env dependencies events (startPool (cpus env) packages s) in
  (length (running p) ≤ cpus env)%nat
  ∧ activeCount p = length (running p)
  ∧ ∀ fuel,
      (length (running (drain env dependencies fuel p)) ≤ cpus env)%nat.
Proof.
  intros p.
  assert (bounded (cpus env) p) as Hp
    by apply runPool_bounded, startPool_bounded.
  split_and!; [apply Hp | apply Hp |].
  intros fuel. by apply drain_bounded.
Qed.

(** ** The order of the package tasks *)

Section bind.
Context {A B : Type} (f : A → list B).

Lemma bind_lookup_Permutation (l : list A) i x :
  l !! i = Some x → l ≫= f ≡ₚ f x ++ (delete i l ≫= f).
Proof.
  revert i. induction l as [|y l IH]; intros [|i] Hi; simplify_eq/=.
  - done.
  - rewrite (IH i Hi). apply Permutation_app_swap_app.
Qed.

Lemma bind_insert_Permutation (l : list A) i x y :
  l !! i = Some x → f y ++ (l ≫= f) ≡ₚ f x ++ (<[i:=y]> l ≫= f).
Proof.
  revert i. induction l as [|z l IH]; intros [|i] Hi; simplify_eq/=.
  - apply Permutation_app_swap_app.
  - rewrite Permutation_app_swap_app, (IH i Hi).
    apply Permutation_app_swap_app.
Qed.

End bind.

Section pool.
Context (env : Env) (dependencies : list (string * string)).
Context (s0 : State) (all : list Package).

Lemma run_next_sound p :
  sound env dependencies p → sound env dependencies (run_next p).
Proof.
  intros (Hrejected & Hqueue & Hrunning). unfold run_next.
  destruct (queue p) as [|pkg rest] eqn:Hq; [by rewrite <- Hq in Hqueue |].
  apply Forall_cons in Hqueue as [Hpkg Hrest].
  split_and!; cbn; [done | done |].
  apply Forall_app. split; [done |].
  apply Forall_singleton. split; [done | constructor].
Qed.

Lemma run_next_accounted p :
  accounted env dependencies s0 all p →
  accounted env dependencies s0 all (run_next p).
Proof.
  intros [(done & Hwritten & Hfiles) Hrefs]. unfold run_next.
  destruct (queue p) as [|pkg rest] eqn:Hq.
  { split; [exists done |]; by rewrite ?Hq. }
  split; [exists done; split; [done |] |]; cbn.
  - rewrite <- Hfiles, ?Hq, !bind_app, !bind_cons; cbn [mbind list_bind]; rewrite ?app_nil_r,
      <- !app_assoc.
    done.
  - rewrite <- Hrefs, ?Hq, !bind_app, !bind_cons; cbn [mbind list_bind]; rewrite ?app_nil_r,
      <- !app_assoc.
    done.
Qed.

Lemma settle_sound i p :
  sound env dependencies p → sound env dependencies (settle i p).
Proof.
  intros (Hrejected & Hqueue & Hrunning). apply run_next_sound.
  split_and!; cbn; [done | done |]. by apply Forall_delete.
Qed.

Lemma settle_accounted i task p :
  running p !! i = Some task →
  pendingFiles env dependencies task = [] →
  pendingReferences env dependencies task = [] →
  accounted env dependencies s0 all p →
  accounted env dependencies s0 all (settle i p).
Proof.
  intros Hi Hfiles Hrefs [(done & Hwritten & Hperm) Hperm'].
  apply run_next_accounted.
  split; [exists done; split; [done |] |]; cbn.
  - rewrite <- Hperm.
    rewrite (bind_lookup_Permutation _ (running p) i task Hi), Hfiles.
    done.
  - rewrite <- Hperm'.
    rewrite (bind_lookup_Permutation _ (running p) i task Hi), Hrefs.
    done.
Qed.

Lemma settle_busy i p :
  busy (cpus env) p →
  is_Some (running p !! i) →
  busy (cpus env) (settle i p).
Proof.
  intros Hbusy Hi. unfold settle, run_next. cbn.
  destruct (queue p) as [|pkg rest] eqn:Hq; [by left |].
  destruct Hbusy as [Hempty | Hfull]; [by rewrite Hq in Hempty |].
  right. cbn. rewrite length_app, length_delete by done. cbn.
  apply lookup_lt_is_Some in Hi. lia.
Qed.

Lemma filesOfPackage_Ok pkg tsconfigFiles :
  resolveTsConfigMeta env pkg dependencies = Ok tsconfigFiles →
  filesOfPackage env dependencies pkg = tsconfigFiles.
Proof. intros H. unfold filesOfPackage. by rewrite H. Qed.

(** An event keeps the pool sound, busy and accounted for. *)
Lemma deliver_invariant event p :
  sound env dependencies p →
  busy (cpus env) p →
  accounted env dependencies s0 all p →
  sound env dependencies (deliver env dependencies event p)
  ∧ busy (cpus env) (deliver env dependencies event p)
  ∧ accounted env dependencies s0 all (deliver env dependencies event p).
Proof.
  intros Hsound Hbusy Hacc. unfold deliver.
  pose proof Hsound as (Hrejected & Hqueue & Hrunning).
  rewrite decide_False by (rewrite Hrejected; by intros [? ?]).
  destruct event as [i|i j|i].
  - destruct (running p !! i) as [[pkg [|pending files]]|] eqn:Hi; [|done..].
    destruct (Forall_lookup_1 _ _ _ _ Hrunning Hi)
      as [(files & Hresolve & Hwrites) _].
    cbn in Hresolve. rewrite Hresolve. split_and!.
    + split_and!; cbn; [done | done |].
      apply Forall_insert; [done |]. split; [by exists files | done].
    + unfold busy. cbn. by rewrite length_insert.
    + destruct Hacc as [(done & Hwritten & Hperm) Hperm'].
      pose proof (filesOfPackage_Ok pkg files Hresolve) as Hfiles.
      split; [exists done; split; [done |] |]; cbn.
      * rewrite <- Hperm. do 2 f_equiv.
        apply (Permutation_app_inv_l files).
        pose proof (bind_insert_Permutation (pendingFiles env dependencies)
                      (running p) i (pkg, Resolving)
                      (pkg, Writing files files) Hi) as Hswap.
        unfold pendingFiles at 1 3 in Hswap. cbn in Hswap.
        rewrite Hfiles in Hswap. by symmetry.
      * rewrite <- Hperm'.
        pose proof (bind_insert_Permutation
                      (pendingReferences env dependencies)
                      (running p) i (pkg, Resolving)
                      (pkg, Writing files files) Hi) as Hswap.
        unfold pendingReferences at 1 3 in Hswap. cbn in Hswap.
        rewrite Hfiles in Hswap. rewrite Hswap, <- !app_assoc. done.
  - destruct (running p !! i) as [[pkg [|pending files]]|] eqn:Hi;
      [done | | done].
    destruct (pending !! j) as [tsconfig|] eqn:Hj; [|done].
    destruct (Forall_lookup_1 _ _ _ _ Hrunning Hi) as [Hpkg Hwrites].
    cbn in Hpkg, Hwrites.
    rewrite (Forall_lookup_1 _ _ _ _ Hwrites Hj). split_and!.
    + split_and!; cbn; [done | done |].
      apply Forall_insert; [done |]. split; [done |]. cbn.
      by apply Forall_delete.
    + unfold busy. cbn. by rewrite length_insert.
    + destruct Hacc as [(done & Hwritten & Hperm) Hperm'].
      split; [exists (done ++ [tsconfig]); split |]; cbn.
      * rewrite Hwritten, fmap_app, <- app_assoc. done.
      * rewrite <- Hperm, <- !app_assoc. f_equiv.
        rewrite !app_assoc. f_equiv.
        pose proof (bind_insert_Permutation (pendingFiles env dependencies)
                      (running p) i (pkg, Writing pending files)
                      (pkg, Writing (delete j pending) files) Hi) as Hswap.
        unfold pendingFiles at 1 3 in Hswap. cbn in Hswap.
        apply (Permutation_app_inv_l (delete j pending)).
        etrans; [|symmetry; exact Hswap].
        etrans;
          [|apply Permutation_app;
            [symmetry; apply (delete_Permutation pending j tsconfig Hj)
            |reflexivity]].
        cbn. symmetry. apply Permutation_middle.
      * rewrite <- Hperm'. do 2 f_equiv.
        pose proof (bind_insert_Permutation
                      (pendingReferences env dependencies)
                      (running p) i (pkg, Writing pending files)
                      (pkg, Writing (delete j pending) files) Hi) as Hswap.
        by symmetry.
  - destruct (running p !! i) as [[pkg [|[|tsconfig pending] files]]|] eqn:Hi;
      [done | | done..].
    split_and!.
    + by apply settle_sound.
    + apply settle_busy; [done |]. cbn. eauto.
    + apply (settle_accounted i (pkg, Writing [] files)); [done..|].
      destruct Hacc as [(done & Hwritten & Hperm) Hperm'].
      split; [by exists done |]. done.
Qed.

Lemma runPool_invariant events p :
  sound env dependencies p →
  busy (cpus env) p →
  accounted env dependencies s0 all p →
  sound env dependencies (runPool env dependencies events p)
  ∧ busy (cpus env) (runPool env dependencies events p)
  ∧ accounted env dependencies s0 all (runPool env dependencies events p).
Proof.
  revert p. induction events as [|event events IH]; intros p Hs Hb Ha.
  - done.
  - destruct (deliver_invariant event p Hs Hb Ha) as (Hs' & Hb' & Ha').
    by apply IH.
Qed.

Lemma drain_invariant fuel p :
  sound env dependencies p →
  busy (cpus env) p →
  accounted env dependencies s0 all p →
  sound env dependencies (drain env dependencies fuel p)
  ∧ busy (cpus env) (drain env dependencies fuel p)
  ∧ accounted env dependencies s0 all (drain env dependencies fuel p).
Proof.
  revert p. induction fuel as [|fuel IH]; intros p Hs Hb Ha; [done |].
  cbn. destruct (nextEvent p) as [event|]; [|done].
  destruct (deliver_invariant event p Hs Hb Ha) as (Hs' & Hb' & Ha').
  by apply IH.
Qed.

(** *** The tasks run to their end *)

Lemma workOfTask_pos task :
  (1 ≤ workOfTask env dependencies task)%nat.
Proof.
  unfold workOfTask, workOfPackage.
  destruct task as [pkg [|pending files]]; cbn; [|lia].
  destruct (resolveTsConfigMeta env pkg dependencies); lia.
Qed.

Lemma work_run_next p :
  work env dependencies (run_next p) = work env dependencies p.
Proof.
  unfold work, run_next. destruct (queue p) as [|pkg rest] eqn:Hq.
  - by rewrite Hq.
  - cbn. rewrite fmap_app, sum_list_with_app. cbn. lia.
Qed.

(** The event that [drain] picks takes one unit of work away. *)
Lemma work_deliver event p :
  sound env dependencies p →
  nextEvent p = Some event →
  S (work env dependencies (deliver env dependencies event p))
  = work env dependencies p.
Proof.
  intros (Hrejected & Hqueue & Hrunning) Hnext. unfold deliver.
  rewrite decide_False by (rewrite Hrejected; by intros [? ?]).
  unfold nextEvent in Hnext.
  destruct (running p) as [|[pkg phase] rest] eqn:Hrun; [done |].
  apply Forall_cons in Hrunning as [[Hpkg Hwrites] _].
  destruct phase as [|[|tsconfig pending] files]; simplify_eq/=.
  - destruct Hpkg as (files & Hresolve & _). rewrite Hresolve.
    unfold work. cbn. rewrite Hrun. cbn.
    assert (workOfPackage env dependencies pkg = (2 + length files)%nat)
      as -> by (unfold workOfPackage; by rewrite Hresolve).
    lia.
  - unfold settle. rewrite work_run_next. unfold work. cbn.
    rewrite Hrun. cbn. lia.
  - apply Forall_cons in Hwrites as [-> _].
    unfold work. cbn. rewrite Hrun. cbn. lia.
Qed.

Lemma drain_complete fuel p :
  sound env dependencies p →
  busy (cpus env) p →
  accounted env dependencies s0 all p →
  (work env dependencies p ≤ fuel)%nat →
  running (drain env dependencies fuel p) = [].
Proof.
  revert p. induction fuel as [|fuel IH]; intros p Hs Hb Ha Hwork.
  - cbn. destruct (running p) as [|task rest] eqn:Hrun; [done |].
    unfold work in Hwork. rewrite Hrun in Hwork. cbn in Hwork.
    pose proof (workOfTask_pos task). lia.
  - cbn. destruct (nextEvent p) as [event|] eqn:Hnext.
    + destruct (deliver_invariant event p Hs Hb Ha) as (Hs' & Hb' & Ha').
      apply IH; [done..|].
      pose proof (work_deliver event p Hs Hnext). lia.
    + unfold nextEvent in Hnext.
      by destruct (running p) as [|[pkg [|[|tsconfig pending] files]] rest].
Qed.

(** *** The pool after the packages have been handed to the limiter *)

Lemma enqueued_invariant p :
  sound env dependencies p →
  accounted env dependencies s0 all p →
  sound env dependencies (enqueued (cpus env) p)
  ∧ accounted env dependencies s0 all (enqueued (cpus env) p).
Proof.
  intros Hs Ha. unfold enqueued. case_decide; [|done].
  split; [by apply run_next_sound | by apply run_next_accounted].
Qed.

Lemma enqueued_counts n k p :
  bounded (cpus env) p →
  (S k ≤ n)%nat →
  length (running p) = (k `min` cpus env)%nat →
  length (queue p) = (n - k `min` cpus env)%nat →
  length (running (enqueued (cpus env) p)) = (S k `min` cpus env)%nat
  ∧ length (queue (enqueued (cpus env) p)) = (n - S k `min` cpus env)%nat.
Proof.
  intros [Hcount Hle] Hk Hrunning Hqueue. unfold enqueued, run_next.
  case_decide as Hlt.
  - destruct (queue p) as [|pkg rest]; cbn [length] in Hqueue; [lia |].
    cbn [running queue]. rewrite length_app. cbn [length]. lia.
  - lia.
Qed.

Lemma startPool_counts packages s k :
  (k ≤ length packages)%nat →
  let p :=
    Nat.iter k (enqueued (cpus env))
      {| queue := packages; activeCount := 0; running := [];
         references := []; state := s; rejected := None |} in
  bounded (cpus env) p
  ∧ length (running p) = (k `min` cpus env)%nat
  ∧ length (queue p) = (length packages - k `min` cpus env)%nat.
Proof.
  induction k as [|k IH]; intros Hk; cbn.
  - split_and!; [split; cbn; lia | lia | lia].
  - destruct IH as (Hb & Hr & Hq); [lia |].
    split; [by apply enqueued_bounded |].
    by apply (enqueued_counts (length packages) k).
Qed.

Lemma startPool_invariant :
  (0 < cpus env)%nat →
  Forall (succeeds env dependencies) all →
  let p := startPool (cpus env) all s0 in
  sound env dependencies p
  ∧ busy (cpus env) p
  ∧ accounted env dependencies s0 all p.
Proof.
  intros Hcpus Hall p.
  assert (sound env dependencies p ∧ accounted env dependencies s0 all p)
    as [Hs Ha].
  { subst p. unfold startPool. generalize (length all) as n.
    induction n as [|n [IHs IHa]]; cbn.
    - split.
      + split_and!; cbn; [done | done | constructor].
      + split; [exists []; split; cbn |]; cbn.
        * by rewrite app_nil_r.
        * done.
        * done.
    - by apply enqueued_invariant. }
  split_and!; [done | | done].
  destruct (startPool_counts all s0 (length all) (le_n _)) as (_ & Hr & Hq).
  fold (startPool (cpus env) all s0) in Hr, Hq. fold p in Hr, Hq.
  unfold busy.
  destruct (decide (length all ≤ cpus env)%nat).
  - left. apply length_zero_iff_nil. lia.
  - right. lia.
Qed.

(** Whatever the event loop delivers, the pool ends with every task
    settled, every file written and every reference pushed. *)
Lemma finalPool_complete events :
  (0 < cpus env)%nat →
  Forall (succeeds env dependencies) all →
  let p := finalPool env dependencies all events s0 in
  rejected p = None
  ∧ (∃ done,
       written (state p) = written s0 ++ (writeOf <$> done)
       ∧ done ≡ₚ allTsConfigFiles env dependencies all)
  ∧ references p ≡ₚ all ≫= referencesOfPackage env dependencies.
Proof.
  intros Hcpus Hall p.
  destruct (startPool_invariant Hcpus Hall) as (Hs & Hb & Ha).
  destruct (runPool_invariant events _ Hs Hb Ha) as (Hs' & Hb' & Ha').
  subst p. unfold finalPool. cbv zeta.
  set (p' := runPool env dependencies events (startPool (cpus env) all s0))
    in *.
  destruct (drain_invariant (work env dependencies p') p' Hs' Hb' Ha')
    as (Hs'' & Hb'' & Ha'').
  pose proof (drain_complete (work env dependencies p') p' Hs' Hb' Ha'
                (le_n _)) as Hrunning.
  set (p := drain env dependencies (work env dependencies p') p') in *.
  assert (queue p = []) as Hqueue.
  { destruct Hb'' as [? | Hfull]; [done |]. rewrite Hrunning in Hfull.
    cbn in Hfull. lia. }
  destruct Ha'' as [(done & Hwritten & Hperm) Hperm'].
  rewrite Hrunning, Hqueue in Hperm, Hperm'. cbn in Hperm, Hperm'.
  rewrite !app_nil_r in Hperm, Hperm'.
  split_and!; [apply Hs'' | by exists done | done].
Qed.

End pool.

(** *** Sorting the references *)

Section sorting.
Context (compare : string → string → Z).

Lemma insertSorted_Permutation x l : insertSorted compare x l ≡ₚ x :: l.
Proof.
  induction l as [|y l IH]; cbn; [done |].
  case_decide; [done |]. rewrite IH. apply Permutation_swap.
Qed.

Lemma sortReferences_Permutation l : sortReferences compare l ≡ₚ l.
Proof.
  induction l as [|x l IH]; cbn; [done |].
  by rewrite insertSorted_Permutation, IH.
Qed.

(** The strings that are sorted, on which [compare] is a total order. *)
Context (paths : list string).
Context (compare_total :
           ∀ a b, a ∈ paths → b ∈ paths →
                  compare_le compare a b ∨ compare_le compare b a).
Context (compare_trans :
           ∀ a b c, a ∈ paths → b ∈ paths → c ∈ paths →
                    compare_le compare a b → compare_le compare b c →
                    compare_le compare a c).
Context (compare_antisymm :
           ∀ a b, a ∈ paths → b ∈ paths →
                  compare_le compare a b → compare_le compare b a → a = b).

Lemma insertSorted_HdRel y x l :
  compare_le compare y x →
  HdRel (compare_le compare) y l →
  HdRel (compare_le compare) y (insertSorted compare x l).
Proof.
  intros Hyx Hl. destruct l as [|z l]; cbn; [by constructor |].
  case_decide; constructor; [done |]. by inv Hl.
Qed.

Lemma insertSorted_Sorted x l :
  x ∈ paths → l ⊆ paths →
  Sorted (compare_le compare) l →
  Sorted (compare_le compare) (insertSorted compare x l).
Proof.
  intros Hx Hl. induction 1 as [|y l Hsorted IH Hy]; cbn.
  - by repeat constructor.
  - case_decide as Hxy.
    + constructor; [by constructor | by constructor].
    + constructor; [apply IH; set_solver |].
      apply insertSorted_HdRel; [|done].
      destruct (compare_total x y); [done | set_solver | done | done].
Qed.

Lemma sortReferences_Sorted l :
  l ⊆ paths → Sorted (compare_le compare) (sortReferences compare l).
Proof.
  induction l as [|x l IH]; intros Hl; cbn; [constructor |].
  apply insertSorted_Sorted; [set_solver | | apply IH; set_solver].
  intros y Hy. change (y ∈ sortReferences compare l) in Hy.
  rewrite sortReferences_Permutation in Hy. set_solver.
Qed.

(** In a sorted list of paths, every path is below the ones after it. *)
Lemma Sorted_paths_StronglySorted l :
  l ⊆ paths → Sorted (compare_le compare) l →
  StronglySorted (compare_le compare) l.
Proof.
  intros Hl. induction 1 as [|x l Hsorted IH Hx]; constructor.
  - apply IH. set_solver.
  - assert (StronglySorted (compare_le compare) l) as Hstrong
      by (apply IH; set_solver).
    clear IH Hsorted. induction Hstrong as [|y l Hstrong IH Hy]; [done |].
    apply HdRel_inv in Hx. constructor; [done |].
    apply IH.
    { intros w Hw. apply Hl.
      apply elem_of_cons in Hw as [-> | Hw]; [left | by do 2 right]. }
    destruct l as [|z l]; constructor.
    apply Forall_cons in Hy as [Hyz _].
    apply (compare_trans x y z); [set_solver.. | done | done].
Qed.

(** Two sorted lists of the same paths are the same list. *)
Lemma StronglySorted_paths_unique l1 l2 :
  l1 ⊆ paths →
  StronglySorted (compare_le compare) l1 →
  StronglySorted (compare_le compare) l2 →
  l1 ≡ₚ l2 → l1 = l2.
Proof.
  intros Hl1 Hsorted1. revert l2 Hl1.
  induction Hsorted1 as [|x l1 Hsorted1 IH Hx]; intros l2 Hl1 Hsorted2 Hperm.
  - by apply Permutation_nil_l in Hperm.
  - destruct Hsorted2 as [|y l2 Hsorted2 Hy].
    { by apply Permutation_nil_r in Hperm. }
    assert (x = y) as ->.
    { assert (x ∈ y :: l2) as Hxin by (rewrite <- Hperm; left).
      assert (y ∈ x :: l1) as Hyin by (rewrite Hperm; left).
      apply elem_of_cons in Hxin as [? | Hxin]; [done |].
      apply elem_of_cons in Hyin as [? | Hyin]; [done |].
      rewrite Forall_forall in Hx, Hy.
      apply compare_antisymm; [set_solver | set_solver | auto | auto]. }
    f_equal. apply IH; [set_solver | done |].
    by apply (inj (cons y)).
Qed.

(** The sorted list does not depend on the order of what is sorted. *)
Lemma sortReferences_unique l1 l2 :
  l1 ⊆ paths → l1 ≡ₚ l2 →
  sortReferences compare l1 = sortReferences compare l2.
Proof.
  intros Hl1 Hperm.
  assert (l2 ⊆ paths) as Hl2 by (intros x Hx; rewrite <- Hperm in Hx; auto).
  assert (sortReferences compare l1 ⊆ paths) as Hsorted1.
  { intros x Hx. rewrite sortReferences_Permutation in Hx. auto. }
  assert (sortReferences compare l2 ⊆ paths) as Hsorted2.
  { intros x Hx. rewrite sortReferences_Permutation in Hx. auto. }
  apply StronglySorted_paths_unique; [done | | |].
  - by apply Sorted_paths_StronglySorted, sortReferences_Sorted.
  - by apply Sorted_paths_StronglySorted, sortReferences_Sorted.
  - by rewrite !sortReferences_Permutation.
Qed.

End sorting.

(** *** The files on disk *)

Lemma disk_after_app disk l1 l2 :
  disk_after disk (l1 ++ l2) = disk_after (disk_after disk l1) l2.
Proof. apply foldl_app. Qed.

(** Writes to distinct files can be made in any order. *)
Lemma disk_after_Permutation disk (l l' : list (string * FileContent)) :
  NoDup l.*1 → l ≡ₚ l' → disk_after disk l = disk_after disk l'.
Proof.
  intros Hnd Hperm. revert disk.
  induction Hperm as [|x l l' Hperm IH|x y l|l l' l'' H1 IH1 H2 IH2];
    intros disk.
  - done.
  - cbn. apply IH. rewrite fmap_cons in Hnd. by apply NoDup_cons in Hnd as [_ ?].
  - cbn. rewrite !fmap_cons in Hnd.
    apply NoDup_cons in Hnd as [Hne _]. rewrite not_elem_of_cons in Hne.
    destruct Hne as [Hne _]. f_equal. apply insert_insert_ne.
    first [exact Hne | intros Heq; apply Hne; by rewrite Heq].
  - rewrite IH1 by done. apply IH2. by rewrite <- H1.
Qed.

#[local] Arguments finalPool : simpl never.

(** *** The generated files *)

(** A property of the pairs, or of the triples, of the strings of a list
    holds when it holds of every string of the list with every other. *)
Lemma Forall_pairs (P : string → string → Prop) (l : list string) :
  Forall (λ a, Forall (P a) l) l → ∀ a b, a ∈ l → b ∈ l → P a b.
Proof.
  rewrite Forall_forall. intros H a b Ha Hb.
  specialize (H a Ha). rewrite Forall_forall in H. auto.
Qed.

Lemma Forall_triples (P : string → string → string → Prop) (l : list string) :
  Forall (λ a, Forall (λ b, Forall (P a b) l) l) l →
  ∀ a b c, a ∈ l → b ∈ l → c ∈ l → P a b c.
Proof.
  rewrite Forall_forall. intros H a b c Ha Hb Hc.
  specialize (H a Ha). rewrite Forall_forall in H.
  specialize (H b Hb). rewrite Forall_forall in H. auto.
Qed.

(** C6, as amended: the package tasks do share state, the array
    [references] and the list [filesToPrettify], which they fill in the
    order in which they complete. Yet when nothing fails, the tasks write
    to distinct files and [localeCompare] is a total order on the paths of
    the references (any two of them are comparable, the comparison is
    transitive on them, and two of them that compare as equal are the same
    path), the generator ends normally whatever the event loop delivers, and
    the files on disk are the same for every order: the files of every
    package, and the root [tsconfig.json] with the references of all the
    packages, sorted. Nothing is asked of [localeCompare] on other
    strings. *)
Theorem tsconfig_files_independent_of_order env packages dependencies s :
  let paths := packages ≫= referencesOfPackage env dependencies in
  getAllDependencies env false = Ok packages →
  getTypedPackagesWithPath env = Ok dependencies →
  (0 < cpus env)%nat →
  Forall (succeeds env dependencies) packages →
  writeJSON_error env (paths.rootTsconfig env) = None →
  NoDup (filepath <$> allTsConfigFiles env dependencies packages) →
  (∀ a b, a ∈ paths → b ∈ paths →
          localeCompare env a b ≤ 0 ∨ localeCompare env b a ≤ 0) →
  (∀ a b c, a ∈ paths → b ∈ paths → c ∈ paths →
            localeCompare env a b ≤ 0 → localeCompare env b c ≤ 0 →
            localeCompare env a c ≤ 0) →
  (∀ a b, a ∈ paths → b ∈ paths →
          localeCompare env a b ≤ 0 → localeCompare env b a ≤ 0 → a = b) →
  ∃ sorted,
    Sorted (compare_le (localeCompare env)) sorted
    ∧ sorted ≡ₚ paths
    ∧ ∀ events,
        let result := generatePackageTsConfigsAt env events s in
        result.1 = Normal ()
        ∧ (∃ done,
             done ≡ₚ allTsConfigFiles env dependencies packages
             ∧ written result.2
               = written s
                 ++ (writeOf <$> done)
                 ++ [(paths.rootTsconfig env,
                      JsonFile (rootTsconfigJson sorted))])
        ∧ ∀ disk,
            disk_after disk (written result.2)
            = disk_after disk
                (written s
                 ++ (writeOf <$> allTsConfigFiles env dependencies packages)
                 ++ [(paths.rootTsconfig env,
                      JsonFile (rootTsconfigJson sorted))]).
Proof.
  intros paths Hdeps Htyped Hcpus Hall Hroot Hnd Htotal Htrans Hanti.
  exists (sortReferences (localeCompare env) paths).
  split_and!.
  - by apply (sortReferences_Sorted (localeCompare env) paths).
  - apply sortReferences_Permutation.
  - intros events result. subst result.
    unfold generatePackageTsConfigsAt. run_script.
    rewrite Hdeps. run_script. rewrite Htyped. run_script.
    rewrite decide_False by lia.
    match goal with
    | |- context [finalPool env dependencies packages events ?s'] =>
        destruct (finalPool_complete env dependencies s' packages events
                    Hcpus Hall)
          as (Hrejected & (done & Hwritten & Hdone) & Hrefs);
        set (p := finalPool env dependencies packages events s') in *
    end.
    cbn [written] in Hwritten.
    rewrite Hrejected. unfold writeJSON. rewrite Hroot.
    unfold record_write, prettify_later. cbn.
    fold paths in Hrefs.
    assert (sortReferences (localeCompare env) (references p)
            = sortReferences (localeCompare env) paths) as ->.
    { symmetry.
      by apply (sortReferences_unique (localeCompare env) paths
                  Htotal Htrans Hanti). }
    rewrite Hwritten, <- app_assoc.
    split_and!; [done | by exists done |].
    intros disk. rewrite !disk_after_app. f_equal.
    apply disk_after_Permutation; [|by rewrite Hdone].
    rewrite <- list_fmap_compose.
    change (fst ∘ writeOf) with filepath. by rewrite Hdone.
Qed.

(** The witness of C6: in the example workspace, whether the task of
    [remirror] or the task of [@remirror/pm] completes first, the generator
    ends normally and leaves the same files on disk. *)
Lemma tsconfig_files_independent_of_order_witness :
  let env := Example.env (Example.flags false false false) in
  let first := generatePackageTsConfigsAt env [] initialState in
  let second :=
    generatePackageTsConfigsAt env
      [Resolved 1; FileWritten 1 0; FileWritten 1 0; FileWritten 1 0;
       TaskDone 1] initialState in
  first.1 = Normal () ∧ second.1 = Normal ()
  ∧ ∀ disk, disk_after disk (written first.2)
            = disk_after disk (written second.2).
Proof.
  intros env first second.
  destruct (tsconfig_files_independent_of_order env
              [Example.remirrorPkg; Example.pmPkg; Example.supportPkg]
              [("remirror", "/repo/packages/remirror")] initialState)
    as (sorted & _ & _ & Hevents).
  - reflexivity.
  - reflexivity.
  - cbn. lia.
  - repeat constructor;
      (eexists; split;
       [vm_compute; reflexivity | apply Forall_forall; intros; reflexivity]).
  - reflexivity.
  - refine (bool_decide_unpack _ _). vm_compute. exact I.
  - apply (Forall_pairs
             (λ a b, localeCompare env a b ≤ 0 ∨ localeCompare env b a ≤ 0)).
    refine (bool_decide_unpack _ _). vm_compute. exact I.
  - apply (Forall_triples
             (λ a b c, localeCompare env a b ≤ 0 → localeCompare env b c ≤ 0 →
                       localeCompare env a c ≤ 0)).
    refine (bool_decide_unpack _ _). vm_compute. exact I.
  - apply (Forall_pairs
             (λ a b, localeCompare env a b ≤ 0 → localeCompare env b a ≤ 0 →
                     a = b)).
    refine (bool_decide_unpack _ _). vm_compute. exact I.
  - destruct (Hevents []) as (Hfirst & _ & Hdisk).
    destruct (Hevents [Resolved 1; FileWritten 1 0; FileWritten 1 0;
                       FileWritten 1 0; TaskDone 1])
      as (Hsecond & _ & Hdisk').
    split_and!; [exact Hfirst | exact Hsecond |].
    intros disk. etrans; [apply Hdisk | symmetry; apply Hdisk'].
Defined.

(** C6, as stated, fails: the tasks share the array [references] and the
    list [filesToPrettify]. When the task of [@remirror/pm] completes
    before the task of [remirror], its references and its files come first
    in both, and the files are written in another order. *)
Lemma package_tasks_share_state :
  let env := Example.env (Example.flags false false false) in
  let packages := [Example.remirrorPkg; Example.pmPkg; Example.supportPkg] in
  let dependencies := [("remirror", "/repo/packages/remirror")] in
  let pmFirst :=
    [Resolved 1; FileWritten 1 0; FileWritten 1 0; FileWritten 1 0;
     TaskDone 1] in
  references (finalPool env dependencies packages [] initialState)
  = [ "packages/remirror/src"; "packages/remirror/__tests__";
      "packages/remirror__pm/src"; "packages/remirror__pm/__tests__" ]
  ∧ references (finalPool env dependencies packages pmFirst initialState)
    = [ "packages/remirror__pm/src"; "packages/remirror__pm/__tests__";
        "packages/remirror/src"; "packages/remirror/__tests__" ]
  ∧ filesToPrettify (generatePackageTsConfigsAt env [] initialState).2
    ≠ filesToPrettify (generatePackageTsConfigsAt env pmFirst initialState).2
  ∧ (written (generatePackageTsConfigsAt env [] initialState).2).*1
    ≠ (written (generatePackageTsConfigsAt env pmFirst initialState).2).*1.
Proof.
  split_and!; [vm_compute; reflexivity | vm_compute; reflexivity | |].
  - vm_compute. discriminate.
  - vm_compute. discriminate.
Qed.

(** * Further properties of the generators and of the workflow *)

(** ** Relative paths *)

(** X1: [prefixRelativePath] leaves the empty path and the paths that begin
    with a dot as they are, and puts [./] before any other path. Its result
    is empty only for the empty path and begins with a dot otherwise, and
    applying it twice is applying it once. *)
Theorem prefixRelativePath_shape p :
  (prefixRelativePath p = "" ↔ p = "")
  ∧ (p ≠ "" → String.prefix "." (prefixRelativePath p) = true)
  ∧ (String.prefix "." p = true → prefixRelativePath p = p)
  ∧ (p ≠ "" → String.prefix "." p = false → prefixRelativePath p = "./" +:+ p)
  ∧ prefixRelativePath (prefixRelativePath p) = prefixRelativePath p.
Proof.
  unfold prefixRelativePath. destruct p as [|c p].
  - split_and!; done.
  - rewrite decide_False by done.
    destruct (String.prefix "." (String c p)) eqn:Hdot.
    + rewrite decide_False by done. rewrite Hdot. split_and!; done.
    + split_and!; done.
Qed.

(** X2: [makeRelative] agrees with [prefixRelativePath] on every path but
    the empty one, which it turns into [./]; its result always begins with
    a dot, and applying it twice is applying it once. *)
Theorem makeRelative_shape p :
  makeRelative p = (if decide (p = "") then "./" else prefixRelativePath p)
  ∧ String.prefix "." (makeRelative p) = true
  ∧ makeRelative (makeRelative p) = makeRelative p.
Proof.
  unfold makeRelative, prefixRelativePath. destruct p as [|c p].
  - split_and!; done.
  - rewrite !decide_False by done.
    destruct (String.prefix "." (String c p)) eqn:Hdot.
    + rewrite Hdot. split_and!; done.
    + split_and!; done.
Qed.

(** ** The browser path *)

(** X3: the browser path of a package is its [browser] field when that is
    a string; when the field is a map, it is the replacement the map gives
    for [./] followed by the [module] field if that replacement is a string,
    and the [module] field if it is not; and it is the [module] field when
    there is no [browser] field. So a package with a [module] field always
    has a browser path, and a replacement that is not a string, such as
    [false], is never returned. *)
Theorem getBrowserPath_sources pkg :
  (∀ p, getBrowserPath pkg = Some p →
     browser pkg = Some (BrowserPath p)
     ∨ (∃ m, browser pkg = Some (BrowserMap m)
             ∧ Obj.get ("./" +:+ propertyKey (module pkg)) m = Some (JStr p))
     ∨ module pkg = Some p)
  ∧ (is_Some (module pkg) → is_Some (getBrowserPath pkg))
  ∧ (∀ p, browser pkg = Some (BrowserPath p) → getBrowserPath pkg = Some p)
  ∧ (∀ m p, browser pkg = Some (BrowserMap m) →
       Obj.get ("./" +:+ propertyKey (module pkg)) m = Some (JStr p) →
       getBrowserPath pkg = Some p)
  ∧ (∀ m, browser pkg = Some (BrowserMap m) →
       (∀ p, Obj.get ("./" +:+ propertyKey (module pkg)) m ≠ Some (JStr p)) →
       getBrowserPath pkg = module pkg)
  ∧ (browser pkg = None → getBrowserPath pkg = module pkg).
Proof.
  unfold getBrowserPath. split_and!.
  - intros p. destruct (browser pkg) as [[q|m]|]; [intros [= ->]; auto | |auto].
    destruct (Obj.get _ m) as [[| |q| |]|] eqn:Hget; eauto.
    intros [= ->]. eauto.
  - intros [q Hq]. rewrite Hq.
    destruct (browser pkg) as [[?|m]|]; [eauto | |eauto].
    destruct (Obj.get _ m) as [[| |?| |]|]; eauto.
  - by intros p ->.
  - by intros m p -> ->.
  - intros m -> Hnot.
    destruct (Obj.get _ m) as [[| |q| |]|] eqn:Hget; try done.
    by destruct (Hnot q).
  - by intros ->.
Qed.

(** ** Entries of the exports object *)

Lemma set_same {V} k (v : V) o : Obj.get k o = Some v → Obj.set k v o = o.
Proof.
  induction o as [|[k' v'] o IH]; cbn; [done |].
  destruct (decide (k = k')) as [->|Hne].
  - by intros [= ->].
  - intros H. by rewrite IH.
Qed.


Lemma app_not_empty (s t : string) : t ≠ "" → s +:+ t ≠ "".
Proof. by destruct s, t. Qed.

(** [path.normalize] and [path.join] never return the empty string. *)
Lemma normalize_not_empty p : path.normalize p ≠ "".
Proof.
  unfold path.normalize. case_decide; [done |]. cbv zeta.
  case_decide as Hbody.
  - by destruct (path.isAbsolute p), (path.endsWithSep p).
  - destruct (path.isAbsolute p), (path.endsWithSep p); try done.
    by apply app_not_empty.
Qed.

Lemma join_not_empty args : path.join args ≠ "".
Proof.
  unfold path.join. destruct (filter _ args); [done |].
  apply normalize_not_empty.
Qed.

(** The value of a condition: the source joined to the path of the entry,
    when there is a source. *)
Lemma joined_begins_with_dot key (source : option string) v :
  prefixRelativePath <$> ((λ p, path.join [key; p]) <$> truthy source) = Some v →
  String.prefix "." v = true.
Proof.
  destruct (truthy source) as [p|]; [|done]. intros [= <-].
  unfold prefixRelativePath.
  rewrite decide_False by apply join_not_empty.
  by destruct (String.prefix "." (path.join [key; p])) eqn:Hdot.
Qed.

Lemma get_omitUndefined (P : string → Prop) l condition value :
  Forall (λ kv : string * option string, ∀ v, kv.2 = Some v → P v) l →
  Obj.get condition (omitUndefined l) = Some value →
  condition ∈ l.*1 ∧ ∃ p, value = JStr p ∧ P p.
Proof.
  unfold omitUndefined.
  induction 1 as [|[k [v|]] l Hkv _ IH]; cbn; [done | |].
  - case_decide as Hk.
    + intros [= <-]. subst k. split; [left | eauto].
    + intros [Hin Hp]%IH. split; [by right | done].
  - intros [Hin Hp]%IH. split; [by right | done].
Qed.

(** X4: every condition of an entry of the exports object is one of
    [import], [require], [browser], [types] and [default], and its value is
    a path that begins with a dot. *)
Theorem export_conditions_are_relative_paths packageJson filepath json
    entry condition value :
  Obj.get (if decide (filepath = "") then "." else filepath)
    (exportsObjectOf (augmentExportsObject packageJson filepath json))
  = Some (JObj entry) →
  Obj.get condition entry = Some value →
  condition ∈ ["import"; "require"; "browser"; "types"; "default"]
  ∧ ∃ p, value = JStr p ∧ String.prefix "." p = true.
Proof.
  pose proof (augmentExportsObject_entry packageJson filepath json) as H.
  cbv zeta in H. intros Heq Hget. rewrite H in Heq.
  match type of Heq with
  | Some (JObj (omitUndefined ?l)) = _ =>
      assert (entry = omitUndefined l) as -> by congruence;
      apply (get_omitUndefined (λ p, String.prefix "." p = true) l) in Hget;
      [done |]
  end.
  repeat (apply Forall_cons; split;
          [intros v; cbn [snd]; apply joined_begins_with_dot |]).
  constructor.
Qed.

(** The witness of X4: the [browser] condition of the entry point [dom]
    of the package [remirror]. *)
Lemma export_conditions_are_relative_paths_witness :
  ∃ p, Obj.get "browser"
         [ ("require", JStr "./dom/dist/remirror-dom.cjs.js");
           ("browser", JStr "./dom/dist/remirror.browser.esm.js") ]
       = Some (JStr p)
       ∧ String.prefix "." p = true.
Proof.
  destruct (export_conditions_are_relative_paths
              (set_exports (Some (JObj [])) Example.remirrorJson)
              "./dom" Example.domJson
              [ ("require", JStr "./dom/dist/remirror-dom.cjs.js");
                ("browser", JStr "./dom/dist/remirror.browser.esm.js") ]
              "browser" (JStr "./dom/dist/remirror.browser.esm.js")
              eq_refl eq_refl) as [_ (p & Hp & Hdot)].
  exists p. by rewrite <- Hp.
Defined.

(** X5: adding the entry of a sub-package changes no other entry of the
    exports object: every key other than the path of the sub-package and,
    for the root path, other than the two fixed mappings, keeps its
    value. *)
Theorem augmentExportsObject_keeps_other_entries packageJson filepath json k :
  let key := if decide (filepath = "") then "." else filepath in
  k ≠ key →
  (key = "." → k ≠ "./package.json" ∧ k ≠ "./types/*") →
  Obj.get k (exportsObjectOf (augmentExportsObject packageJson filepath json))
  = Obj.get k (exportsObjectOf packageJson).
Proof.
  intros key Hk Hroot. unfold augmentExportsObject.
  rewrite exportsObjectOf_set_exports. fold key.
  fold (exportsObjectOf packageJson).
  destruct (decide (key = ".")) as [Hkey|Hkey].
  - destruct (Hroot Hkey) as [H1 H2].
    rewrite !get_set_ne by done. done.
  - by rewrite get_set_ne.
Qed.

(** The witness of X5: the entry of [./core] is not changed by the entry
    of the root path. *)
Lemma augmentExportsObject_keeps_other_entries_witness :
  Obj.get "./core"
    (exportsObjectOf
       (augmentExportsObject
          (augmentExportsObject
             (set_exports (Some (JObj [])) Example.remirrorJson)
             "./core" Example.coreJson)
          "" Example.remirrorJson))
  = Obj.get "./core"
      (exportsObjectOf
         (augmentExportsObject
            (set_exports (Some (JObj [])) Example.remirrorJson)
            "./core" Example.coreJson)).
Proof.
  apply augmentExportsObject_keeps_other_entries; [done |].
  intros _. done.
Defined.

Lemma getBrowserPath_set_exports value p :
  getBrowserPath (set_exports value p) = getBrowserPath p.
Proof. reflexivity. Qed.

Lemma augmentExportsObject_unfold packageJson filepath json :
  augmentExportsObject packageJson filepath json
  = set_exports
      (Some (JObj (exportsObjectOf
                     (augmentExportsObject packageJson filepath json))))
      packageJson.
Proof. reflexivity. Qed.

(** X6: when two sub-packages have the same path, the entry of the later
    one replaces the entry of the earlier one; and adding the entry of the
    same sub-package a second time changes nothing. *)
Theorem augmentExportsObject_again packageJson filepath json :
  (∀ json',
     Obj.get (if decide (filepath = "") then "." else filepath)
       (exportsObjectOf
          (augmentExportsObject
             (augmentExportsObject packageJson filepath json') filepath json))
     = Obj.get (if decide (filepath = "") then "." else filepath)
         (exportsObjectOf (augmentExportsObject packageJson filepath json)))
  ∧ augmentExportsObject (augmentExportsObject packageJson filepath json)
      filepath json
    = augmentExportsObject packageJson filepath json.
Proof.
  split.
  - intros json'. by rewrite !augmentExportsObject_entry.
  - rewrite (augmentExportsObject_unfold packageJson filepath json) at 1.
    unfold augmentExportsObject at 1.
    rewrite getBrowserPath_set_exports. cbn [exports set_exports].
    set (key := if decide (filepath = "") then "." else filepath).
    set (o := exportsObjectOf (augmentExportsObject packageJson filepath json)).
    set (entry := JObj (omitUndefined _)).
    assert (Obj.get key o = Some entry) as Hentry
      by exact (augmentExportsObject_entry packageJson filepath json).
    rewrite (set_same key) by done.
    assert ((if decide (key = ".")
             then Obj.set "./types/*" (JStr "./dist/declarations/src/*.d.ts")
                    (Obj.set "./package.json" (JStr "./package.json") o)
             else o) = o) as ->.
    { case_decide as Hkey; [|done].
      destruct (exports_root_mappings packageJson filepath json) as [Hp Ht].
      { subst key. case_decide; auto. }
      rewrite (set_same "./package.json") by done.
      by rewrite set_same. }
    reflexivity.
Qed.

(** X7: when the [exports] field of the package holds no object (it is
    missing, or a string), the first entry starts a new object: it holds the
    path of the sub-package and, for the root path, the two fixed mappings
    after it, and nothing else. *)
Theorem augmentExportsObject_starts_object packageJson filepath json :
  isPlainObject (exports packageJson) = false →
  let key := if decide (filepath = "") then "." else filepath in
  Obj.keys (exportsObjectOf (augmentExportsObject packageJson filepath json))
  = if decide (key = ".") then ["."; "./package.json"; "./types/*"]
    else [key].
Proof.
  intros Hplain key. unfold augmentExportsObject.
  rewrite exportsObjectOf_set_exports. fold key.
  assert (match exports packageJson with
          | Some (JObj o) => o
          | _ => []
          end = []) as ->.
  { by destruct (exports packageJson) as [[| | | |]|]. }
  destruct (decide (key = ".")) as [->|Hkey]; reflexivity.
Qed.

(** The witness of X7: a package whose [exports] field is a string. *)
Lemma augmentExportsObject_starts_object_witness :
  Obj.keys
    (exportsObjectOf
       (augmentExportsObject
          (set_exports (Some (JStr "./dist/remirror-pm.esm.js")) Example.pmJson)
          "" Example.pmJson))
  = ["."; "./package.json"; "./types/*"].
Proof.
  apply (augmentExportsObject_starts_object
           (set_exports (Some (JStr "./dist/remirror-pm.esm.js"))
              Example.pmJson) "" Example.pmJson).
  reflexivity.
Defined.

(** ** The generator of exports *)

Lemma set_exports_augmentExportsObject value packageJson filepath json :
  set_exports value (augmentExportsObject packageJson filepath json)
  = set_exports value packageJson.
Proof. reflexivity. Qed.

Lemma augmentSubPackages_set_exports env location subPackages packageJson
    result value :
  augmentSubPackages env location subPackages packageJson = Ok result →
  set_exports value result = set_exports value packageJson.
Proof.
  revert packageJson.
  induction subPackages as [|subPackage rest IH]; intros packageJson.
  - by intros [= <-].
  - simpl. destruct (require env subPackage) as [subPackageJson|e]; [|done].
    simpl. intros H. by rewrite (IH _ H), set_exports_augmentExportsObject.
Qed.

(** The [package.json] generated for a package is the stored one with
    another [exports] field. *)
Lemma generatePackageExports_set_exports env (pkg : Package) result :
  generatePackageExports env pkg = Ok result →
  set_exports (exports pkg) result = packageJson pkg.
Proof.
  unfold generatePackageExports.
  destruct (globby env (location pkg)) as [subPackages|e]; [simpl | done].
  destruct (augmentSubPackages _ _ _ _) as [augmented|e] eqn:Haug;
    [simpl | done].
  intros [= <-].
  change (set_exports (exports pkg) augmented = packageJson pkg).
  rewrite (augmentSubPackages_set_exports _ _ _ _ _ (exports pkg) Haug).
  by destruct pkg as [? []].
Qed.

(** X8: the generator of exports prepares one file for each package with a
    [main] field, in the order of the packages: the [package.json] in the
    directory of the package. Its content is the stored [package.json] but
    for the [exports] field, which holds an object whose keys are distinct
    and in ascending order. *)
Theorem generateExports_files env packages acc collected :
  collectExports env packages acc = Ok collected →
  ∃ generated,
    files collected = files acc ++ generated
    ∧ Forall2
        (λ (pkg : Package) (file : string * PackageJson),
           file.1 = path.join [location pkg; "package.json"]
           ∧ set_exports (exports pkg) file.2 = packageJson pkg
           ∧ ∃ o, exports file.2 = Some (JObj o)
                  ∧ StronglySorted String.le (Obj.keys o)
                  ∧ NoDup (Obj.keys o))
        (exportable packages) generated.
Proof.
  intros (generated & Hall & _ & _ & Hfiles)%collectExports_spec.
  eexists. split; [exact Hfiles |].
  clear Hfiles. induction Hall as [|pkg packageJson pkgs jsons Hgen _ IH].
  - constructor.
  - cbn [zip zip_with fmap list_fmap]. constructor; [|exact IH].
    cbn [fst snd]. split_and!; [done | |].
    + by apply (generatePackageExports_set_exports env).
    + destruct (generatePackageExports_sorted env pkg packageJson Hgen)
        as [Hsorted Hnd].
      unfold generatePackageExports in Hgen.
      destruct (globby env (location pkg)) as [subPackages|e];
        [simpl in Hgen | done].
      destruct (augmentSubPackages _ _ _ _) as [augmented|e];
        [simpl in Hgen | done].
      injection Hgen as <-. eexists. split; [reflexivity |].
      by rewrite exportsObjectOf_set_exports in Hsorted, Hnd.
Qed.

(** The witness of X8: the files prepared in the example workspace. *)
Lemma generateExports_files_witness :
  ∃ generated,
    files Example.collected = [] ++ generated
    ∧ Forall2
        (λ (pkg : Package) (file : string * PackageJson),
           file.1 = path.join [location pkg; "package.json"]
           ∧ set_exports (exports pkg) file.2 = packageJson pkg
           ∧ ∃ o, exports file.2 = Some (JObj o)
                  ∧ StronglySorted String.le (Obj.keys o)
                  ∧ NoDup (Obj.keys o))
        [Example.remirrorPkg; Example.pmPkg] generated.
Proof.
  exact (generateExports_files (Example.env (Example.flags true true false))
           [Example.remirrorPkg; Example.pmPkg] Example.start
           Example.collected eq_refl).
Defined.

(** The loop of the generator fails exactly when the exports of one of the
    packages with a [main] field cannot be generated, with the error of the
    first such package: the exports of the packages before it have been
    generated. *)
Lemma collectExports_Err env packages acc e :
  collectExports env packages acc = Err e →
  ∃ before pkg after,
    exportable packages = before ++ pkg :: after
    ∧ Forall (λ earlier, ∃ packageJson,
                generatePackageExports env earlier = Ok packageJson) before
    ∧ generatePackageExports env pkg = Err e.
Proof.
  revert acc. unfold exportable.
  induction packages as [|pkg rest IH]; intros acc; [done |].
  simpl. destruct (truthy (main pkg)) as [m|] eqn:Hmain.
  - rewrite filter_cons_True by (rewrite Hmain; eauto).
    destruct (generatePackageExports env pkg) as [packageJson|e'] eqn:Hgen;
      simpl.
    + intros (before & pkg' & after & Heq & Hbefore & Herr)%IH.
      exists (pkg :: before), pkg', after. rewrite Heq.
      split_and!; [done | | done]. constructor; eauto.
    + intros [= ->]. eexists [], pkg, _.
      split_and!; [reflexivity | constructor | done].
  - rewrite filter_cons_False by (rewrite Hmain; by intros [? ?]).
    apply IH.
Qed.

Lemma collectExports_Ok env packages acc collected :
  collectExports env packages acc = Ok collected →
  Forall (λ pkg, ∃ packageJson, generatePackageExports env pkg = Ok packageJson)
    (exportable packages).
Proof.
  intros (generated & Hall & _)%collectExports_spec.
  induction Hall; constructor; eauto.
Qed.

(** X9: the exports of all the packages are generated before any file is
    written. When the exports of one package cannot be generated, because
    the search for its sub-packages fails or one of their [package.json]
    files cannot be loaded, the generator throws the error of the first
    such package, in the order of the workspace: the exports of every
    package with a [main] field before it can be generated. No file is
    written, none is listed for formatting, and nothing is compared. *)
Theorem generateExports_fails_before_writing env s packages pkg e :
  getAllDependencies env true = Ok packages →
  pkg ∈ exportable packages →
  generatePackageExports env pkg = Err e →
  let result := generateExports env s in
  ∃ before pkg' after e',
    exportable packages = before ++ pkg' :: after
    ∧ Forall (λ earlier, ∃ packageJson,
                generatePackageExports env earlier = Ok packageJson) before
    ∧ generatePackageExports env pkg' = Err e'
    ∧ result.1 = Throw e'
    ∧ written result.2 = written s
    ∧ filesToPrettify result.2 = filesToPrettify s
    ∧ logs result.2
      = logs s ++ [Info "Running script for package.json exports field"].
Proof.
  intros Hdeps Hin Herr result.
  destruct (collectExports env packages
              {| actual := []; expected := []; files := [] |})
    as [collected|e'] eqn:Hcollect.
  { apply collectExports_Ok in Hcollect. rewrite Forall_forall in Hcollect.
    destruct (Hcollect pkg Hin) as [packageJson Hok]. congruence. }
  destruct (collectExports_Err _ _ _ _ Hcollect)
    as (before & pkg' & after & Heq & Hbefore & Herr').
  exists before, pkg', after, e'. split_and!; [done | done | done | | | |];
    subst result; unfold generateExports; run_script;
    rewrite Hdeps; run_script; rewrite Hcollect; run_script; done.
Qed.

(** The witness of X9: the [package.json] of the second package cannot be
    loaded; the exports of the first package have been generated, and its
    [package.json] is not rewritten. *)
Lemma generateExports_fails_before_writing_witness :
  let result :=
    generateExports (Workspace.broken (Example.flags true false true))
      initialState in
  ∃ before pkg' after e',
    exportable [Example.remirrorPkg; Workspace.missingPkg]
    = before ++ pkg' :: after
    ∧ Forall (λ earlier, ∃ packageJson,
                generatePackageExports
                  (Workspace.broken (Example.flags true false true)) earlier
                = Ok packageJson) before
    ∧ generatePackageExports (Workspace.broken (Example.flags true false true))
        pkg' = Err e'
    ∧ result.1 = Throw e'
    ∧ written result.2 = written initialState
    ∧ filesToPrettify result.2 = filesToPrettify initialState
    ∧ logs result.2
      = logs initialState
        ++ [Info "Running script for package.json exports field"].
Proof.
  apply (generateExports_fails_before_writing
           (Workspace.broken (Example.flags true false true)) initialState
           [Example.remirrorPkg; Workspace.missingPkg] Workspace.missingPkg
           "Cannot find module").
  - reflexivity.
  - apply list_elem_of_In. vm_compute. tauto.
  - vm_compute. reflexivity.
Defined.

(** X10: with [--force] and without [--check], the files are rewritten
    although the generated exports are the stored ones: every prepared file
    is written, in order, its path relative to the working directory is
    listed for formatting, and no error is logged. *)
Theorem generateExports_force env s packages collected :
  getAllDependencies env true = Ok packages →
  collectExports env packages {| actual := []; expected := []; files := [] |}
  = Ok collected →
  sameOutput (actual collected) (expected collected) →
  Cli.force (cliArgs env) = true →
  Cli.check (cliArgs env) = false →
  (∀ file, file ∈ files collected → writeJSON_error env file.1 = None) →
  let result := generateExports env s in
  result.1 = Normal ()
  ∧ written result.2
    = written s
      ++ ((λ file : string * PackageJson, (file.1, PackageJsonFile file.2))
          <$> files collected)
  ∧ filesToPrettify result.2
    = filesToPrettify s
      ++ ((λ file : string * PackageJson,
             path.relative (cwd env) (cwd env) file.1) <$> files collected)
  ∧ logs result.2
    = logs s
      ++ [ Info "Running script for package.json exports field";
           Info "Checking the generated exports";
           Info "The generated exports are valid for all packages.";
           Info "Forcing update: `--force` flag applied.";
           Info "Writing updates to file system." ].
Proof.
  intros Hdeps Hcollect Hsame Hforce Hcheck Hok result.
  assert (∀ r : Completion unit * State,
            generateExports env s = r → result = r) as Hresult by done.
  unfold generateExports in Hresult. run_script in Hresult.
  rewrite Hdeps in Hresult. run_script in Hresult.
  rewrite Hcollect in Hresult. run_script in Hresult.
  rewrite decide_True in Hresult by done. run_script in Hresult.
  rewrite Hforce in Hresult. run_script in Hresult.
  rewrite Hcheck in Hresult. run_script in Hresult.
  match type of Hresult with
  | ∀ r, _ ?st = r → _ =>
      pose proof (write_files_ok env (files collected) st Hok) as Hw
  end.
  rewrite (Hresult _ Hw). cbn. split_and!; [done | done | done |].
  by rewrite <- !app_assoc.
Qed.

(** The witness of X10: in the workspace whose exports are up to date,
    [--force] rewrites the [package.json] of the package. *)
Lemma generateExports_force_witness :
  let result :=
    generateExports (Workspace.current (Example.flags true false true))
      initialState in
  result.1 = Normal ()
  ∧ (written result.2).*1 = ["/repo/packages/remirror__pm/package.json"]
  ∧ filesToPrettify result.2 = ["packages/remirror__pm/package.json"].
Proof.
  set (env := Workspace.current (Example.flags true false true)).
  destruct (collectExports env
              [Workspace.upToDate (Example.env (Example.flags true false true))
                 Example.pmPkg]
              {| actual := []; expected := []; files := [] |})
    as [collected|e] eqn:Hcollect; [|by vm_compute in Hcollect].
  destruct (generateExports_force env initialState _ collected eq_refl Hcollect)
    as (Hnormal & Hwritten & Hpretty & _).
  - vm_compute in Hcollect. injection Hcollect as <-.
    refine (bool_decide_unpack _ _). vm_compute. exact I.
  - reflexivity.
  - reflexivity.
  - reflexivity.
  - intros result. subst result. rewrite Hnormal, Hwritten, Hpretty.
    vm_compute in Hcollect. injection Hcollect as <-.
    split_and!; reflexivity.
Defined.

(** The exports generated for a package are an object. *)
Lemma generatePackageExports_object env pkg packageJson :
  generatePackageExports env pkg = Ok packageJson →
  ∃ o, exports packageJson = Some (JObj o).
Proof.
  unfold generatePackageExports.
  destruct (globby env (location pkg)) as [subPackages|e]; [simpl | done].
  destruct (augmentSubPackages _ _ _ _) as [augmented|e]; [simpl | done].
  intros [= <-]. eauto.
Qed.

(** An object is never printed as the empty string. *)
Lemma print_object_not_empty indent o : JSON.print indent (JObj o) ≠ "".
Proof. by destruct o. Qed.

Lemma get_fmap_NoDup {A V} (key : A → string) (value : A → V) l x :
  NoDup (key <$> l) → x ∈ l →
  Obj.get (key x) ((λ x, (key x, value x)) <$> l) = Some (value x).
Proof.
  induction l as [|y l IH]; intros Hnd Hin; [by apply elem_of_nil in Hin |].
  rewrite fmap_cons in Hnd. apply NoDup_cons in Hnd as [Hy Hnd].
  rewrite fmap_cons. cbn [Obj.get].
  apply elem_of_cons in Hin as [-> | Hin]; [by rewrite decide_True |].
  rewrite decide_False; [by apply IH |].
  intros Heq. apply Hy. rewrite <- Heq. by apply list_elem_of_fmap_2.
Qed.

(** X11: a package with a [main] field and without an [exports] field is
    never up to date: its stored exports are recorded as the empty string,
    and the exports generated for it are printed as a string that is not
    empty. So the generated exports never match the stored ones in a
    workspace with such a package, when the names of the packages are
    distinct. *)
Theorem missing_exports_are_out_of_date env packages collected
    (pkg : Package) :
  collectExports env packages {| actual := []; expected := []; files := [] |}
  = Ok collected →
  NoDup ((λ pkg : Package, propertyKey (name pkg)) <$> exportable packages) →
  pkg ∈ exportable packages →
  exports pkg = None →
  Obj.get (propertyKey (name pkg)) (actual collected) = Some (Some "")
  ∧ (∃ printed,
       Obj.get (propertyKey (name pkg)) (expected collected)
       = Some (Some printed)
       ∧ printed ≠ "")
  ∧ ¬ sameOutput (actual collected) (expected collected).
Proof.
  intros Hcollect Hnd Hin Hexports.
  apply collectExports_spec in Hcollect
    as (generated & Hall & Hactual & Hexpected & _).
  simpl in Hactual, Hexpected.
  rewrite (foldl_set_fresh (λ pkg : Package, propertyKey (name pkg))
             (λ pkg : Package,
                Some (default "" (JSON.stringify (exports pkg)))))
    in Hactual; [| done | intros; apply not_elem_of_nil].
  assert (length (exportable packages) = length generated) as Hlen
    by by eapply Forall2_length.
  assert ((λ entry : Package * PackageJson, propertyKey (name entry.1))
          <$> zip (exportable packages) generated
          = (λ pkg : Package, propertyKey (name pkg)) <$> exportable packages)
    as Hkeys.
  { rewrite <- (fst_zip (exportable packages) generated) at 2 by lia.
    by rewrite <- list_fmap_compose. }
  rewrite (foldl_set_fresh
             (λ entry : Package * PackageJson, propertyKey (name entry.1))
             (λ entry : Package * PackageJson,
                JSON.stringify (exports entry.2)))
    in Hexpected; [| by rewrite Hkeys | intros; apply not_elem_of_nil].
  simpl in Hactual, Hexpected.
  assert (Obj.get (propertyKey (name pkg)) (actual collected) = Some (Some ""))
    as Hstored.
  { rewrite Hactual.
    rewrite (get_fmap_NoDup (λ pkg : Package, propertyKey (name pkg))
               (λ pkg : Package,
                  Some (default "" (JSON.stringify (exports pkg)))))
      by done.
    by rewrite Hexports. }
  apply list_elem_of_lookup in Hin as [i Hi].
  destruct (Forall2_lookup_l _ _ _ _ _ Hall Hi) as (packageJson & Hj & Hgen).
  destruct (generatePackageExports_object _ _ _ Hgen) as [o Ho].
  assert (Obj.get (propertyKey (name pkg)) (expected collected)
          = Some (Some (JSON.print "" (JObj o)))) as Hgenerated.
  { rewrite Hexpected.
    rewrite (get_fmap_NoDup
               (λ entry : Package * PackageJson, propertyKey (name entry.1))
               (λ entry : Package * PackageJson,
                  JSON.stringify (exports entry.2))
               _ (pkg, packageJson)).
    - cbn [snd]. by rewrite Ho.
    - by rewrite Hkeys.
    - apply (list_elem_of_lookup_2 _ i). by rewrite lookup_zip_with, Hi, Hj. }
  split_and!; [done | |].
  - eexists. split; [done |]. apply print_object_not_empty.
  - unfold sameOutput. rewrite Forall_forall. intros Hsame.
    specialize (Hsame (propertyKey (name pkg))).
    rewrite Hstored, Hgenerated in Hsame.
    assert (Some (Some "") = Some (Some (JSON.print "" (JObj o)))) as Heq.
    { apply Hsame. apply elem_of_app. left.
      unfold Obj.keys. rewrite Hactual, <- list_fmap_compose.
      apply list_elem_of_fmap. exists pkg. split; [done |].
      by eapply list_elem_of_lookup_2. }
    injection Heq as Heq. symmetry in Heq.
    by eapply print_object_not_empty.
Qed.

(** The witness of X11: the package [@remirror/pm] of the example workspace
    has no [exports] field. *)
Lemma missing_exports_are_out_of_date_witness :
  Obj.get "@remirror/pm" (actual Example.collected) = Some (Some "")
  ∧ (∃ printed,
       Obj.get "@remirror/pm" (expected Example.collected)
       = Some (Some printed)
       ∧ printed ≠ "")
  ∧ ¬ sameOutput (actual Example.collected) (expected Example.collected).
Proof.
  apply (missing_exports_are_out_of_date
           (Example.env (Example.flags true true false))
           [Example.remirrorPkg; Example.pmPkg] Example.collected
           Example.pmPkg).
  - reflexivity.
  - refine (bool_decide_unpack _ _). vm_compute. exact I.
  - apply list_elem_of_In. vm_compute. tauto.
  - reflexivity.
Defined.

(** ** The size-limit file and the main tsconfig file *)

(** X12: the generator of the size-limit configuration writes one file, and
    lists it for formatting, under its absolute path, only once it has been
    written. When the packages cannot be listed or the file cannot be
    written, the generator throws that error, and nothing is written or
    listed for formatting. *)
Theorem generateSizeLimitConfig_outcome env s :
  let result := generateSizeLimitConfig env s in
  match getAllDependencies env false,
        writeJSON_error env (paths.sizeLimit env) with
  | Ok packages, None =>
      result.1 = Normal ()
      ∧ written result.2
        = written s
          ++ [(paths.sizeLimit env,
               SizeLimitFile (collectSizes env packages []))]
      ∧ filesToPrettify result.2
        = filesToPrettify s ++ [paths.sizeLimit env]
  | Ok _, Some e | Err e, _ =>
      result.1 = Throw e
      ∧ written result.2 = written s
      ∧ filesToPrettify result.2 = filesToPrettify s
  end.
Proof.
  intros result. subst result. unfold generateSizeLimitConfig, writeJSON.
  run_script.
  destruct (getAllDependencies env false) as [packages|e]; run_script;
    [|done].
  destruct (writeJSON_error env (paths.sizeLimit env)); run_script; done.
Qed.

(** The references of the main tsconfig file: the references given, then
    the [tsconfig.json] of each package but [@remirror/support], in the
    order of the packages. *)
Lemma mainReferences_filter env packages references :
  mainReferences env packages references
  = references
    ++ ((λ pkg : Package,
           reference
             (path.join [getRelativePathFromJson env pkg; tsconfigFileName]))
        <$> filter (λ pkg : Package, name pkg ≠ Some "@remirror/support")
              packages).
Proof.
  revert references.
  induction packages as [|pkg rest IH]; intros references;
    cbn [mainReferences].
  - by rewrite filter_nil, app_nil_r.
  - unfold excludedPackageNames. case_decide as Hin.
    + apply list_elem_of_singleton in Hin.
      rewrite filter_cons_False by (intros H; by apply H). apply IH.
    + rewrite filter_cons_True.
      * rewrite IH, <- app_assoc. done.
      * intros Heq. apply Hin. rewrite Heq. left.
Qed.

(** X13: the main tsconfig file holds the flag, no files, and the
    references: the four fixed ones, then the [tsconfig.json] of every
    package but [@remirror/support], in the order of the packages. The file
    is listed for formatting only once it has been written; when the
    packages cannot be listed or the file cannot be written, the generator
    throws that error, and nothing is written or listed. *)
Theorem generateMainTsConfig_outcome env s :
  let result := generateMainTsConfig env s in
  match getAllDependencies env false,
        writeJSON_error env (paths.mainTsconfig env) with
  | Ok packages, None =>
      result.1 = Normal ()
      ∧ written result.2
        = written s
          ++ [(paths.mainTsconfig env,
               JsonFile
                 (JObj
                    [ ("__AUTO_GENERATED__",
                       JStr "To update run: `pnpm generate:ts:experimental`");
                      ("files", JArr []);
                      ("references",
                       JArr
                         ([ reference "test/tsconfig.json";
                            reference "support/storybook/tsconfig.json";
                            reference "examples/with-next/tsconfig.json";
                            reference "support/tsconfig.all.json" ]
                          ++ ((λ pkg : Package,
                                 reference
                                   (path.join
                                      [getRelativePathFromJson env pkg;
                                       "tsconfig.json"]))
                              <$> filter
                                    (λ pkg : Package,
                                       name pkg ≠ Some "@remirror/support")
                                    packages))) ]))]
      ∧ filesToPrettify result.2
        = filesToPrettify s ++ [paths.mainTsconfig env]
  | Ok _, Some e | Err e, _ =>
      result.1 = Throw e
      ∧ written result.2 = written s
      ∧ filesToPrettify result.2 = filesToPrettify s
  end.
Proof.
  intros result. subst result. unfold generateMainTsConfig, writeJSON.
  run_script.
  destruct (getAllDependencies env false) as [packages|e]; run_script;
    [|done].
  destruct (writeJSON_error env (paths.mainTsconfig env)); run_script;
    [done |].
  rewrite mainReferences_filter. done.
Qed.

(** X14: a package whose [browser] field is the empty string has the empty
    string as its browser path, also when it has a [module] field. It then
    gets no entry in the size-limit file, and the entries of its exports
    have no [browser] condition. *)
Theorem empty_browser_field env (pkg : Package) :
  browser pkg = Some (BrowserPath "") →
  getBrowserPath pkg = Some ""
  ∧ sizeLimitOf env pkg = None
  ∧ ∀ filepath json,
      ∃ entry,
        Obj.get (if decide (filepath = "") then "." else filepath)
          (exportsObjectOf (augmentExportsObject pkg filepath json))
        = Some (JObj entry)
        ∧ Obj.get "browser" entry = None.
Proof.
  intros Hbrowser.
  assert (getBrowserPath pkg = Some "") as Hpath
    by (unfold getBrowserPath; by rewrite Hbrowser).
  split_and!; [done | |].
  - unfold sizeLimitOf. rewrite Hpath.
    by destruct (truthy (remirror pkg ≫= sizeLimit)).
  - intros filepath json.
    pose proof (augmentExportsObject_entry pkg filepath json) as H.
    cbv zeta in H. rewrite Hpath in H.
    match type of H with _ = Some (JObj ?e) => exists e end.
    split; [exact H |].
    destruct (truthy (module json)), (truthy (main json)),
      (truthy (types json)); reflexivity.
Qed.

(** The witness of X14: the package [remirror] with an empty [browser]
    field sets a size limit and has a [module] field, and gets no entry. *)
Lemma empty_browser_field_witness :
  getBrowserPath Workspace.emptyBrowserPkg = Some ""
  ∧ sizeLimitOf (Example.env (Example.flags false false false))
      Workspace.emptyBrowserPkg = None
  ∧ ∀ filepath json,
      ∃ entry,
        Obj.get (if decide (filepath = "") then "." else filepath)
          (exportsObjectOf
             (augmentExportsObject Workspace.emptyBrowserPkg filepath json))
        = Some (JObj entry)
        ∧ Obj.get "browser" entry = None.
Proof.
  exact (empty_browser_field (Example.env (Example.flags false false false))
           Workspace.emptyBrowserPkg eq_refl).
Defined.

(** ** The tsconfig files of a package *)




(** X15: a package that sets [tsconfigs] to [false] has no tsconfig files,
    and its directory is not read: the result does not depend on what
    reading it would give. For any other package, the error of reading the
    directory of the package is the error of the resolution. *)
Theorem resolveTsConfigMeta_disabled env (pkg : Package) dependencies :
  (remirror pkg ≫= tsconfigs = Some (JBool false) →
   resolveTsConfigMeta env pkg dependencies = Ok []
   ∧ succeeds env dependencies pkg)
  ∧ (remirror pkg ≫= tsconfigs ≠ Some (JBool false) →
     ∀ e, readdir env (location pkg) = Err e →
          resolveTsConfigMeta env pkg dependencies = Err e).
Proof.
  split.
  - intros Hmeta.
    assert (resolveTsConfigMeta env pkg dependencies = Ok []) as Hresolve
      by (unfold resolveTsConfigMeta; by rewrite Hmeta).
    split; [done |]. exists []. split; [done | constructor].
  - intros Hmeta e He. unfold resolveTsConfigMeta.
    destruct (remirror pkg ≫= tsconfigs) as [[| [] | | |]|]; cbn;
      rewrite ?He; done.
Qed.

(** The witness of X15: the package [@remirror/support] of the example
    workspace sets [tsconfigs] to [false]. *)
Lemma resolveTsConfigMeta_disabled_witness :
  resolveTsConfigMeta (Example.env (Example.flags false false false))
    Example.supportPkg [("remirror", "/repo/packages/remirror")]
  = Ok []
  ∧ succeeds (Example.env (Example.flags false false false))
      [("remirror", "/repo/packages/remirror")] Example.supportPkg.
Proof.
  destruct (resolveTsConfigMeta_disabled
              (Example.env (Example.flags false false false))
              Example.supportPkg [("remirror", "/repo/packages/remirror")])
    as [Hdisabled _].
  apply Hdisabled. reflexivity.
Defined.






(** The references to the dependencies of a package: one for each
    dependency that has a path among the typed packages of the workspace,
    in the order of the dependencies. *)
Lemma dependencyReferences_filter env filepath dependencies names :
  dependencyReferences env filepath dependencies names
  = (λ dependency,
       reference
         (path.join
            [path.relative (cwd env) (path.dirname filepath)
               (path.join
                  [default "" (Obj.get dependency dependencies); "src"])]))
    <$> filter (λ dependency,
                  is_Some (truthy (Obj.get dependency dependencies))) names.
Proof.
  induction names as [|dependency rest IH]; [done |].
  cbn [dependencyReferences].
  destruct (truthy (Obj.get dependency dependencies)) as [p|] eqn:Hpath.
  - rewrite filter_cons_True by (rewrite Hpath; eauto).
    rewrite fmap_cons, IH. do 4 f_equal.
    unfold truthy in Hpath.
    destruct (Obj.get dependency dependencies) as [q|]; [|done].
    by case_decide; simplify_eq.
  - rewrite filter_cons_False by (rewrite Hpath; by intros [? ?]).
    exact IH.
Qed.

(** X17: unless the package switches its [src] configuration off, the
    first of its tsconfig files is the one of its [src] folder, which is to
    be referenced. For a package other than [@remirror/support], the file
    references the [src] folder of each dependency of the package that is a
    typed package of the workspace, in the order of the dependencies, and
    no other dependency. *)
Theorem src_references_workspace_dependencies env (pkg : Package)
    dependencies foldersInDirectory :
  isFalse
    (Obj.get "src"
       (fieldsOf
          (Some (deepMerge env
                   [ DEFAULT_TSCONFIG_META;
                     orEmptyObject (remirror pkg ≫= tsconfigs) ]))))
  = false →
  name pkg ≠ Some "@remirror/support" →
  ∃ tsconfig rest fields,
    tsConfigFiles env pkg dependencies foldersInDirectory = tsconfig :: rest
    ∧ filepath tsconfig = path.join [location pkg; "src"; "tsconfig.json"]
    ∧ shouldReference tsconfig = true
    ∧ json tsconfig = JObj fields
    ∧ Obj.get "references" fields
      = Some
          (JArr
             ((λ dependency,
                 reference
                   (path.join
                      [path.relative (cwd env)
                         (path.dirname
                            (path.join [location pkg; "src"; "tsconfig.json"]))
                         (path.join
                            [default "" (Obj.get dependency dependencies);
                             "src"])]))
              <$> filter
                    (λ dependency,
                       is_Some (truthy (Obj.get dependency dependencies)))
                    (dependencyNames pkg))).
Proof.
  intros Hsrc Hname. unfold tsConfigFiles. rewrite Hsrc.
  eexists _, _, _. split; [reflexivity |].
  unfold srcTsConfig. cbn [filepath shouldReference json].
  split_and!; [done | done | reflexivity |].
  rewrite get_set_eq, decide_False by done.
  by rewrite dependencyReferences_filter.
Qed.

(** The witness of X17: of the two dependencies of the package [remirror],
    only [@remirror/pm] is a typed package of the workspace. *)
Lemma src_references_workspace_dependencies_witness :
  ∃ tsconfig rest fields,
    tsConfigFiles (Example.env (Example.flags false false false))
      Example.remirrorPkg [("@remirror/pm", "/repo/packages/remirror__pm")]
      ["src"]
    = tsconfig :: rest
    ∧ filepath tsconfig = "/repo/packages/remirror/src/tsconfig.json"
    ∧ shouldReference tsconfig = true
    ∧ json tsconfig = JObj fields
    ∧ Obj.get "references" fields
      = Some (JArr [reference "../../remirror__pm/src"]).
Proof.
  exact (src_references_workspace_dependencies
           (Example.env (Example.flags false false false))
           Example.remirrorPkg [("@remirror/pm", "/repo/packages/remirror__pm")]
           ["src"] eq_refl ltac:(discriminate)).
Defined.

(** ** The runner *)

Lemma run_next_state p : state (run_next p) = state p.
Proof. unfold run_next. by destruct (queue p). Qed.

Lemma settle_state i p : state (settle i p) = state p.
Proof. unfold settle. by rewrite run_next_state. Qed.

Lemma startPool_state concurrency packages s :
  state (startPool concurrency packages s) = s.
Proof.
  unfold startPool. generalize (length packages) as n.
  induction n as [|n IH]; [done |].
  change (Nat.iter (S n) ?f ?x) with (f (Nat.iter n f x)).
  unfold enqueued at 1. case_decide; [|done].
  by rewrite run_next_state.
Qed.

(** The package tasks do not format files. *)
Lemma deliver_formatted env dependencies event p :
  formatted (state (deliver env dependencies event p)) = formatted (state p).
Proof.
  unfold deliver. case_decide; [done |].
  destruct event as [i|i j|i].
  - destruct (running p !! i) as [[pkg [|pending files]]|]; [|done..].
    destruct (resolveTsConfigMeta env pkg dependencies); [done |].
    by rewrite settle_state.
  - destruct (running p !! i) as [[pkg [|pending files]]|]; [done| |done].
    destruct (pending !! j) as [tsconfig|]; [|done].
    destruct (writeJSON_error env (filepath tsconfig)); [|done].
    by rewrite settle_state.
  - destruct (running p !! i) as [[pkg [|[|tsconfig pending] files]]|];
      [done| |done..].
    by rewrite settle_state.
Qed.

Lemma runPool_formatted env dependencies events p :
  formatted (state (runPool env dependencies events p)) = formatted (state p).
Proof.
  revert p. induction events as [|event events IH]; intros p; [done |].
  cbn [runPool foldl]. unfold runPool in IH. by rewrite IH, deliver_formatted.
Qed.

Lemma drain_formatted env dependencies fuel p :
  formatted (state (drain env dependencies fuel p)) = formatted (state p).
Proof.
  revert p. induction fuel as [|fuel IH]; intros p; [done |].
  cbn [drain]. destruct (nextEvent p); [|done].
  by rewrite IH, deliver_formatted.
Qed.

Lemma finalPool_formatted env dependencies packages events s :
  formatted (state (finalPool env dependencies packages events s))
  = formatted s.
Proof.
  unfold finalPool. cbv zeta.
  by rewrite drain_formatted, runPool_formatted, startPool_state.
Qed.

Lemma silent_promise_all tasks : Forall silent tasks → silent (promise_all tasks).
Proof.
  induction 1 as [|task tasks Htask _ IH]; intros s; [done |].
  cbn [promise_all]. destruct (Htask s) as [Hformatted Hexit].
  destruct (task s) as [[[]|e|code] s1]; cbn in *.
  - rewrite <- Hformatted. apply IH.
  - destruct (IH s1) as [Hformatted' Hexit'].
    destruct (promise_all tasks s1) as [[[]|e'|code] s2]; cbn in *;
      (split; [congruence |]); [done | done |].
    intros code' [= <-]. by apply Hexit'.
  - split; [done |]. intros code' [= <-]. by apply Hexit.
Qed.

Lemma silent_generateSizeLimitConfig env : silent (generateSizeLimitConfig env).
Proof.
  intros s. unfold generateSizeLimitConfig, writeJSON. run_script.
  destruct (getAllDependencies env false); run_script; [|done].
  destruct (writeJSON_error env (paths.sizeLimit env)); run_script; done.
Qed.

Lemma silent_generateMainTsConfig env : silent (generateMainTsConfig env).
Proof.
  intros s. unfold generateMainTsConfig, writeJSON. run_script.
  destruct (getAllDependencies env false); run_script; [|done].
  destruct (writeJSON_error env (paths.mainTsconfig env)); run_script; done.
Qed.

Lemma silent_generatePackageTsConfigs env events :
  silent (generatePackageTsConfigsAt env events).
Proof.
  intros s. unfold generatePackageTsConfigsAt. run_script.
  destruct (getAllDependencies env false) as [packages|]; run_script;
    [|done].
  destruct (getTypedPackagesWithPath env) as [dependencies|]; run_script;
    [|done].
  case_decide; run_script; [done |].
  match goal with
  | |- context [finalPool env dependencies packages events ?s'] =>
      pose proof (finalPool_formatted env dependencies packages events s')
        as Hformatted;
      set (p := finalPool env dependencies packages events s') in *
  end.
  cbn in Hformatted.
  destruct (rejected p); cbn; [done |].
  unfold writeJSON.
  destruct (writeJSON_error env (paths.rootTsconfig env)); run_script; done.
Qed.

Lemma silent_write_files env (files : list (string * PackageJson)) :
  silent
    (promise_all
       (map (λ file : string * PackageJson,
               prettify_later (path.relative (cwd env) (cwd env) file.1);;
               writeJSON env file.1 (PackageJsonFile file.2)) files)).
Proof.
  apply silent_promise_all, Forall_forall. intros task Htask.
  apply list_elem_of_fmap in Htask as (file & -> & _).
  intros s. unfold writeJSON.
  destruct (writeJSON_error env file.1); run_script; done.
Qed.

Lemma silent_generateExports env : silent (generateExports env).
Proof.
  intros s. unfold generateExports. run_script.
  destruct (getAllDependencies env true) as [packages|]; run_script; [|done].
  destruct (collectExports env packages _) as [collected|]; run_script;
    [|done].
  case_decide; run_script.
  - destruct (Cli.force (cliArgs env)); run_script; [|done].
    destruct (Cli.check (cliArgs env)); run_script; [done |].
    match goal with
    | |- context [promise_all ?tasks ?s'] =>
        destruct (silent_write_files env (files collected) s') as [Hf He]
    end.
    done.
  - destruct (Cli.check (cliArgs env)); run_script.
    + split; [done |]. by intros code [= <-].
    + match goal with
      | |- context [promise_all ?tasks ?s'] =>
          destruct (silent_write_files env (files collected) s') as [Hf He]
      end.
      done.
Qed.

(** The generators that [main] starts, as one task. *)
Lemma silent_generators env :
  silent
    (if Cli.size (cliArgs env) then
       promise_all [generateSizeLimitConfig env]
     else if Cli.tsExperimentalReferences (cliArgs env) then
       promise_all [generatePackageTsConfigs env; generateMainTsConfig env]
     else if Cli.tsPackages (cliArgs env) then
       promise_all [generatePackageTsConfigs env]
     else if Cli.exports (cliArgs env) then
       promise_all [generateExports env]
     else
       promise_all [generateSizeLimitConfig env]).
Proof.
  pose proof (silent_generateSizeLimitConfig env).
  pose proof (silent_generateMainTsConfig env).
  pose proof (silent_generatePackageTsConfigs env (timing env)).
  pose proof (silent_generateExports env).
  repeat case_match; apply silent_promise_all;
    repeat (apply Forall_cons; split; [assumption |]); by apply Forall_nil.
Qed.

(** X18: [main] formats files at most once, after the generators, and only
    when it ends normally with files listed for formatting: [formatFiles]
    then receives the listed files, joined by spaces. When nothing is
    listed, or when a generator or [formatFiles] itself fails, no file is
    formatted. *)
Theorem main_formats_generated_files env s :
  let result := Script.main env s in
  match result.1 with
  | Normal _ =>
      formatted result.2
      = formatted s
        ++ (if decide (filesToPrettify result.2 = []) then []
            else [String.concat " " (filesToPrettify result.2)])
  | _ => formatted result.2 = formatted s
  end.
Proof.
  intros result. subst result.
  destruct (Script.main env s) as [c s'] eqn:Hmain. cbn [fst snd].
  unfold Script.main in Hmain.
  pose proof (silent_generators env) as Hgenerators.
  set (generators := if Cli.size (cliArgs env) then _ else _) in *.
  clearbody generators. unfold mbind at 1, M_bind at 1 in Hmain.
  destruct (Hgenerators s) as [Hformatted _].
  destruct (generators s) as [[[]|e|code] s1]; cbn in *;
    [|by simplify_eq..].
  unfold get_state, mbind, M_bind, mret, M_ret in Hmain. cbn in Hmain.
  case_decide as Hfiles; cbn in Hmain.
  - simplify_eq. rewrite decide_True by done. by rewrite app_nil_r.
  - unfold formatFiles in Hmain.
    destruct (formatFiles_error env _);
      unfold throw, record_format in Hmain; cbn in Hmain; simplify_eq; cbn;
      [done |].
    rewrite decide_False by done. by rewrite Hformatted.
Qed.

(** X19: the script ends the process with code 0 or with code 1, and with
    code 0 exactly when [main] ends normally. *)
Theorem script_exit_code env s :
  let code := exitCode (Script.script env s).1 in
  (code = 0 ∨ code = 1)
  ∧ (code = 0 ↔ (Script.main env s).1 = Normal ()).
Proof.
  intros code. subst code. unfold Script.script, try_catch.
  assert (∀ c, (Script.main env s).1 = Exit c → c = 1) as Hexit.
  { destruct (Script.main env s) as [c' s'] eqn:Hmain. cbn [fst].
    unfold Script.main in Hmain.
    pose proof (silent_generators env) as Hgenerators.
    set (generators := if Cli.size (cliArgs env) then _ else _) in *.
    clearbody generators. unfold mbind at 1, M_bind at 1 in Hmain.
    destruct (Hgenerators s) as [_ Hexit].
    destruct (generators s) as [[[]|e|c] s1]; cbn in *;
      [|by simplify_eq|intros c0 ?; simplify_eq; auto].
    unfold get_state, mbind, M_bind, mret, M_ret in Hmain. cbn in Hmain.
    case_decide; cbn in Hmain; [by simplify_eq |].
    unfold formatFiles in Hmain.
    destruct (formatFiles_error env _);
      unfold throw, record_format in Hmain; cbn in Hmain; by simplify_eq. }
  destruct (Script.main env s) as [[[]|e|c] s1]; cbn in *.
  - split; [by left | done].
  - run_script. split; [by right | done].
  - rewrite (Hexit c eq_refl). split; [by right | done].
Qed.

(** X20: with [--size], whatever the other flags, and with none of the
    flags that select another generator, the script generates the
    size-limit file and nothing else: when the packages can be listed and
    the file can be written and formatted, the script ends normally, having
    written that one file and formatted it. *)
Theorem script_size_mode env packages :
  Cli.size (cliArgs env) = true
  ∨ (Cli.tsExperimentalReferences (cliArgs env) = false
     ∧ Cli.tsPackages (cliArgs env) = false
     ∧ Cli.exports (cliArgs env) = false) →
  getAllDependencies env false = Ok packages →
  writeJSON_error env (paths.sizeLimit env) = None →
  formatFiles_error env (paths.sizeLimit env) = None →
  Script.script env initialState
  = (Normal (),
     {| written :=
          [(paths.sizeLimit env,
            SizeLimitFile (omap (sizeLimitOf env) packages))];
        filesToPrettify := [paths.sizeLimit env];
        logs := [ Info "Generating size-limit.json config file";
                  Debug "Prettifying the updated and created files" ];
        formatted := [paths.sizeLimit env] |}).
Proof.
  intros Hflags Hdeps Hwrite Hformat.
  assert (generateSizeLimitConfig env initialState
          = (Normal (),
             {| written :=
                  [(paths.sizeLimit env,
                    SizeLimitFile (omap (sizeLimitOf env) packages))];
                filesToPrettify := [paths.sizeLimit env];
                logs := [Info "Generating size-limit.json config file"];
                formatted := [] |})) as Hsize.
  { unfold generateSizeLimitConfig, writeJSON. run_script.
    rewrite Hdeps. run_script. rewrite Hwrite.
    unfold record_write, prettify_later. run_script.
    by rewrite collectSizes_omap. }
  assert (Script.main env initialState
          = (promise_all [generateSizeLimitConfig env];;
             s ← get_state;
             if decide (filesToPrettify s = []) then mret ()
             else
               log (Debug "Prettifying the updated and created files");;
               formatFiles env (String.concat " " (filesToPrettify s)))
              initialState) as Hmain.
  { unfold Script.main.
    destruct Hflags as [-> | (-> & -> & ->)]; [done |].
    by destruct (Cli.size (cliArgs env)). }
  unfold Script.script, try_catch. rewrite Hmain.
  unfold mbind at 1, M_bind at 1. cbn [promise_all]. rewrite Hsize.
  run_script. unfold formatFiles. rewrite Hformat. reflexivity.
Qed.

(** The witness of X20: the run of the script without flags in the example
    workspace. *)
Lemma script_size_mode_witness :
  Script.script (Example.env (Example.flags false false false)) initialState
  = (Normal (),
     {| written :=
          [("/repo/support/root/.size-limit.json",
            SizeLimitFile
              (omap (sizeLimitOf (Example.env (Example.flags false false false)))
                 [Example.remirrorPkg; Example.pmPkg; Example.supportPkg]))];
        filesToPrettify := ["/repo/support/root/.size-limit.json"];
        logs := [ Info "Generating size-limit.json config file";
                  Debug "Prettifying the updated and created files" ];
        formatted := ["/repo/support/root/.size-limit.json"] |}).
Proof.
  apply (script_size_mode (Example.env (Example.flags false false false))
           [Example.remirrorPkg; Example.pmPkg; Example.supportPkg]).
  - right. split_and!; reflexivity.
  - reflexivity.
  - reflexivity.
  - reflexivity.
Defined.

(** In check mode the generator of exports writes nothing and lists
    nothing for formatting, however it ends. *)
Lemma generateExports_check_read_only env s :
  Cli.check (cliArgs env) = true →
  written (generateExports env s).2 = written s
  ∧ filesToPrettify (generateExports env s).2 = filesToPrettify s.
Proof.
  intros Hcheck. unfold generateExports. run_script.
  destruct (getAllDependencies env true) as [packages|]; run_script; [|done].
  destruct (collectExports env packages _) as [collected|]; run_script;
    [|done].
  case_decide; run_script.
  - destruct (Cli.force (cliArgs env)); run_script; [|done].
    rewrite Hcheck. run_script. done.
  - rewrite Hcheck. run_script. done.
Qed.

(** How the generator of exports ends in check mode. *)
Lemma generateExports_check_completion env s :
  Cli.check (cliArgs env) = true →
  (generateExports env s).1
  = match getAllDependencies env true with
    | Err e => Throw e
    | Ok packages =>
        match collectExports env packages
                {| actual := []; expected := []; files := [] |} with
        | Err e => Throw e
        | Ok collected =>
            if decide (sameOutput (actual collected) (expected collected))
            then Normal ()
            else Exit 1
        end
    end.
Proof.
  intros Hcheck. unfold generateExports. run_script.
  destruct (getAllDependencies env true) as [packages|]; run_script; [|done].
  destruct (collectExports env packages _) as [collected|]; run_script;
    [|done].
  case_decide; run_script.
  - destruct (Cli.force (cliArgs env)); run_script; [|done].
    rewrite Hcheck. run_script. done.
  - rewrite Hcheck. run_script. done.
Qed.

(** X21: the check of the exports, [--exports --check], only reads: the
    script writes no file and formats none. It ends the process with code
    0 exactly when the packages can be listed, the exports of every package
    can be generated, and the generated exports are the stored ones; it
    ends it with code 1 otherwise. *)
Theorem script_check_mode env s :
  Cli.size (cliArgs env) = false →
  Cli.tsExperimentalReferences (cliArgs env) = false →
  Cli.tsPackages (cliArgs env) = false →
  Cli.exports (cliArgs env) = true →
  Cli.check (cliArgs env) = true →
  filesToPrettify s = [] →
  let result := Script.script env s in
  written result.2 = written s
  ∧ formatted result.2 = formatted s
  ∧ filesToPrettify result.2 = []
  ∧ (exitCode result.1 = 0 ∨ exitCode result.1 = 1)
  ∧ (exitCode result.1 = 0
     ↔ ∃ packages collected,
         getAllDependencies env true = Ok packages
         ∧ collectExports env packages
             {| actual := []; expected := []; files := [] |} = Ok collected
         ∧ sameOutput (actual collected) (expected collected)).
Proof.
  intros Hsize Hts Hpackages Hexports Hcheck Hfiles result. subst result.
  destruct (generateExports_check_read_only env s Hcheck)
    as [Hwritten Hpretty].
  pose proof (generateExports_check_completion env s Hcheck) as Hcompletion.
  destruct (silent_generateExports env s) as [Hformatted _].
  destruct (Script.script env s) as [c' s'] eqn:Hscript. cbn [fst snd].
  unfold Script.script, Script.main, try_catch in Hscript.
  rewrite Hsize, Hts, Hpackages, Hexports in Hscript.
  unfold mbind at 1, M_bind at 1 in Hscript. cbn [promise_all] in Hscript.
  destruct (generateExports env s) as [c s1]. cbn [fst snd] in *.
  rewrite Hfiles in Hpretty.
  destruct (getAllDependencies env true) as [packages|e].
  2:{ subst c. run_script in Hscript. simplify_eq. cbn.
      split_and!; [done | done | done | by right |].
      split; [done | by intros (? & ? & ? & _)]. }
  destruct (collectExports env packages _) as [collected|e] eqn:Hcollect.
  2:{ subst c. run_script in Hscript. simplify_eq. cbn.
      split_and!; [done | done | done | by right |].
      split; [done |]. intros (? & ? & [= <-] & Hc & _). congruence. }
  case_decide as Hsame; subst c.
  - run_script in Hscript. rewrite decide_True in Hscript by done.
    run_script in Hscript. simplify_eq. cbn.
    split_and!; [done | done | done | by left |].
    split; [eauto | done].
  - run_script in Hscript. simplify_eq. cbn.
    split_and!; [done | done | done | by right |].
    split; [done |]. intros (? & ? & [= <-] & Hc & ?).
    rewrite Hcollect in Hc. by simplify_eq.
Qed.

(** The witness of X21: the check ends with code 0 in the workspace whose
    exports are up to date. *)
Lemma script_check_mode_witness :
  let result :=
    Script.script (Workspace.current (Example.flags true true false))
      initialState in
  written result.2 = []
  ∧ formatted result.2 = []
  ∧ exitCode result.1 = 0.
Proof.
  destruct (script_check_mode (Workspace.current (Example.flags true true false))
              initialState eq_refl eq_refl eq_refl eq_refl eq_refl eq_refl)
    as (Hwritten & Hformatted & _ & _ & Hcode).
  split_and!; [exact Hwritten | exact Hformatted |].
  apply Hcode. eexists _, _. split; [reflexivity |]. split.
  - vm_compute. reflexivity.
  - refine (bool_decide_unpack _ _). vm_compute. exact I.
Defined.

(** ** The steps of the publish job *)

Section publish.
Import Workflow.

(** A step that is neither a parse step nor a release step, when it
    fails. *)
Lemma runStep_plain_failed wf w p s :
  failed p = false →
  uses s ≠ Some "ocavue/changelog-parser-action@v1" →
  uses s ≠ Some "ncipollo/release-action@v1" →
  continue_on_error s = false →
  step_succeeds w (name s) = false →
  runStep wf w p s
  = {| outputs := outputs p; releases := releases p;
       ran := ran p ++ [name s]; failed := true |}.
Proof.
  intros Hfailed Hparse Hrelease Hcontinue Hfails. unfold runStep, perform.
  rewrite Hfailed, !decide_False, Hfails, Hcontinue by assumption.
  reflexivity.
Qed.

(** The job when all the steps up to the publication on npm succeed: it
    fails exactly when one of the changelogs cannot be parsed. *)
Lemma publish_after_publication w :
  Forall (λ name, step_succeeds w name = true) publishingSteps →
  failed (runSteps publish w (steps (npm publish)) start)
  = negb
      (bool_decide
         (is_Some (changelogs w "packages/remirror__react/CHANGELOG.md")
          ∧ is_Some (changelogs w "packages/remirror__pm/CHANGELOG.md")
          ∧ is_Some (changelogs w "packages/remirror/CHANGELOG.md"))).
Proof.
  intros Hall. unfold publishingSteps in Hall.
  repeat (apply Forall_cons in Hall as [? Hall]).
  set (wf := publish) at 1. cbv [publish npm steps]. clearbody wf.
  do 6 (rewrite runSteps_cons;
        rewrite runStep_plain by (reflexivity || discriminate || assumption)).
  cbn [outputs releases ran failed start Workflow.name app].
  rewrite runSteps_cons, runStep_parse by reflexivity.
  destruct (changelogs w "packages/remirror__react/CHANGELOG.md")
    as [react|].
  2:{ rewrite (runSteps_failed wf w) by reflexivity. cbn [failed].
      rewrite bool_decide_eq_false_2; [done |]. by intros [[? ?] _]. }
  rewrite runSteps_cons.
  rewrite (runStep_release wf w _ _ _ react)
    by (reflexivity || apply get_set_eq).
  rewrite runSteps_cons, runStep_parse by reflexivity.
  destruct (changelogs w "packages/remirror__pm/CHANGELOG.md") as [pm|].
  2:{ rewrite (runSteps_failed wf w) by reflexivity. cbn [failed].
      rewrite bool_decide_eq_false_2; [done |]. by intros (_ & [? ?] & _). }
  rewrite runSteps_cons.
  rewrite (runStep_release wf w _ _ _ pm)
    by (reflexivity || apply get_set_eq).
  rewrite runSteps_cons, runStep_parse by reflexivity.
  destruct (changelogs w "packages/remirror/CHANGELOG.md") as [remirror|].
  2:{ rewrite (runSteps_failed wf w) by reflexivity. cbn [failed].
      rewrite bool_decide_eq_false_2; [done |]. by intros (_ & _ & [? ?]). }
  rewrite runSteps_cons.
  rewrite (runStep_release wf w _ _ _ remirror)
    by (reflexivity || apply get_set_eq).
  rewrite runSteps_nil. cbn [failed].
  rewrite bool_decide_eq_true_2; [done |]. eauto.
Qed.

Lemma runSteps_plain_stop wf w plainSteps rest p n s :
  failed p = false →
  Forall plainStep plainSteps →
  plainSteps !! n = Some s →
  step_succeeds w (name s) = false →
  (∀ m earlier, (m < n)%nat → plainSteps !! m = Some earlier →
                step_succeeds w (name earlier) = true) →
  runSteps wf w (plainSteps ++ rest) p
  = {| outputs := outputs p; releases := releases p;
       ran := ran p ++ (name <$> take (S n) plainSteps); failed := true |}.
Proof.
  intros Hfailed Hplain. revert n p Hfailed.
  induction Hplain as [|s0 plainSteps (Hparse & Hrelease & Hcontinue) _ IH];
    intros n p Hfailed Hn Hfails Hearlier; [done |].
  rewrite <- app_comm_cons, runSteps_cons. destruct n as [|n].
  - injection Hn as ->.
    rewrite runStep_plain_failed by assumption.
    by rewrite (runSteps_failed wf w).
  - rewrite runStep_plain; [|done..|by apply (Hearlier 0%nat); [lia |]].
    rewrite (IH n); [|done|done|done|].
    + cbn [outputs releases ran]. rewrite firstn_cons, fmap_cons.
      by rewrite <- app_assoc.
    + intros m earlier Hm Hlookup. apply (Hearlier (S m)); [lia | done].
Qed.

(** The job when one of the steps up to the publication on npm fails: the
    steps up to that one have run, and nothing else has happened. *)
Lemma publish_stops w n failing :
  publishingSteps !! n = Some failing →
  step_succeeds w failing = false →
  (∀ m earlier, (m < n)%nat → publishingSteps !! m = Some earlier →
                step_succeeds w earlier = true) →
  runSteps publish w (steps (npm publish)) start
  = {| outputs := []; releases := []; ran := take (S n) publishingSteps;
       failed := true |}.
Proof.
  intros Hn Hfails Hearlier.
  change (steps (npm publish))
    with (take 6 (steps (npm publish)) ++ drop 6 (steps (npm publish))).
  change publishingSteps with (name <$> take 6 (steps (npm publish))) in *.
  set (plainSteps := take 6 (steps (npm publish))) in *.
  assert (Forall plainStep plainSteps) as Hplain.
  { subst plainSteps. cbv [take steps npm publish].
    repeat (apply Forall_cons; split;
            [split_and!; (discriminate || reflexivity) |]).
    by apply Forall_nil. }
  clearbody plainSteps.
  rewrite list_lookup_fmap in Hn.
  destruct (plainSteps !! n) as [s|] eqn:Hs; [|done]. injection Hn as <-.
  rewrite (runSteps_plain_stop publish w plainSteps _ start n s);
    [|reflexivity|done|done|done|].
  - cbn [outputs releases ran start app]. by rewrite fmap_take.
  - intros m earlier Hm Hlookup. apply (Hearlier m); [done |].
    by rewrite list_lookup_fmap, Hlookup.
Qed.

(** The steps up to the publication on npm all succeed, or there is a
    first one that fails. *)
Lemma publishingSteps_cases w :
  Forall (λ name, step_succeeds w name = true) publishingSteps
  ∨ ∃ n failing,
      publishingSteps !! n = Some failing
      ∧ step_succeeds w failing = false
      ∧ ∀ m earlier, (m < n)%nat → publishingSteps !! m = Some earlier →
                     step_succeeds w earlier = true.
Proof.
  generalize publishingSteps as names.
  induction names as [|first names IH]; [by left |].
  destruct (step_succeeds w first) eqn:Hfirst.
  - destruct IH as [Hall | (n & failing & Hn & Hfails & Hearlier)].
    + left. by constructor.
    + right. exists (S n), failing. split_and!; [done | done |].
      intros [|m] earlier Hm Hlookup; simplify_eq/=; [done |].
      apply (Hearlier m); [lia | done].
  - right. exists 0%nat, first. split_and!; [done | done |].
    intros m earlier Hm. lia.
Qed.

(** X22: a run of the publish job that is neither cancelled nor timed out
    succeeds exactly when the six steps up to the publication on npm
    succeed and the three changelogs can be parsed; whether the releases
    can be created does not matter. *)
Theorem publish_job_succeeds_iff w :
  jobConclusion (runSteps publish w (steps (npm publish)) start) = success
  ↔ Forall (λ name, step_succeeds w name = true) publishingSteps
    ∧ is_Some (changelogs w "packages/remirror__react/CHANGELOG.md")
    ∧ is_Some (changelogs w "packages/remirror__pm/CHANGELOG.md")
    ∧ is_Some (changelogs w "packages/remirror/CHANGELOG.md").
Proof.
  unfold jobConclusion.
  destruct (publishingSteps_cases w)
    as [Hall | (n & failing & Hn & Hfails & Hearlier)].
  - rewrite (publish_after_publication w Hall).
    case_bool_decide as Hparsed; cbn; split; try done.
    + intros [_ ?]. done.
  - rewrite (publish_stops w n failing Hn Hfails Hearlier). cbn [failed].
    split; [done |]. intros [Hall _].
    rewrite Forall_lookup in Hall. specialize (Hall n failing Hn).
    cbn in Hall. congruence.
Qed.

(** X23: when one of the six steps up to the publication on npm fails, the
    job stops there: the steps up to the first one that fails have run, no
    step after it runs, no release is created, and the job fails. *)
Theorem failed_publishing_step_stops_job w n failing :
  publishingSteps !! n = Some failing →
  step_succeeds w failing = false →
  (∀ m earlier, (m < n)%nat → publishingSteps !! m = Some earlier →
                step_succeeds w earlier = true) →
  let p := runSteps publish w (steps (npm publish)) start in
  ran p = take (S n) publishingSteps
  ∧ releases p = []
  ∧ jobConclusion p = failure.
Proof.
  intros Hn Hfails Hearlier p. subst p.
  by rewrite (publish_stops w n failing Hn Hfails Hearlier).
Qed.

(** The witness of X23: when the build fails, nothing is published and no
    release is created. *)
Lemma failed_publishing_step_stops_job_witness :
  let p :=
    runSteps publish (worldWhere (λ name, bool_decide (name = "build project")))
      (steps (npm publish)) start in
  ran p = [ "checkout code repository"; "setup caching"; "setup node.js";
            "install and audit"; "build project" ]
  ∧ releases p = []
  ∧ jobConclusion p = failure.
Proof.
  apply (failed_publishing_step_stops_job
           (worldWhere (λ name, bool_decide (name = "build project")))
           4 "build project").
  - reflexivity.
  - reflexivity.
  - intros m earlier Hm Hlookup.
    do 4 (destruct m as [|m]; [by injection Hlookup as <- |]). lia.
Defined.

End publish.
#[local] Arguments finalPool : simpl never.


(** ** The outcome of the package tasks *)

Section tasks.
Context (env : Env) (dependencies : list (string * string)).
Context (s0 : State) (all : list Package).

Lemma run_next_rejected p : rejected (run_next p) = rejected p.
Proof. unfold run_next. by destruct (queue p). Qed.

Lemma settle_rejected i p : rejected (settle i p) = rejected p.
Proof. unfold settle. by rewrite run_next_rejected. Qed.

Lemma progressing_rejected p :
  is_Some (rejected p) → progressing env dependencies s0 all p.
Proof. intros [e He] Hnone. congruence. Qed.

Lemma run_next_progressing p :
  progressing env dependencies s0 all p →
  progressing env dependencies s0 all (run_next p).
Proof.
  intros Hp. unfold run_next.
  destruct (queue p) as [|pkg rest] eqn:Hq; [done |].
  intros Hrejected. cbn in Hrejected.
  destruct (Hp Hrejected)
    as (finished & Hfinished & Hlisted & Hperm & Hrunning).
  exists finished. split_and!; cbn [running queue state]; [done | done | |].
  - rewrite <- Hperm, Hq, fmap_app, <- !app_assoc. done.
  - apply Forall_app. split; [done |]. by apply Forall_singleton.
Qed.

Lemma run_next_confined p :
  confined env dependencies s0 all p →
  confined env dependencies s0 all (run_next p).
Proof.
  intros (Hwritten & Hrunning & Hqueue). unfold run_next.
  destruct (queue p) as [|pkg rest] eqn:Hq; [by rewrite <- Hq in Hqueue |].
  split_and!; cbn [state running queue]; [done | |].
  - apply Forall_app. split; [done |]. apply Forall_singleton.
    split; [|done]. apply Hqueue. left.
  - intros x Hx. apply Hqueue. by right.
Qed.

(** A task that has written all its files settles. *)
Lemma settle_progressing i pkg tsconfigFiles p :
  running p !! i = Some (pkg, Writing [] tsconfigFiles) →
  progressing env dependencies s0 all p →
  progressing env dependencies s0 all
    (settle i
       (set_state
          (λ s, (prettify_later
                   (String.concat " " (filepath <$> tsconfigFiles)) s).2) p)).
Proof.
  intros Hi Hp. unfold settle. apply run_next_progressing.
  intros Hrejected. cbn in Hrejected.
  destruct (Hp Hrejected)
    as (finished & Hfinished & Hlisted & Hperm & Hrunning).
  destruct (Forall_lookup_1 _ _ _ _ Hrunning Hi) as [Hresolve Hwrites].
  cbn in Hresolve.
  exists (finished ++ [pkg]). split_and!; cbn [running queue state set_state].
  - apply Forall_app. split; [done |]. apply Forall_singleton.
    exists tsconfigFiles. split; [done |]. by apply Hwrites.
  - cbn. rewrite Hlisted, fmap_app, <- app_assoc. do 2 f_equal. cbn.
    unfold listedFiles, filesOfPackage. by rewrite Hresolve.
  - rewrite <- Hperm.
    rewrite (delete_Permutation (running p) i _ Hi) at 2.
    rewrite fmap_cons, <- !app_assoc. done.
  - by apply Forall_delete.
Qed.

Lemma settle_confined i p :
  confined env dependencies s0 all p →
  confined env dependencies s0 all (settle i p).
Proof.
  intros (Hwritten & Hrunning & Hqueue). unfold settle.
  apply run_next_confined.
  split_and!; cbn [state running queue]; [done | | done].
  by apply Forall_delete.
Qed.

Lemma elem_of_allTsConfigFiles pkg tsconfigFiles tsconfig :
  pkg ∈ all →
  resolveTsConfigMeta env pkg dependencies = Ok tsconfigFiles →
  tsconfig ∈ tsconfigFiles →
  tsconfig ∈ allTsConfigFiles env dependencies all.
Proof.
  intros Hpkg Hresolve Hin. unfold allTsConfigFiles.
  apply list_elem_of_bind. exists pkg. split; [|done].
  unfold filesOfPackage. by rewrite Hresolve.
Qed.

Ltac pool_simpl :=
  unfold push_references, set_running, set_state, reject;
  cbn [running queue state rejected references activeCount].

Lemma deliver_progressing event p :
  progressing env dependencies s0 all p →
  progressing env dependencies s0 all (deliver env dependencies event p).
Proof.
  intros Hp. unfold deliver. case_decide as Hrejected; [done |].
  assert (rejected p = None) as Hnone.
  { destruct (rejected p); [|done]. destruct Hrejected; eauto. }
  destruct (Hp Hnone) as (finished & Hfinished & Hlisted & Hperm & Hrunning).
  destruct event as [i|i j|i].
  - destruct (running p !! i) as [[pkg [|pending files]]|] eqn:Hi; [|done..].
    destruct (resolveTsConfigMeta env pkg dependencies) as [files|e]
      eqn:Hresolve.
    + intros _. exists finished. split_and!; pool_simpl; [done | done | |].
      * rewrite <- Hperm. do 2 f_equiv.
        rewrite list_fmap_insert. cbn [fst].
        rewrite list_insert_id; [done |].
        by rewrite list_lookup_fmap, Hi.
      * apply Forall_insert; [done |]. cbn. done.
    + apply progressing_rejected. rewrite settle_rejected. cbn. eauto.
  - destruct (running p !! i) as [[pkg [|pending files]]|] eqn:Hi;
      [done | | done].
    destruct (pending !! j) as [tsconfig|] eqn:Hj; [|done].
    destruct (writeJSON_error env (filepath tsconfig)) as [e|] eqn:Hwrite.
    + apply progressing_rejected. rewrite settle_rejected. cbn. eauto.
    + intros _. exists finished. split_and!; pool_simpl; [done | done | |].
      * rewrite <- Hperm. do 2 f_equiv.
        rewrite list_fmap_insert. cbn [fst].
        rewrite list_insert_id; [done |].
        by rewrite list_lookup_fmap, Hi.
      * apply Forall_insert; [done |]. cbn.
        destruct (Forall_lookup_1 _ _ _ _ Hrunning Hi) as [Hresolve Hwrites].
        split; [done |]. intros Hrest. apply Hwrites.
        rewrite (delete_Permutation pending j tsconfig Hj).
        by constructor.
  - destruct (running p !! i) as [[pkg [|[|tsconfig pending] files]]|] eqn:Hi;
      [done | | done..].
    by apply (settle_progressing i pkg files).
Qed.

Lemma deliver_confined event p :
  confined env dependencies s0 all p →
  confined env dependencies s0 all (deliver env dependencies event p).
Proof.
  intros Hp. unfold deliver. case_decide as Hrejected; [done |].
  pose proof Hp as ((done & Hwritten & Hdone) & Hrunning & Hqueue).
  destruct event as [i|i j|i].
  - destruct (running p !! i) as [[pkg [|pending files]]|] eqn:Hi; [|done..].
    destruct (Forall_lookup_1 _ _ _ _ Hrunning Hi) as [Hpkg _].
    destruct (resolveTsConfigMeta env pkg dependencies) as [files|e]
      eqn:Hresolve.
    + split_and!; pool_simpl; [by exists done | | done].
      apply Forall_insert; [done |]. cbn. done.
    + by apply settle_confined.
  - destruct (running p !! i) as [[pkg [|pending files]]|] eqn:Hi;
      [done | | done].
    destruct (pending !! j) as [tsconfig|] eqn:Hj; [|done].
    destruct (Forall_lookup_1 _ _ _ _ Hrunning Hi)
      as (Hpkg & Hresolve & Hsub).
    cbn in Hpkg, Hresolve, Hsub.
    destruct (writeJSON_error env (filepath tsconfig)) as [e|] eqn:Hwrite.
    + by apply settle_confined.
    + split_and!; pool_simpl; [| | done].
      * exists (done ++ [tsconfig]). cbn. split.
        { by rewrite Hwritten, fmap_app, <- app_assoc. }
        intros x [Hx | ->%list_elem_of_singleton]%elem_of_app; [by apply Hdone |].
        apply (elem_of_allTsConfigFiles pkg files); [done | done |].
        apply Hsub. by eapply list_elem_of_lookup_2.
      * apply Forall_insert; [done |]. cbn. split_and!; [done | done |].
        intros x Hx. apply Hsub.
        rewrite (delete_Permutation pending j tsconfig Hj). by right.
  - destruct (running p !! i) as [[pkg [|[|tsconfig pending] files]]|] eqn:Hi;
      [done | | done..].
    apply settle_confined.
    split_and!; pool_simpl; [by exists done | done | done].
Qed.

Lemma deliver_busy event p :
  busy (cpus env) p → busy (cpus env) (deliver env dependencies event p).
Proof.
  intros Hp. unfold deliver. case_decide as Hrejected; [done |].
  destruct event as [i|i j|i].
  - destruct (running p !! i) as [[pkg [|pending files]]|] eqn:Hi; [|done..].
    destruct (resolveTsConfigMeta env pkg dependencies) as [files|e].
    + unfold busy. pool_simpl. by rewrite length_insert.
    + apply settle_busy; [done |]. pool_simpl. eauto.
  - destruct (running p !! i) as [[pkg [|pending files]]|] eqn:Hi;
      [done | | done].
    destruct (pending !! j) as [tsconfig|]; [|done].
    destruct (writeJSON_error env (filepath tsconfig)).
    + apply settle_busy; [done |]. pool_simpl. eauto.
    + unfold busy. pool_simpl. by rewrite length_insert.
  - destruct (running p !! i) as [[pkg [|[|tsconfig pending] files]]|] eqn:Hi;
      [done | | done..].
    apply settle_busy; [done |]. pool_simpl. eauto.
Qed.

(** While no task fails, the event that [drain] picks takes one unit of
    work away. *)
Lemma work_deliver_unrejected event p :
  nextEvent p = Some event →
  rejected (deliver env dependencies event p) = None →
  S (work env dependencies (deliver env dependencies event p))
  = work env dependencies p.
Proof.
  intros Hnext. unfold deliver. case_decide as Hrejected.
  { intros Hnone. destruct Hrejected as [e He]. congruence. }
  unfold nextEvent in Hnext.
  destruct (running p) as [|[pkg phase] rest] eqn:Hrun; [done |].
  destruct phase as [|[|tsconfig pending] files]; simplify_eq/=.
  - destruct (resolveTsConfigMeta env pkg dependencies) as [files|e]
      eqn:Hresolve.
    + intros _. unfold work. pool_simpl. rewrite Hrun. cbn.
      assert (workOfPackage env dependencies pkg = (2 + length files)%nat)
        as -> by (unfold workOfPackage; by rewrite Hresolve).
      lia.
    + rewrite settle_rejected. pool_simpl. by destruct (rejected p).
  - intros _. unfold settle. rewrite work_run_next. unfold work. pool_simpl.
    rewrite Hrun. cbn. lia.
  - destruct (writeJSON_error env (filepath tsconfig)) as [e|].
    + rewrite settle_rejected. pool_simpl. by destruct (rejected p).
    + intros _. unfold work. pool_simpl. rewrite Hrun. cbn. lia.
Qed.

Lemma drain_rejected fuel p :
  is_Some (rejected p) → drain env dependencies fuel p = p.
Proof.
  intros Hrejected. induction fuel as [|fuel IH]; [done |].
  cbn [drain]. destruct (nextEvent p); [|done].
  unfold deliver. by rewrite decide_True.
Qed.

(** With enough fuel, the tasks run until one of them fails or all of them
    have settled. *)
Lemma drain_settles fuel p :
  rejected (drain env dependencies fuel p) = None →
  (work env dependencies p ≤ fuel)%nat →
  running (drain env dependencies fuel p) = [].
Proof.
  revert p. induction fuel as [|fuel IH]; intros p Hnone Hwork.
  - cbn. destruct (running p) as [|task rest] eqn:Hrun; [done |].
    unfold work in Hwork. rewrite Hrun in Hwork. cbn in Hwork.
    pose proof (workOfTask_pos env dependencies task). lia.
  - cbn [drain] in *. destruct (nextEvent p) as [event|] eqn:Hnext.
    + apply IH; [done |].
      destruct (rejected (deliver env dependencies event p)) as [e|] eqn:Hd.
      * rewrite drain_rejected in Hnone by (rewrite Hd; eauto). congruence.
      * pose proof (work_deliver_unrejected event p Hnext Hd). lia.
    + unfold nextEvent in Hnext.
      by destruct (running p) as [|[pkg [|[|tsconfig pending] files]] rest].
Qed.

Lemma runPool_preserves (P : Pool → Prop) events p :
  (∀ event p, P p → P (deliver env dependencies event p)) →
  P p → P (runPool env dependencies events p).
Proof.
  intros Hdeliver. revert p.
  induction events as [|event events IH]; intros p Hp; [done |].
  apply IH, Hdeliver, Hp.
Qed.

Lemma drain_preserves (P : Pool → Prop) fuel p :
  (∀ event p, P p → P (deliver env dependencies event p)) →
  P p → P (drain env dependencies fuel p).
Proof.
  intros Hdeliver. revert p.
  induction fuel as [|fuel IH]; intros p Hp; [done |].
  cbn [drain]. destruct (nextEvent p); [|done]. apply IH, Hdeliver, Hp.
Qed.

Lemma startPool_preserves (P : Pool → Prop) concurrency packages s :
  (∀ p, P p → P (run_next p)) →
  P {| queue := packages; activeCount := 0; running := []; references := [];
       state := s; rejected := None |} →
  P (startPool concurrency packages s).
Proof.
  intros Hnext Hstart. unfold startPool.
  generalize (length packages) as n.
  induction n as [|n IH]; [done |].
  change (Nat.iter (S n) ?f ?x) with (f (Nat.iter n f x)).
  unfold enqueued at 1. case_decide; [by apply Hnext | done].
Qed.

Lemma startPool_busy packages s :
  busy (cpus env) (startPool (cpus env) packages s).
Proof.
  destruct (startPool_counts env packages s (length packages) (le_n _))
    as (_ & Hr & Hq).
  fold (startPool (cpus env) packages s) in Hr, Hq.
  unfold busy.
  destruct (decide (length packages ≤ cpus env)%nat).
  - left. apply length_zero_iff_nil. lia.
  - right. lia.
Qed.

(** Whatever the event loop delivers, the tasks end with one of them
    failed, or with all of them settled and nothing failed for any
    package; and they have only written tsconfig files of the packages. *)
Lemma finalPool_outcome events :
  (0 < cpus env)%nat →
  let p := finalPool env dependencies all events s0 in
  (rejected p = None →
   Forall (succeeds env dependencies) all
   ∧ ∃ finished,
       finished ≡ₚ all
       ∧ filesToPrettify (state p)
         = filesToPrettify s0 ++ (listedFiles env dependencies <$> finished))
  ∧ ∃ done,
      written (state p) = written s0 ++ (writeOf <$> done)
      ∧ done ⊆ allTsConfigFiles env dependencies all.
Proof.
  intros Hcpus p. subst p. unfold finalPool. cbv zeta.
  set (p0 := startPool (cpus env) all s0).
  set (p1 := runPool env dependencies events p0).
  assert (progressing env dependencies s0 all p0) as Hprogressing0.
  { apply startPool_preserves; [apply run_next_progressing |].
    intros _. exists []. split_and!; cbn; [done | | done | done].
    by rewrite app_nil_r. }
  assert (confined env dependencies s0 all p0) as Hconfined0.
  { apply startPool_preserves; [apply run_next_confined |].
    split_and!; cbn; [|done|done].
    exists []. split; [by rewrite app_nil_r | by intros x Hx%elem_of_nil]. }
  pose proof (startPool_busy all s0) as Hbusy0. fold p0 in Hbusy0.
  assert (progressing env dependencies s0 all p1) as Hprogressing1
    by (apply runPool_preserves; [apply deliver_progressing | done]).
  assert (confined env dependencies s0 all p1) as Hconfined1
    by (apply runPool_preserves; [apply deliver_confined | done]).
  assert (busy (cpus env) p1) as Hbusy1
    by (apply runPool_preserves; [apply deliver_busy | done]).
  set (p := drain env dependencies (work env dependencies p1) p1).
  assert (progressing env dependencies s0 all p) as Hprogressing
    by (apply drain_preserves; [apply deliver_progressing | done]).
  assert (confined env dependencies s0 all p) as Hconfined
    by (apply drain_preserves; [apply deliver_confined | done]).
  assert (busy (cpus env) p) as Hbusy
    by (apply drain_preserves; [apply deliver_busy | done]).
  split; [|apply Hconfined].
  intros Hnone.
  pose proof (drain_settles _ p1 Hnone (le_n _)) as Hrunning. fold p in Hrunning.
  assert (queue p = []) as Hqueue.
  { destruct Hbusy as [? | Hfull]; [done |]. rewrite Hrunning in Hfull.
    cbn in Hfull. lia. }
  destruct (Hprogressing Hnone)
    as (finished & Hfinished & Hlisted & Hperm & _).
  rewrite Hrunning, Hqueue in Hperm. cbn in Hperm.
  rewrite app_nil_r in Hperm. split; [by rewrite <- Hperm |].
  by exists finished.
Qed.

End tasks.

(** How the generator of the package tsconfig files ends, from the pool of
    its tasks. *)
Lemma generatePackageTsConfigsAt_run env packages dependencies s events :
  getAllDependencies env false = Ok packages →
  getTypedPackagesWithPath env = Ok dependencies →
  (0 < cpus env)%nat →
  let s' :=
    (log (Info "Generating tsconfig.json files for all packages") s).2 in
  let p := finalPool env dependencies packages events s' in
  generatePackageTsConfigsAt env events s
  = match rejected p with
    | Some e => (Throw e, state p)
    | None =>
        match writeJSON_error env (paths.rootTsconfig env) with
        | Some e => (Throw e, state p)
        | None =>
            (Normal (),
             (prettify_later (paths.rootTsconfig env)
                (record_write (paths.rootTsconfig env)
                   (JsonFile
                      (rootTsconfigJson
                         (sortReferences (localeCompare env) (references p))))
                   (state p)).2).2)
        end
    end.
Proof.
  intros Hdeps Htyped Hcpus s' p. subst p s'.
  unfold generatePackageTsConfigsAt. run_script.
  rewrite Hdeps. run_script. rewrite Htyped. run_script.
  rewrite decide_False by lia.
  destruct (rejected _); [done |].
  unfold writeJSON. by destruct (writeJSON_error env (paths.rootTsconfig env)).
Qed.

(** A package is switched off when its [tsconfigs] are [false]. *)
Lemma isFalse_true v : isFalse v = true ↔ v = Some (JBool false).
Proof.
  split; [|by intros ->]. by destruct v as [[| [] | | |]|].
Qed.

(** No merge throws when [mergeError] finds no error. *)
Lemma mergeError_None env calls :
  mergeError env calls = None
  ↔ Forall (λ objects, deepMerge_error env objects = None) calls.
Proof.
  unfold mergeError. induction calls as [|objects calls IH]; [done |].
  cbn [omap list_omap]. rewrite Forall_cons.
  destruct (deepMerge_error env objects) as [e|]; cbn [head]; [|tauto].
  split; [done | by intros [? _]].
Qed.

(** What it takes for nothing to fail for a package. *)
Lemma succeeds_iff env dependencies (pkg : Package) :
  succeeds env dependencies pkg
  ↔ remirror pkg ≫= tsconfigs = Some (JBool false)
    ∨ ∃ foldersInDirectory,
        readdir env (location pkg) = Ok foldersInDirectory
        ∧ deepMerge_error env
            [ DEFAULT_TSCONFIG_META;
              orEmptyObject (remirror pkg ≫= tsconfigs) ]
          = None
        ∧ Forall (λ objects, deepMerge_error env objects = None)
            (merges env pkg dependencies foldersInDirectory)
        ∧ Forall (λ tsconfig, writeJSON_error env (filepath tsconfig) = None)
            (tsConfigFiles env pkg dependencies foldersInDirectory).
Proof.
  unfold succeeds, resolveTsConfigMeta.
  destruct (isFalse (remirror pkg ≫= tsconfigs)) eqn:Hmeta.
  { apply isFalse_true in Hmeta. split; [by left |].
    intros _. exists []. split; [done | constructor]. }
  assert (remirror pkg ≫= tsconfigs ≠ Some (JBool false)) as Hnot.
  { intros H%isFalse_true. congruence. }
  destruct (readdir env (location pkg)) as [foldersInDirectory|e].
  - cbn.
    pose proof (mergeError_None env
                  ([ DEFAULT_TSCONFIG_META;
                     orEmptyObject (remirror pkg ≫= tsconfigs) ]
                   :: merges env pkg dependencies foldersInDirectory))
      as Hmerges.
    rewrite Forall_cons in Hmerges.
    destruct (mergeError env _) as [e|].
    + split; [by intros (? & ? & _) |].
      intros [? | (? & [= <-] & Hfirst & Hrest & _)]; [done |].
      by destruct Hmerges as [_ Hmerges]; specialize (Hmerges (conj Hfirst Hrest)).
    + destruct Hmerges as [Hmerges _]. destruct (Hmerges eq_refl).
      split.
      * intros (tsconfigFiles & [= <-] & Hwrite). right. eauto 10.
      * intros [? | (? & [= <-] & _ & _ & Hwrite)]; [done | eauto].
  - cbn. split; [by intros (? & ? & _) |].
    intros [? | (? & ? & _)]; done.
Qed.

(** X24: whatever the order in which the event loop completes the package
    tasks, the generator of the package tsconfig files ends normally
    exactly when the machine has a processor to count, nothing fails for
    any package and the root tsconfig file can be written. In every other
    case it throws. Nothing fails for a package when its [tsconfigs] are
    [false], or when its directory can be read, none of the merges of its
    configuration throws (the merge with the defaults and the merges of the
    compiler options of its folders) and each of its tsconfig files can be
    written. *)
Theorem generatePackageTsConfigs_ends_normally_iff env packages dependencies
    s events :
  getAllDependencies env false = Ok packages →
  getTypedPackagesWithPath env = Ok dependencies →
  let result := generatePackageTsConfigsAt env events s in
  (result.1 = Normal ()
   ↔ (0 < cpus env)%nat
     ∧ Forall (succeeds env dependencies) packages
     ∧ writeJSON_error env (paths.rootTsconfig env) = None)
  ∧ (result.1 = Normal () ∨ ∃ e, result.1 = Throw e)
  ∧ (∀ pkg : Package,
       succeeds env dependencies pkg
       ↔ remirror pkg ≫= tsconfigs = Some (JBool false)
         ∨ ∃ foldersInDirectory,
             readdir env (location pkg) = Ok foldersInDirectory
             ∧ deepMerge_error env
                 [ DEFAULT_TSCONFIG_META;
                   orEmptyObject (remirror pkg ≫= tsconfigs) ]
               = None
             ∧ Forall (λ objects, deepMerge_error env objects = None)
                 (merges env pkg dependencies foldersInDirectory)
             ∧ Forall
                 (λ tsconfig, writeJSON_error env (filepath tsconfig) = None)
                 (tsConfigFiles env pkg dependencies foldersInDirectory)).
Proof.
  intros Hdeps Htyped result.
  rewrite (and_assoc _ _ (∀ pkg : Package, _)).
  split; [|intros pkg; apply succeeds_iff].
  subst result.
  destruct (decide (cpus env = 0%nat)) as [Hzero|Hcpus].
  { assert (generatePackageTsConfigsAt env events s
            = (Throw "Expected `concurrency` to be a number from 1 and up",
               (log (Info "Generating tsconfig.json files for all packages")
                  s).2)) as ->.
    { unfold generatePackageTsConfigsAt. run_script.
      rewrite Hdeps. run_script. rewrite Htyped. run_script.
      by rewrite decide_True. }
    cbn [fst]. split; [|eauto]. split; [done | lia]. }
  assert (0 < cpus env)%nat as Hpos by lia.
  rewrite (generatePackageTsConfigsAt_run env packages dependencies s events
             Hdeps Htyped Hpos).
  cbv zeta.
  set (s' := (log _ s).2).
  destruct (finalPool_outcome env dependencies s' packages events Hpos)
    as [Hsucceeds _].
  assert (rejected (finalPool env dependencies packages events s') = None →
          Forall (succeeds env dependencies) packages) as Hsucceeds'
    by (intros Hnone; by destruct (Hsucceeds Hnone)).
  clear Hsucceeds. rename Hsucceeds' into Hsucceeds.
  pose proof (finalPool_complete env dependencies s' packages events Hpos)
    as Hcomplete.
  cbv zeta in Hsucceeds, Hcomplete.
  destruct (rejected (finalPool env dependencies packages events s'))
    as [e|] eqn:Hrejected.
  { cbn [fst]. split; [|eauto]. split; [done |].
    intros (_ & Hall & _). destruct (Hcomplete Hall) as [? _]. done. }
  destruct (writeJSON_error env (paths.rootTsconfig env)) as [e|].
  { cbn [fst]. split; [|eauto]. split; [done |]. by intros (_ & _ & ?). }
  cbn [fst]. split; [|by left]. split; [|done].
  intros _. split_and!; [done | by apply Hsucceeds | done].
Qed.


(** X26: when the generator of the package tsconfig files does not end
    normally, the files it has written, if any, are tsconfig files of the
    packages: the root tsconfig file is written last, and only once every
    task has succeeded. *)
Theorem generatePackageTsConfigs_failure env packages dependencies s events :
  getAllDependencies env false = Ok packages →
  getTypedPackagesWithPath env = Ok dependencies →
  let result := generatePackageTsConfigsAt env events s in
  result.1 ≠ Normal () →
  ∃ done,
    written result.2 = written s ++ (writeOf <$> done)
    ∧ done ⊆ allTsConfigFiles env dependencies packages.
Proof.
  intros Hdeps Htyped result. subst result.
  destruct (decide (cpus env = 0%nat)) as [Hzero|Hcpus].
  { assert (generatePackageTsConfigsAt env events s
            = (Throw "Expected `concurrency` to be a number from 1 and up",
               (log (Info "Generating tsconfig.json files for all packages")
                  s).2)) as ->.
    { unfold generatePackageTsConfigsAt. run_script.
      rewrite Hdeps. run_script. rewrite Htyped. run_script.
      by rewrite decide_True. }
    intros _. exists []. cbn. split; [by rewrite app_nil_r |].
    by intros x Hx%elem_of_nil. }
  assert (0 < cpus env)%nat as Hpos by lia.
  rewrite (generatePackageTsConfigsAt_run env packages dependencies s events
             Hdeps Htyped Hpos).
  cbv zeta.
  set (s' := (log _ s).2).
  destruct (finalPool_outcome env dependencies s' packages events Hpos)
    as [_ Hwritten].
  cbv zeta in Hwritten.
  destruct (rejected (finalPool env dependencies packages events s'));
    [intros _; exact Hwritten |].
  destruct (writeJSON_error env (paths.rootTsconfig env));
    [intros _; exact Hwritten | done].
Qed.

(** The witness of X24: in the example workspace nothing fails, and the
    generator ends normally; with a package whose configuration for its root
    has [null] for [compilerOptions], the merge of these options throws and
    the generator does not end normally. *)
Lemma generatePackageTsConfigs_ends_normally_iff_witness :
  (generatePackageTsConfigsAt (Example.env (Example.flags false false false))
     [Resolved 1; FileWritten 1 0] initialState).1
  = Normal ()
  ∧ (generatePackageTsConfigsAt
       (Workspace.withPackages [Workspace.nullOptionsPkg]
          (Example.env (Example.flags false false false)))
       [] initialState).1
    ≠ Normal ().
Proof.
  split.
  - destruct (generatePackageTsConfigs_ends_normally_iff
                (Example.env (Example.flags false false false))
                [Example.remirrorPkg; Example.pmPkg; Example.supportPkg]
                [("remirror", "/repo/packages/remirror")] initialState
                [Resolved 1; FileWritten 1 0] eq_refl eq_refl)
      as (Hiff & _ & _).
    apply Hiff. split_and!.
    + cbn. lia.
    + repeat constructor;
        (eexists; split;
         [vm_compute; reflexivity | apply Forall_forall; intros; reflexivity]).
    + reflexivity.
  - destruct (generatePackageTsConfigs_ends_normally_iff
                (Workspace.withPackages [Workspace.nullOptionsPkg]
                   (Example.env (Example.flags false false false)))
                [Workspace.nullOptionsPkg]
                [("remirror", "/repo/packages/remirror")] initialState
                [] eq_refl eq_refl)
      as (Hiff & _ & Hsucceeds).
    intros Hnormal. apply Hiff in Hnormal as (_ & Hall & _).
    apply Forall_cons in Hall as [Hpkg _].
    apply Hsucceeds in Hpkg
      as [Hoff | (foldersInDirectory & Hread & _ & Hmerges & _)];
      [discriminate |].
    injection Hread as <-. vm_compute in Hmerges.
    apply Forall_cons in Hmerges as [_ Hmerges].
    apply Forall_cons in Hmerges as [Hmain _]. discriminate.
Defined.

(** The witness of X26: when the tsconfig file of the [src] folder of
    [@remirror/pm] cannot be written, the generator throws, and what it
    has written are tsconfig files of the packages. *)
Lemma generatePackageTsConfigs_failure_witness :
  let env :=
    Workspace.withWriteErrors
      (λ file,
         bool_decide (file = "/repo/packages/remirror__pm/src/tsconfig.json"))
      (Example.env (Example.flags false false false)) in
  let result := generatePackageTsConfigsAt env [] initialState in
  ∃ done,
    written result.2 = written initialState ++ (writeOf <$> done)
    ∧ done
      ⊆ allTsConfigFiles env [("remirror", "/repo/packages/remirror")]
          [Example.remirrorPkg; Example.pmPkg; Example.supportPkg].
Proof.
  intros env.
  apply (generatePackageTsConfigs_failure env
           [Example.remirrorPkg; Example.pmPkg; Example.supportPkg]
           [("remirror", "/repo/packages/remirror")] initialState []).
  - reflexivity.
  - reflexivity.
  - vm_compute. discriminate.
Defined.

